(** * Lykke.Job.Steem: the ledger reconciliation engine

    A shallow embedding of the job's core: the parameter store
    ([src/domain/params.ts]), the balance repository
    ([src/domain/balances.ts]) and the chain scanner
    ([src/services/steemService.ts]: [handleActions], [handleExpired]).

    Conventions.
    - A JavaScript [number] that holds a count, an offset, a sequence or a
      block number is a [Z] (exact below 2^53, far above any value the
      chain produces); a [number] that holds an amount is a binary64
      [float], with the operations of the kernel's primitive floats.
    - A [Date] is a [Z] (milliseconds since the epoch).
    - [undefined]/[null] are [None]; truthiness tests are written out.
    - Asynchronous calls are sequential ([await] everywhere), so the code
      is a state-and-exception monad over the stores, with a trace of the
      calls it makes on its collaborators. *)

From Stdlib Require Import ZArith Lia Ascii String Floats.PrimFloat Uint63.
From stdpp Require Import gmap strings list fin_maps.

Local Open Scope string_scope.
Local Open Scope list_scope.
Local Open Scope Z_scope.

(** ** JavaScript built-ins used by the code *)

Module JS.

Abbreviation Date := Z (only parsing).

(** [WhiteSpace] and [LineTerminator] characters of the ASCII range. *)
Definition isWhiteSpace (c : ascii) : bool :=
  let n := nat_of_ascii c in
  bool_decide (n = 32 ∨ (9 ≤ n ∧ n ≤ 13))%nat.

Fixpoint trimStart (s : string) : string :=
  match s with
  | String c r => if isWhiteSpace c then trimStart r else s
  | EmptyString => s
  end.

(** Value of [c] as a digit in the given radix (10 or 16). *)
Definition digitOf (radix : Z) (c : ascii) : option Z :=
  let n := Z.of_nat (nat_of_ascii c) in
  if bool_decide (48 ≤ n ≤ 57) then Some (n - 48)
  else if bool_decide (radix = 16 ∧ 97 ≤ n ≤ 102) then Some (n - 87)
  else if bool_decide (radix = 16 ∧ 65 ≤ n ≤ 70) then Some (n - 55)
  else None.

(** Horner evaluation of the longest prefix of digits of [s]. *)
Fixpoint digitsValue (radix : Z) (s : string) (acc : Z) : Z :=
  match s with
  | String c r =>
      match digitOf radix c with
      | Some d => digitsValue radix r (radix * acc + d)
      | None => acc
      end
  | EmptyString => acc
  end.

(** [None] is [NaN]: the string has no digit where one is expected. *)
Definition parseDigits (radix : Z) (s : string) : option Z :=
  match s with
  | String c _ =>
      match digitOf radix c with
      | Some _ => Some (digitsValue radix s 0)
      | None => None
      end
  | EmptyString => None
  end.

(** [parseInt(string)] with no radix: leading white space, a sign, a
    [0x]/[0X] prefix, then the longest prefix of digits.  [undefined]
    (printed ["undefined"]) has no digit, hence [NaN].  The result is the
    integer the digits denote, which is JavaScript's result below 2^53
    (above, JavaScript rounds to the nearest binary64); white space is
    that of the ASCII range, the strings being byte strings. *)
Definition parseInt (s : option string) : option Z :=
  match s with
  | None => None
  | Some s =>
      let s := trimStart s in
      let '(neg, s) :=
        match s with
        | String "-" r => (true, r)
        | String "+" r => (false, r)
        | _ => (false, s)
        end in
      let '(radix, s) :=
        match s with
        | String "0" (String "x" r) => (16, r)
        | String "0" (String "X" r) => (16, r)
        | _ => (10, s)
        end in
      match parseDigits radix s with
      | Some n => Some (if neg then - n else n)
      | None => None
      end
  end.

Definition digitChar (d : Z) : ascii := ascii_of_nat (Z.to_nat (48 + d)).

(** Decimal digits of [n >= 0], most significant first, in front of
    [acc]; [fuel] bounds the number of digits. *)
Fixpoint digitsOf (fuel : nat) (n : Z) (acc : string) : string :=
  let acc' := String (digitChar (n mod 10)) acc in
  match fuel with
  | O => acc'
  | S fuel' => if n <? 10 then acc' else digitsOf fuel' (n / 10) acc'
  end.

(** [n.toFixed()] for an integer [n]: all its decimal digits, which is
    JavaScript's result below 10^21 (from there on JavaScript prints the
    exponent notation). *)
Definition toFixed (n : Z) : string :=
  if n <? 0 then String "-" (digitsOf (Z.to_nat (Z.log2 (- n))) (- n) "")
  else digitsOf (Z.to_nat (Z.log2 n)) n "".

(** [n.toString()] for an integer [n]: the same digits. *)
Definition toString (n : Z) : string := toFixed n.

(** [s.split(" ")]: the pieces between the occurrences of a space. *)
Fixpoint splitSpace (s : string) : list string :=
  match s with
  | EmptyString => [""]
  | String c r =>
      if Ascii.eqb c " " then "" :: splitSpace r
      else match splitSpace r with
           | h :: t => String c h :: t
           | [] => [String c ""]
           end
  end.

(** [s.split(" ", limit)]. *)
Definition split (s : string) (limit : nat) : list string :=
  take limit (splitSpace s).

(** [/^\d+$/.test(s)]. *)
Fixpoint allDigits (s : string) : bool :=
  match s with
  | EmptyString => true
  | String c r => bool_decide (is_Some (digitOf 10 c)) && allDigits r
  end.

Definition isDecimal (s : string) : bool :=
  match s with EmptyString => false | _ => allDigits s end.

End JS.

(** ** Balance repository ([src/domain/balances.ts])

    Two Mongo collections: [SteemBalanceAddresses] (the watched addresses,
    keyed by the address) and [SteemBalances] (the signed entries, keyed
    by the composite id).  A document has the fields some write gave it:
    [upsert] sets all but [IsCancelled], [update] sets [IsCancelled] only
    and may create a document that has nothing else.  The balance
    collection is the documents by [_id] ([balanceDocs]) and the order in
    which they were inserted ([balanceOrder]): an aggregation reads the
    collection in that order, which the sums of binary64 amounts and the
    order of the groups depend on. *)

Record BalanceDoc := mkBalanceDoc {
  Address : option string;
  AssetId : option string;
  OperationOrTxId : option string;
  Amount : option float;
  AmountInBaseUnit : option float;
  Block : option Z;
  IsObservable : option bool;
  IsCancelled : option bool
}.

Definition emptyDoc : BalanceDoc :=
  mkBalanceDoc None None None None None None None None.

Record BalanceDb := mkBalanceDb {
  balanceAddresses : gset string;
  balanceDocs : gmap string BalanceDoc;
  balanceOrder : list string
}.

(** A group of the aggregation pipeline: [_id] is the grouping key. *)
Record BalanceEntity := mkBalanceEntity {
  entityId : option string * option string;
  entityAmount : float;
  entityAmountInBaseUnit : float;
  entityBlock : option Z
}.

Record MongoQueryResult := mkMongoQueryResult {
  items : list BalanceEntity;
  continuation : option string
}.

(** [updateOne({ _id: id }, { $set: ... }, { upsert: true })]: the fields
    are set on the document that has this id, or on a new one. *)
Definition updateOne (id : string) (set : BalanceDoc -> BalanceDoc)
    (docs : gmap string BalanceDoc) : gmap string BalanceDoc :=
  partial_alter (fun o => Some (set (default emptyDoc o))) id docs.

(** [updateMany({ Address: { $eq: address } }, { $set: ... })]. *)
Definition updateMany (address : string) (set : BalanceDoc -> BalanceDoc)
    (docs : gmap string BalanceDoc) : gmap string BalanceDoc :=
  (fun d => if bool_decide (Address d = Some address) then set d else d) <$> docs.

(** The ids of the collection after [updateOne] with [{ upsert: true }]:
    a document that is updated keeps its place, a document that is
    inserted goes to the end. *)
Definition upsertedOrder (id : string) (docs : gmap string BalanceDoc)
    (order : list string) : list string :=
  match docs !! id with
  | Some _ => order
  | None => order ++ [id]
  end.

Definition setObservable (b : bool) (d : BalanceDoc) : BalanceDoc :=
  mkBalanceDoc (Address d) (AssetId d) (OperationOrTxId d) (Amount d)
    (AmountInBaseUnit d) (Block d) (Some b) (IsCancelled d).

Definition setCancelled (b : bool) (d : BalanceDoc) : BalanceDoc :=
  mkBalanceDoc (Address d) (AssetId d) (OperationOrTxId d) (Amount d)
    (AmountInBaseUnit d) (Block d) (IsObservable d) (Some b).

Definition setEntry (address assetId operationOrTxId : string)
    (amount amountInBaseUnit : float) (block : Z) (isObservable : bool)
    (d : BalanceDoc) : BalanceDoc :=
  mkBalanceDoc (Some address) (Some assetId) (Some operationOrTxId)
    (Some amount) (Some amountInBaseUnit) (Some block) (Some isObservable)
    (IsCancelled d).

(** [`${address}_${assetId}_${operationOrTxId}`] *)
Definition balanceId (address assetId operationOrTxId : string) : string :=
  address +:+ "_" +:+ assetId +:+ "_" +:+ operationOrTxId.

Module BalanceRepository.

Definition observe (address : string) (db : BalanceDb) : BalanceDb :=
  mkBalanceDb ({[ address ]} ∪ balanceAddresses db)
    (updateMany address (setObservable true) (balanceDocs db))
    (balanceOrder db).

Definition isObservable (address : string) (db : BalanceDb) : bool :=
  bool_decide (address ∈ balanceAddresses db).

Definition remove (address : string) (db : BalanceDb) : BalanceDb :=
  mkBalanceDb (balanceAddresses db ∖ {[ address ]})
    (updateMany address (setObservable false) (balanceDocs db))
    (balanceOrder db).

Definition upsert (address assetId operationOrTxId : string)
    (amount amountInBaseUnit : float) (block : Z) (db : BalanceDb) : BalanceDb :=
  let id := balanceId address assetId operationOrTxId in
  let isObservable := isObservable address db in
  mkBalanceDb (balanceAddresses db)
    (updateOne id
       (setEntry address assetId operationOrTxId amount amountInBaseUnit
          block isObservable)
       (balanceDocs db))
    (upsertedOrder id (balanceDocs db) (balanceOrder db)).

Definition update (address assetId operationOrTxId : string)
    (isCancelled : bool) (db : BalanceDb) : BalanceDb :=
  let id := balanceId address assetId operationOrTxId in
  mkBalanceDb (balanceAddresses db)
    (updateOne id (setCancelled isCancelled) (balanceDocs db))
    (upsertedOrder id (balanceDocs db) (balanceOrder db)).

(** [$group] accumulators: [$sum] skips a missing field, [$max] too. *)
Definition plus (acc : float) (x : option float) : float :=
  match x with
  | Some v => PrimFloat.add acc v
  | None => acc
  end.

Definition maxBlock (acc x : option Z) : option Z :=
  match acc, x with
  | Some a, Some b => Some (Z.max a b)
  | Some a, None => Some a
  | None, o => o
  end.

Definition groupKey (d : BalanceDoc) : option string * option string :=
  (Address d, AssetId d).

Definition accumulate (g : BalanceEntity) (d : BalanceDoc) : BalanceEntity :=
  mkBalanceEntity (entityId g)
    (plus (entityAmount g) (Amount d))
    (plus (entityAmountInBaseUnit g) (AmountInBaseUnit d))
    (maxBlock (entityBlock g) (Block d)).

Definition newGroup (d : BalanceDoc) : BalanceEntity :=
  accumulate (mkBalanceEntity (groupKey d) 0%float 0%float None) d.

(** Adds a document to its group, or opens a group for it at the end. *)
Fixpoint groupAdd (d : BalanceDoc) (gs : list BalanceEntity) : list BalanceEntity :=
  match gs with
  | [] => [newGroup d]
  | g :: gs' =>
      if bool_decide (entityId g = groupKey d) then accumulate g d :: gs'
      else g :: groupAdd d gs'
  end.

(** [$group: { _id: { Address, AssetId }, Amount: { $sum }, ... }] *)
Definition group (docs : list BalanceDoc) : list BalanceEntity :=
  fold_left (fun gs d => groupAdd d gs) docs [].

(** [IsCancelled: { $ne: true }] *)
Definition notCancelled (d : BalanceDoc) : bool :=
  negb (bool_decide (IsCancelled d = Some true)).

(** The documents of the collection in the order a pipeline reads them:
    the order in which they were inserted, which [balanceOrder] records.
    (A document whose id [balanceOrder] does not list -- the repository
    leaves none -- is read after the listed ones.) *)
Definition collection (db : BalanceDb) : list BalanceDoc :=
  omap (fun id => balanceDocs db !! id) (balanceOrder db)
  ++ (snd <$> List.filter
                (fun e => negb (bool_decide (fst e ∈ balanceOrder db)))
                (map_to_list (balanceDocs db))).

(** [$match] over the collection, in the collection's order. *)
Definition aggregateMatch (p : BalanceDoc -> bool) (db : BalanceDb) : list BalanceDoc :=
  List.filter p (collection db).

(** [get(address, assetId)]: [.next()] is the first group, or [null]. *)
Definition get (address assetId : string) (db : BalanceDb) : option BalanceEntity :=
  head (group (aggregateMatch
    (fun d => bool_decide (Address d = Some address)
              && bool_decide (AssetId d = Some assetId)
              && notCancelled d) db)).

(** The groups the paginated read ranges over. *)
Definition observableGroups (db : BalanceDb) : list BalanceEntity :=
  group (aggregateMatch
    (fun d => notCancelled d && bool_decide (IsObservable d = Some true)) db).

(** [get(take, continuation)].  The database refuses a negative [$skip]
    and a [$limit] that is not positive: the call fails ([None]). *)
Definition getPage (take : Z) (continuation : option string) (db : BalanceDb)
    : option MongoQueryResult :=
  let skip := default 0 (JS.parseInt continuation) in
  if bool_decide (0 ≤ skip ∧ 0 < take) then
    let entities :=
      List.firstn (Z.to_nat take) (List.skipn (Z.to_nat skip) (observableGroups db)) in
    Some (mkMongoQueryResult entities
            (if Z.of_nat (length entities) <? take then None
             else Some (JS.toFixed (skip + take))))
  else None.


End BalanceRepository.

(** A reader of the whole ledger: it requests pages of [take] entries,
    each with the token the page before returned, until a page comes with
    no token; [fuel] bounds the number of requests. *)
Fixpoint readAllPages (fuel : nat) (take : Z) (token : option string)
    (db : BalanceDb) : option (list MongoQueryResult) :=
  match fuel with
  | O => None
  | S fuel' =>
      match BalanceRepository.getPage take token db with
      | None => None
      | Some page =>
          match continuation page with
          | None => Some [page]
          | Some next => cons page <$> readAllPages fuel' take (Some next) db
          end
      end
  end.

(** ** Parameter store ([src/domain/params.ts])

    The Azure table [SteemParams] holds one row (partition ["Params"],
    row key [""]): the table is that row, if it was ever written. *)

Record ParamsEntity := mkParamsEntity {
  NextActionSequence : option Z;
  LastProcessedIrreversibleBlockTime : option JS.Date
}.

(** Modelled from the spec: [AzureRepository.insertOrMerge]
    ([src/domain/azure.ts] is not among the sources).  The checkpoint is a
    singleton row of two fields (§3), written as [{ nextActionSequence }]
    after an action (§4.1) and as the watermark after a sweep (§4.4): a
    write inserts the row when there is none, and otherwise merges the
    properties the entity defines into the stored row; a property left
    [undefined] is not sent, so the stored one stays. *)
Definition insertOrMerge (entity : ParamsEntity) (row : option ParamsEntity)
    : option ParamsEntity :=
  match row with
  | None => Some entity
  | Some old =>
      Some (mkParamsEntity
              (match NextActionSequence entity with
               | Some n => Some n
               | None => NextActionSequence old
               end)
              (match LastProcessedIrreversibleBlockTime entity with
               | Some t => Some t
               | None => LastProcessedIrreversibleBlockTime old
               end))
  end.

(** [(params && params.NextActionSequence) || 0] *)
Definition nextActionSequenceOf (params : option ParamsEntity) : Z :=
  match params with
  | Some p => default 0 (NextActionSequence p)
  | None => 0
  end.

(** [(params && params.LastProcessedIrreversibleBlockTime) || new Date(0)] *)
Definition lastProcessedOf (params : option ParamsEntity) : JS.Date :=
  match params with
  | Some p => default 0 (LastProcessedIrreversibleBlockTime p)
  | None => 0
  end.

(** ** Operations, history and assets

    [src/domain/operations.ts], [history.ts] and [assets.ts] are not among
    the sources; the scanner's calls on them are, and give the names of
    the fields and of the methods. *)

(** Modelled from the spec: the error code of an expired operation, "a
    dedicated error code meaning should be retried by the upstream
    initiator" (§7); the scanner names it [buildingShouldBeRepeated]. *)
Inductive ErrorCode := buildingShouldBeRepeated.

(** Modelled from the spec: a planned OperationAction (§3),
    [{ fromAddress, toAddress, amount, amountInBaseUnit, rowKey }]
    ([Amount] and [AmountInBaseUnit] in the scanner). *)
Record OperationActionEntity := mkOperationAction {
  FromAddress : string;
  ToAddress : string;
  ActionAmount : float;
  ActionAmountInBaseUnit : float;
  RowKey : string
}.

(** Modelled from the spec: an Operation (§3), with its asset, its
    completion and fail times, the block and block time recorded at
    completion and the error recorded at failure.  Its [OperationId] is
    the key it is stored under. *)
Record OperationEntity := mkOperation {
  OperationAssetId : string;
  CompletionTime : option JS.Date;
  FailTime : option JS.Date;
  OperationBlockTime : option JS.Date;
  OperationBlock : option Z;
  OperationErrorCode : option ErrorCode;
  OperationError : option string
}.

(** The object literal handed to [OperationRepository.update]. *)
Record OperationUpdate := mkOperationUpdate {
  completionTime : option JS.Date;
  blockTime : option JS.Date;
  block : option Z;
  errorCode : option ErrorCode;
  error : option string;
  failTime : option JS.Date
}.

(** Modelled from the spec: [OperationEntity.isCompleted].  §3: an
    Operation is pending, completed or failed, with a [completionTime] and
    a [failTime]; it is completed once a completion time is recorded. *)
Definition isCompleted (o : OperationEntity) : bool :=
  bool_decide (is_Some (CompletionTime o)).

(** Modelled from the spec: [OperationEntity.isFailed] (§3): failed once
    a fail time is recorded. *)
Definition isFailed (o : OperationEntity) : bool :=
  bool_decide (is_Some (FailTime o)).

(** A field after a merge: the new value if there is one. *)
Definition orElse {A} (new old : option A) : option A :=
  match new with
  | Some x => Some x
  | None => old
  end.

(** Modelled from the spec: [OperationRepository.update].  §3, §4.2,
    §4.4: the core transitions a stored Operation to completed, "recording
    block and block-time", or to failed "with an expiry error code and
    timestamp": the fields given are recorded on the Operation that has
    this id, the others are kept. *)
Definition mergeOperation (u : OperationUpdate) (o : OperationEntity) : OperationEntity :=
  mkOperation (OperationAssetId o)
    (orElse (completionTime u) (CompletionTime o))
    (orElse (failTime u) (FailTime o))
    (orElse (blockTime u) (OperationBlockTime o))
    (orElse (block u) (OperationBlock o))
    (orElse (errorCode u) (OperationErrorCode o))
    (orElse (error u) (OperationError o)).

(** Modelled from the spec: a HistoryEntry (§3),
    [{ fromAddress, toAddress, assetId, amount, amountInBaseUnit, block,
    blockTime, txId, actionId, operationId }]. *)
Record HistoryEntity := mkHistory {
  HistoryFrom : string;
  HistoryTo : string;
  HistoryAssetId : string;
  HistoryAmount : float;
  HistoryAmountInBaseUnit : float;
  HistoryBlock : Z;
  HistoryBlockTime : JS.Date;
  HistoryTxId : string;
  HistoryActionId : string;
  HistoryOperationId : option string
}.

(** Modelled from the spec: [AssetEntity].  §2, §6:
    [resolve(symbol) -> { assetId, toBaseUnit(value) }], an asset has "an
    internal asset identifier and its base-unit conversion factor". *)
Record AssetEntity := mkAsset {
  AssetEntityId : string;
  BaseUnitFactor : float
}.

(** Modelled from the spec: [AssetEntity.toBaseUnit], the value times the
    base-unit conversion factor (§2, §8: 10.5 at factor 1000 is 10500). *)
Definition toBaseUnit (asset : AssetEntity) (value : float) : float :=
  PrimFloat.mul value (BaseUnitFactor asset).

(** ** The chain client *)

Record Transfer := mkTransfer {
  from : string;
  to : string;
  amount : string;
  memo : string
}.

(** An entry of the account history: [op] is the pair of the operation's
    name and its payload, of which the code reads the transfer's fields. *)
Record Action := mkAction {
  action_block : Z;
  timestamp : string;
  trx_id : string;
  op : string * option Transfer
}.

Record BlockHeader := mkBlockHeader { block_timestamp : string }.

(** ** The stores and the calls *)

Record Stores := mkStores {
  params : option ParamsEntity;
  balances : BalanceDb;
  history : gmap (string * string) HistoryEntity;
  operations : gmap string OperationEntity;
  operationActions : gmap string (list OperationActionEntity);
  operationsByTxId : gmap string string;
  assets : gmap string AssetEntity
}.

Inductive LogLevel := info | warning | error_level.

(** What the scanner asks of its collaborators, in order.  A log line is
    recorded with its level and message, without its context; the
    collaborators answer every call (a failure of the network or of a
    store is not modelled). *)
Inductive Call :=
| ParamsGet
| ParamsUpsert (nextActionSequence : option Z)
    (lastProcessedIrreversibleBlockTime : option JS.Date)
| GetDynamicGlobalProperties
| GetAccountHistory (account : string) (start limit : Z)
| GetBlock (blockNumber : Z)
| LogWrite (level : LogLevel) (message : string)
| GetOperationIdByTxId (txId : string)
| GetActions (operationId : string)
| OperationGet (operationId : string)
| OperationUpdateCall (operationId : string) (u : OperationUpdate)
| GeOperationIdByExpiryTime (since until : JS.Date)
| AssetGet (name : option string)
| HistoryUpsert (entry : HistoryEntity)
| BalanceUpsert (address assetId operationOrTxId : string)
    (amount amountInBaseUnit : float) (block : Z).

Record World := mkWorld {
  stores : Stores;
  trace : list Call
}.

(** How a call ends: with a value, with an exception, or not within the
    iterations allowed to the loop. *)
Inductive Outcome (A : Type) :=
| Ok (a : A)
| Throw (e : string)
| OutOfFuel.
Arguments Ok {A} a.
Arguments Throw {A} e.
Arguments OutOfFuel {A}.

Definition M (A : Type) : Type := World -> Outcome A * World.

#[global] Instance M_ret : MRet M := fun A a w => (Ok a, w).

#[global] Instance M_bind : MBind M := fun A B f m w =>
  match m w with
  | (Ok a, w') => f a w'
  | (Throw e, w') => (Throw e, w')
  | (OutOfFuel, w') => (OutOfFuel, w')
  end.

Definition throw {A} (e : string) : M A := fun w => (Throw e, w).

Definition outOfFuel {A} : M A := fun w => (OutOfFuel, w).

(** A call on a collaborator: recorded, answered from the stores, and
    the stores updated. *)
Definition call {A} (c : Call) (answer : Stores -> A) (write : Stores -> Stores) : M A :=
  fun w => (Ok (answer (stores w)), mkWorld (write (stores w)) (trace w ++ [c])).

(** [for (const x of l) { await f(x) }] *)
Fixpoint forEach {A} (l : list A) (f : A -> M unit) : M unit :=
  match l with
  | [] => mret tt
  | x :: l' => f x ;; forEach l' f
  end.

Definition withParams (p : option ParamsEntity) (s : Stores) : Stores :=
  mkStores p (balances s) (history s) (operations s) (operationActions s)
    (operationsByTxId s) (assets s).

Definition withBalances (b : BalanceDb) (s : Stores) : Stores :=
  mkStores (params s) b (history s) (operations s) (operationActions s)
    (operationsByTxId s) (assets s).

Definition withHistory (h : gmap (string * string) HistoryEntity) (s : Stores) : Stores :=
  mkStores (params s) (balances s) h (operations s) (operationActions s)
    (operationsByTxId s) (assets s).

Definition withOperations (o : gmap string OperationEntity) (s : Stores) : Stores :=
  mkStores (params s) (balances s) (history s) o (operationActions s)
    (operationsByTxId s) (assets s).

(** A string that is neither [undefined] nor empty. *)
Definition truthy (s : option string) : option string :=
  match s with
  | Some "" | None => None
  | Some v => Some v
  end.

(** ** The repositories, as the scanner calls them *)

Module ParamsRepository.

(** [select(ParamsEntity, tableName, partitionKey, rowKey)] *)
Definition get : M (option ParamsEntity) :=
  call ParamsGet params id.

Definition upsert (nextActionSequence : option Z)
    (lastProcessedIrreversibleBlockTime : option JS.Date) : M unit :=
  let entity := mkParamsEntity nextActionSequence lastProcessedIrreversibleBlockTime in
  call (ParamsUpsert nextActionSequence lastProcessedIrreversibleBlockTime)
    (fun _ => tt)
    (fun s => withParams (insertOrMerge entity (params s)) s).

End ParamsRepository.

Definition balanceRepository_upsert (address assetId operationOrTxId : string)
    (amount amountInBaseUnit : float) (block : Z) : M unit :=
  call (BalanceUpsert address assetId operationOrTxId amount amountInBaseUnit block)
    (fun _ => tt)
    (fun s => withBalances
       (BalanceRepository.upsert address assetId operationOrTxId amount
          amountInBaseUnit block (balances s)) s).

(** Modelled from the spec: [HistoryRepository.upsert]
    ([src/domain/history.ts] is not among the sources).  §3, §4.3: "a pure
    overwrite-or-insert keyed by (txId, actionId)". *)
Definition historyRepository_upsert (from to assetId : string)
    (amount amountInBaseUnit : float) (block : Z) (blockTime : JS.Date)
    (txId actionId : string) (operationId : option string) : M unit :=
  let entry := mkHistory from to assetId amount amountInBaseUnit block blockTime
                 txId actionId operationId in
  call (HistoryUpsert entry) (fun _ => tt)
    (fun s => withHistory (<[(txId, actionId) := entry]> (history s)) s).

(** Modelled from the spec: [OperationRepository.getOperationIdByTxId].
    §4.2: "look up the Operation by the on-chain transaction id". *)
Definition operationRepository_getOperationIdByTxId (txId : string) : M (option string) :=
  call (GetOperationIdByTxId txId) (fun s => operationsByTxId s !! txId) id.

(** Modelled from the spec: [OperationRepository.getActions].  §4.2:
    "every planned OperationAction attached to that Operation". *)
Definition operationRepository_getActions (operationId : string)
    : M (list OperationActionEntity) :=
  call (GetActions operationId)
    (fun s => default [] (operationActions s !! operationId)) id.

(** Modelled from the spec: [OperationRepository.get], the Operation
    stored under the id, if there is one. *)
Definition operationRepository_get (operationId : string) : M (option OperationEntity) :=
  call (OperationGet operationId) (fun s => operations s !! operationId) id.

(** Modelled from the spec: [OperationRepository.update], the
    transition of the stored Operation (see [mergeOperation]). *)
Definition operationRepository_update (operationId : string) (u : OperationUpdate) : M unit :=
  call (OperationUpdateCall operationId u) (fun _ => tt)
    (fun s => withOperations (alter (mergeOperation u) operationId (operations s)) s).

(** Modelled from the spec: the Asset Directory (§2), a "read-only
    lookup from a chain-native asset symbol"; no symbol, no asset. *)
Definition lookupAsset (s : Stores) (name : option string) : option AssetEntity :=
  match name with
  | Some n => assets s !! n
  | None => None
  end.

(** Modelled from the spec: [AssetRepository.get], the lookup. *)
Definition assetRepository_get (name : option string) : M (option AssetEntity) :=
  call (AssetGet name) (fun s => lookupAsset s name) id.

Definition log (level : LogLevel) (message : string) : M unit :=
  call (LogWrite level message) (fun _ => tt) id.

(** ** What a movement writes

    The calls and the stores of a debit and credit pair, of the replay of
    a planned action, and of the checkpoint's advance: the terms in which
    the scanner's effects are stated. *)

Definition movementCalls (sender recipient assetId key : string)
    (value valueInBaseUnit : float) (block : Z) : list Call :=
  [ BalanceUpsert sender assetId key (PrimFloat.opp value)
      (PrimFloat.opp valueInBaseUnit) block;
    LogWrite info "Balance change recorded";
    BalanceUpsert recipient assetId key value valueInBaseUnit block;
    LogWrite info "Balance change recorded" ].

Definition movementBalances (sender recipient assetId key : string)
    (value valueInBaseUnit : float) (block : Z) (b : BalanceDb) : BalanceDb :=
  BalanceRepository.upsert recipient assetId key value valueInBaseUnit block
    (BalanceRepository.upsert sender assetId key (PrimFloat.opp value)
       (PrimFloat.opp valueInBaseUnit) block b).

Definition replayEntry (assetId operationId txId : string) (block : Z)
    (blockTime : JS.Date) (a : OperationActionEntity) : HistoryEntity :=
  mkHistory (FromAddress a) (ToAddress a) assetId (ActionAmount a)
    (ActionAmountInBaseUnit a) block blockTime txId (RowKey a) (Some operationId).

Definition replayCalls (assetId operationId txId : string) (block : Z)
    (blockTime : JS.Date) (a : OperationActionEntity) : list Call :=
  movementCalls (FromAddress a) (ToAddress a) assetId operationId (ActionAmount a)
    (ActionAmountInBaseUnit a) block
  ++ [ HistoryUpsert (replayEntry assetId operationId txId block blockTime a) ].

Definition replayStores (assetId operationId txId : string) (block : Z)
    (blockTime : JS.Date) (s : Stores) (a : OperationActionEntity) : Stores :=
  withHistory
    (<[(txId, RowKey a) := replayEntry assetId operationId txId block blockTime a]>
       (history s))
    (withBalances
       (movementBalances (FromAddress a) (ToAddress a) assetId operationId
          (ActionAmount a) (ActionAmountInBaseUnit a) block (balances s)) s).

(** The two fields of the stored checkpoint. *)
Definition storedSequence (s : Stores) : option Z :=
  match params s with
  | Some p => NextActionSequence p
  | None => None
  end.

Definition storedWatermark (s : Stores) : option JS.Date :=
  match params s with
  | Some p => LastProcessedIrreversibleBlockTime p
  | None => None
  end.

(** The stores once the checkpoint has moved past the action at [seq]. *)
Definition advanced (seq : Z) (s : Stores) : Stores :=
  withParams (insertOrMerge (mkParamsEntity (Some (seq + 1)) None) (params s)) s.

(** The block a ledger write records. *)
Definition blockOfWrite (c : Call) : option Z :=
  match c with
  | BalanceUpsert _ _ _ _ _ b => Some b
  | HistoryUpsert e => Some (HistoryBlock e)
  | _ => None
  end.

(** Every entry of the balance and history ledgers of [s'] is an entry of
    [s] or records the block [b]. *)
Definition recorded (b : Z) (s s' : Stores) : Prop :=
  (forall id d, balanceDocs (balances s') !! id = Some d ->
                balanceDocs (balances s) !! id = Some d \/ Block d = Some b)
  /\ (forall k e, history s' !! k = Some e ->
                  history s !! k = Some e \/ HistoryBlock e = b).

(** A call made between the log line of an action and its checkpoint,
    for an action whose tenfold block number is [b]: no call on the chain,
    none on the checkpoint, and every write records [b]. *)
Definition bodyCall (b : Z) (c : Call) : Prop :=
  match c with
  | ParamsGet | ParamsUpsert _ _ | GetDynamicGlobalProperties
  | GetAccountHistory _ _ _ | GetBlock _ | GeOperationIdByExpiryTime _ _ => False
  | BalanceUpsert _ _ _ _ _ b' => b' = b
  | HistoryUpsert e => HistoryBlock e = b
  | OperationUpdateCall _ u => block u = Some b /\ is_Some (completionTime u)
  | _ => True
  end.

(** Every fetch of the account history in [calls] comes right after the
    checkpoint was persisted with the sequence it fetches; [previous] is
    the call before [calls]. *)
Fixpoint persistedBeforeFetch (previous : Call) (calls : list Call) : bool :=
  match calls with
  | [] => true
  | c :: rest =>
      match c with
      | GetAccountHistory _ s _ =>
          match previous with
          | ParamsUpsert (Some n) None => n =? s
          | _ => false
          end
      | _ => true
      end && persistedBeforeFetch c rest
  end.

(** The updates made on the operation [operationId] by [calls]. *)
Definition updatesOf (operationId : string) (calls : list Call) : list OperationUpdate :=
  omap (fun c => match c with
                 | OperationUpdateCall id u =>
                     if bool_decide (id = operationId) then Some u else None
                 | _ => None
                 end) calls.

(** The calls of the sweep's loop. *)
Definition isSweepCall (c : Call) : bool :=
  match c with
  | OperationGet _ | LogWrite _ _ | OperationUpdateCall _ _ => true
  | _ => false
  end.

(** A call that, if it writes the checkpoint, sets the sequence only
    ([sequenceOnly]) or the watermark only. *)
Definition checkpointCall (sequenceOnly : bool) (c : Call) : Prop :=
  match c with
  | ParamsUpsert n t =>
      if sequenceOnly then is_Some n /\ t = None else n = None /\ is_Some t
  | _ => True
  end.

(** The two calls that open a tick of [handleActions]. *)
Definition isPrelude (c : Call) : bool :=
  match c with
  | ParamsGet | GetDynamicGlobalProperties => true
  | _ => false
  end.

(** ** The chain scanner ([src/services/steemService.ts]) *)

Section SteemService.

(** The hot wallet's account (a setting) and the helpers of
    [src/common.ts], which is not among the sources: the scanner is
    stated for any separator, any address rule and any reading of
    timestamps. *)
Variable HotWalletAccount : string.
Variable ADDRESS_SEPARATOR : string.
Variable isSteemAddress : string -> bool.
Variable isoUTC : string -> JS.Date.

(** [parseFloat], and the clock read by [new Date()] (a function of the
    number of calls made so far). *)
Variable parseFloat : option string -> float.
Variable clock : nat -> JS.Date.

(** The chain endpoint, as it answers during one tick. *)
Variable last_irreversible_block_num : Z.
Variable getAccountHistoryAsync : string -> Z -> Z -> option (list (Z * Action)).
Variable getBlockAsync : Z -> option BlockHeader.

(** [OperationRepository.geOperationIdByExpiryTime], not among the
    sources: any answer the operations table may give for a range of
    expiry times. *)
Variable geOperationIdByExpiryTime :
  gmap string OperationEntity -> JS.Date -> JS.Date -> list string.

Definition newDate : M JS.Date :=
  fun w => (Ok (clock (length (trace w))), w).

Definition steem_getDynamicGlobalPropertiesAsync : M Z :=
  call GetDynamicGlobalProperties (fun _ => last_irreversible_block_num) id.

Definition steem_getAccountHistoryAsync (account : string) (start limit : Z)
    : M (option (list (Z * Action))) :=
  call (GetAccountHistory account start limit)
    (fun _ => getAccountHistoryAsync account start limit) id.

Definition steem_getBlockAsync (blockNumber : Z) : M (option BlockHeader) :=
  call (GetBlock blockNumber) (fun _ => getBlockAsync blockNumber) id.

Definition operationRepository_geOperationIdByExpiryTime (since until : JS.Date)
    : M (list string) :=
  call (GeOperationIdByExpiryTime since until)
    (fun s => geOperationIdByExpiryTime (operations s) since until) id.

(** [!!accHistory && !!accHistory.length && accHistory[0][0] ==
    nextActionSequence && accHistory[0][1]] *)
Definition actionOf (accHistory : option (list (Z * Action))) (nextActionSequence : Z)
    : option Action :=
  match accHistory with
  | Some ((i, a) :: _) => if i =? nextActionSequence then Some a else None
  | _ => None
  end.

(** The action the loop processes at a sequence: the one the endpoint has
    there, if its block is irreversible. *)
Definition irreversibleAt (lastIrreversible seq : Z) : option Action :=
  match actionOf (getAccountHistoryAsync HotWalletAccount seq 0) seq with
  | Some action =>
      if action_block action <=? lastIrreversible then Some action else None
  | None => None
  end.

(** [action.op[0] == "transfer" && action.op[1]] *)
Definition transferOf (action : Action) : option Transfer :=
  if String.eqb (fst (op action)) "transfer" then snd (op action) else None.

(** The two balance changes of a movement: address, affix, affix in base
    units. *)
Definition balanceChanges (sender recipient : string) (value valueInBaseUnit : float)
    : list (string * float * float) :=
  [ (sender, PrimFloat.opp value, PrimFloat.opp valueInBaseUnit);
    (recipient, value, valueInBaseUnit) ].

Definition recordBalanceChanges (changes : list (string * float * float))
    (assetId operationOrTxId : string) (block : Z) : M unit :=
  forEach changes (fun '(address, affix, affixInBaseUnit) =>
    balanceRepository_upsert address assetId operationOrTxId affix affixInBaseUnit block ;;
    log info "Balance change recorded").

(** Lines 63-90: the transaction is one of our operations. *)
Definition handleInternal (operationId txId : string) (block : Z) (blockTime : JS.Date)
    : M unit :=
  operationActions ← operationRepository_getActions operationId;
  operation ← operationRepository_get operationId;
  match operation with
  | None => throw "TypeError: Cannot read property 'isCompleted' of undefined"
  | Some operation =>
      if negb (isCompleted operation) then
        forEach operationActions (fun action =>
          recordBalanceChanges
            (balanceChanges (FromAddress action) (ToAddress action)
               (ActionAmount action) (ActionAmountInBaseUnit action))
            (OperationAssetId operation) operationId block ;;
          historyRepository_upsert (FromAddress action) (ToAddress action)
            (OperationAssetId operation) (ActionAmount action)
            (ActionAmountInBaseUnit action) block blockTime txId (RowKey action)
            (Some operationId)) ;;
        now ← newDate;
        operationRepository_update operationId
          (mkOperationUpdate (Some now) (Some blockTime) (Some block) None None None)
      else mret tt
  end.

(** [!!transfer.memo ? transfer.to + ADDRESS_SEPARATOR + transfer.memo :
    transfer.to] *)
Definition destinationOf (transfer : Transfer) : string :=
  if bool_decide (memo transfer = "") then to transfer
  else to transfer +:+ ADDRESS_SEPARATOR +:+ memo transfer.

(** The asset named by the second part of the transfer's amount. *)
Definition assetOf (s : Stores) (transfer : Transfer) : option AssetEntity :=
  lookupAsset s (JS.split (amount transfer) 2 !! 1%nat).

(** The calls that write to the balance or to the history ledger. *)
Definition isLedgerWrite (c : Call) : bool :=
  match c with
  | BalanceUpsert _ _ _ _ _ _ | HistoryUpsert _ => true
  | _ => false
  end.

(** The calls that write to a store. *)
Definition isWrite (c : Call) : bool :=
  match c with
  | BalanceUpsert _ _ _ _ _ _ | HistoryUpsert _
  | OperationUpdateCall _ _ | ParamsUpsert _ _ => true
  | _ => false
  end.


(** Lines 93-130: an external transaction; [operationId] is the falsy
    answer of the lookup. *)
Definition handleExternal (transfer : Transfer) (operationId : option string)
    (txId actionId : string) (block : Z) (blockTime : JS.Date) : M unit :=
  let parts := JS.split (amount transfer) 2 in
  let value := parseFloat (parts !! 0%nat) in
  asset ← assetRepository_get (parts !! 1%nat);
  match asset with
  | Some asset =>
      let assetId := AssetEntityId asset in
      let valueInBaseUnit := toBaseUnit asset value in
      let to := destinationOf transfer in
      if isSteemAddress to then
        historyRepository_upsert (from transfer) to assetId value valueInBaseUnit
          block blockTime txId actionId operationId ;;
        log info "Transfer recorded" ;;
        recordBalanceChanges
          (balanceChanges (from transfer) to value valueInBaseUnit)
          assetId txId block
      else log warning "Invalid destination address"
  | None => log warning "Not tracked token"
  end.

(** Lines 59-132: the classification of a transfer by its transaction
    id, and its application. *)
Definition applyTransfer (transfer : option Transfer) (txId actionId : string)
    (block : Z) (blockTime : JS.Date) : M unit :=
  match transfer with
  | Some transfer =>
      operationId ← operationRepository_getOperationIdByTxId txId;
      match truthy operationId with
      | Some operationId => handleInternal operationId txId block blockTime
      | None => handleExternal transfer operationId txId actionId block blockTime
      end
  | None => mret tt
  end.

(** Lines 45-140: the body of the loop for an irreversible action; the
    result is the incremented [nextActionSequence]. *)
Definition handleAction (nextActionSequence : Z) (action : Action) : M Z :=
  let transfer := transferOf action in
  let block := action_block action * 10 in
  let blockTime := isoUTC (timestamp action) in
  let txId := trx_id action in
  let actionId := JS.toString nextActionSequence in
  log info (fst (op action) +:+ " action "
            +:+ match transfer with Some _ => "detected" | None => "skipped" end) ;;
  applyTransfer transfer txId actionId block blockTime ;;
  let nextActionSequence := nextActionSequence + 1 in
  ParamsRepository.upsert (Some nextActionSequence) None ;;
  mret nextActionSequence.

(** Lines 39-144: [while (true)], for at most [fuel] iterations. *)
Fixpoint handleActions_loop (fuel : nat) (lastIrreversible : Z) (nextActionSequence : Z)
    : M unit :=
  match fuel with
  | O => outOfFuel
  | S fuel' =>
      accHistory ← steem_getAccountHistoryAsync HotWalletAccount nextActionSequence 0;
      match actionOf accHistory nextActionSequence with
      | Some action =>
          if action_block action <=? lastIrreversible then
            next ← handleAction nextActionSequence action;
            handleActions_loop fuel' lastIrreversible next
          else mret tt
      | None => mret tt
      end
  end.

Definition handleActions (fuel : nat) : M Z :=
  params ← ParamsRepository.get;
  lastIrreversible ← steem_getDynamicGlobalPropertiesAsync;
  let nextActionSequence := nextActionSequenceOf params in
  handleActions_loop fuel lastIrreversible nextActionSequence ;;
  mret lastIrreversible.

(** Lines 164-174: the sweep over the presumably expired operations;
    [operation.OperationId] is the id the operation was read with. *)
Definition failExpired (presumablyExpired : list string) : M unit :=
  forEach presumablyExpired (fun operationId =>
    operation ← operationRepository_get operationId;
    match operation with
    | Some operation =>
        if negb (isCompleted operation) && negb (isFailed operation) then
          log warning "Transaction expired" ;;
          now ← newDate;
          operationRepository_update operationId
            (mkOperationUpdate None None None (Some buildingShouldBeRepeated)
               (Some "Transaction expired") (Some now))
        else mret tt
    | None => mret tt
    end).

(** [!!operation && !operation.isCompleted() && !operation.isFailed()],
    for the operation stored under [operationId]. *)
Definition isPending (s : Stores) (operationId : string) : bool :=
  match operations s !! operationId with
  | Some operation => negb (isCompleted operation) && negb (isFailed operation)
  | None => false
  end.

(** The update that fails an expired operation, at time [now]. *)
Definition expiry (now : JS.Date) : OperationUpdate :=
  mkOperationUpdate None None None (Some buildingShouldBeRepeated)
    (Some "Transaction expired") (Some now).

(** The world after the sweep has looked at [operationId]. *)
Definition expireStep (w : World) (operationId : string) : World :=
  if isPending (stores w) operationId then
    let seen := trace w ++ [ OperationGet operationId;
                             LogWrite warning "Transaction expired" ] in
    let u := expiry (clock (length seen)) in
    mkWorld
      (withOperations (alter (mergeOperation u) operationId (operations (stores w)))
         (stores w))
      (seen ++ [OperationUpdateCall operationId u])
  else mkWorld (stores w) (trace w ++ [OperationGet operationId]).

Definition handleExpired (lastActionIrreversibleBlockNumber : Z) : M unit :=
  params ← ParamsRepository.get;
  let lastProcessedIrreversibleBlockTime := lastProcessedOf params in
  lastActionIrreversibleBlock ← steem_getBlockAsync lastActionIrreversibleBlockNumber;
  match lastActionIrreversibleBlock with
  | None => throw "TypeError: Cannot read property 'timestamp' of null"
  | Some lastActionIrreversibleBlock =>
      let lastActionIrreversibleBlockTime :=
        isoUTC (block_timestamp lastActionIrreversibleBlock) in
      presumablyExpired ←
        operationRepository_geOperationIdByExpiryTime
          lastProcessedIrreversibleBlockTime lastActionIrreversibleBlockTime;
      failExpired presumablyExpired ;;
      ParamsRepository.upsert None (Some lastActionIrreversibleBlockTime)
  end.

(** One tick of the job ([src/server.ts], lines 60-67): the error is
    logged and swallowed. *)
Definition tick (fuel : nat) : M unit :=
  fun w =>
    match (n ← handleActions fuel; handleExpired n) w with
    | (Throw e, w') => log error_level e w'
    | r => r
    end.

End SteemService.

(** ** A small instance: an endpoint with three actions *)

Definition demoIsSteemAddress (s : string) : bool :=
  negb (String.eqb s "") && bool_decide (String.length s ≤ 16)%nat.

(** Digits of a decimal literal, as the integer they spell and the number
    of digits after the point. *)
Fixpoint decimalMantissa (s : string) (seenPoint : bool) (m : Z) (k : Z) : Z * Z :=
  match s with
  | EmptyString => (m, k)
  | String c r =>
      match JS.digitOf 10 c with
      | Some d => decimalMantissa r seenPoint (10 * m + d) (if seenPoint then k + 1 else k)
      | None =>
          if Ascii.eqb c "." && negb seenPoint then decimalMantissa r true m k
          else (m, k)
      end
  end.

Definition floatOfZ (n : Z) : float := PrimFloat.of_uint63 (Uint63.of_Z n).

(** [parseFloat] on short unsigned decimal literals (mantissa below 2^53,
    at most 22 decimals), where one correctly rounded division gives the
    nearest double. *)
Definition demoParseFloat (s : option string) : float :=
  match s with
  | None => PrimFloat.nan
  | Some s =>
      match JS.parseDigits 10 s with
      | None => PrimFloat.nan
      | Some _ =>
          let '(m, k) := decimalMantissa s false 0 0 in
          PrimFloat.div (floatOfZ m) (floatOfZ (10 ^ k))
      end
  end.

Definition demoTransfer : Transfer := mkTransfer "A" "B" "10.5 STEEM" "".

Definition demoChain (account : string) (start limit : Z) : option (list (Z * Action)) :=
  if start =? 0 then Some [(0, mkAction 7 "2018-10-01T10:00:00" "T0" ("vote", None))]
  else if start =? 1 then Some [(1, mkAction 8 "2018-10-01T10:00:03" "T1" ("transfer", Some demoTransfer))]
  else if start =? 2 then Some [(2, mkAction 12 "2018-10-01T10:00:15" "T2" ("transfer", Some demoTransfer))]
  else Some [(2, mkAction 12 "2018-10-01T10:00:15" "T2" ("transfer", Some demoTransfer))].

Definition demoStores : Stores :=
  mkStores None (mkBalanceDb ∅ ∅ []) ∅ ∅ ∅ ∅ (<["STEEM" := mkAsset "1" 1000%float]> ∅).

Definition demoWorld : World := mkWorld demoStores [].

Definition demoHandleActions : nat -> M Z :=
  handleActions "hotwallet" "$" demoIsSteemAddress (fun _ => 0) demoParseFloat (fun n => Z.of_nat n)
    10 demoChain.

(** A ledger of two watched addresses with one entry each. *)
Definition demoLedger : BalanceDb :=
  BalanceRepository.upsert "B" "1" "T1" 10.5%float 10500%float 80
    (BalanceRepository.upsert "A" "1" "T1" (-10.5)%float (-10500)%float 80
       (BalanceRepository.observe "B"
          (BalanceRepository.observe "A" (mkBalanceDb ∅ ∅ [])))).

(** An operation of two planned actions, sent in transaction T1. *)
Definition demoPlanned : list OperationActionEntity :=
  [ mkOperationAction "A" "B" 10.5%float 10500%float "0";
    mkOperationAction "A" "C" 2%float 2000%float "1" ].

Definition demoPending : OperationEntity :=
  mkOperation "1" None None None None None None.

Definition demoCompleted : OperationEntity :=
  mkOperation "1" (Some 1538388003000) None (Some 1538388003000) (Some 80) None None.

Definition demoOperationStores (operation : OperationEntity) : Stores :=
  mkStores None (mkBalanceDb ∅ ∅ []) ∅ (<["op1" := operation]> ∅)
    (<["op1" := demoPlanned]> ∅) (<["T1" := "op1"]> ∅)
    (<["STEEM" := mkAsset "1" 1000%float]> ∅).

Definition demoTransferAction : Action :=
  mkAction 8 "2018-10-01T10:00:03" "T1" ("transfer", Some demoTransfer).

Definition demoUntrackedAction : Action :=
  mkAction 8 "2018-10-01T10:00:03" "T3"
    ("transfer", Some (mkTransfer "A" "B" "1.000 SBD" "")).

Definition demoHandleAction : Z -> Action -> M Z :=
  handleAction "$" demoIsSteemAddress (fun _ => 0) demoParseFloat (fun n => Z.of_nat n).


(** A sweep whose range holds the operation op1 and an unknown one. *)
Definition demoHandleExpired : Z -> M unit :=
  handleExpired (fun _ => 1538388060000) (fun n => Z.of_nat n)
    (fun _ => Some (mkBlockHeader "2018-10-01T10:01:00"))
    (fun _ _ _ => ["op1"; "op0"; "op1"]).

(** The binary64 values of 0.1 and 0.4. *)
Definition demoTenth : float := 0x1.999999999999ap-4%float.
Definition demoFourTenths : float := 0x1.999999999999ap-2%float.

(** The operation of transaction T1, failed by a sweep and not completed. *)
Definition demoFailed : OperationEntity :=
  mkOperation "1" None (Some 1538388060000) None None (Some buildingShouldBeRepeated)
    (Some "Transaction expired").

(** ** Further notions

    The terms in which the behaviour of the rest of the code is stated. *)

(** The watch flag stored with every entry of an address is the watch
    state of the address. *)
Definition flagsMirrorWatch (db : BalanceDb) : Prop :=
  forall id d a,
    balanceDocs db !! id = Some d ->
    Address d = Some a ->
    IsObservable d = Some (BalanceRepository.isObservable a db).

(** The [$match] of [get(address, assetId)]. *)
Definition matchesBalance (address assetId : string) (d : BalanceDoc) : bool :=
  bool_decide (Address d = Some address)
  && bool_decide (AssetId d = Some assetId)
  && BalanceRepository.notCancelled d.

(** A collection as the repository builds it from the empty one:
    [balanceOrder] lists the ids of the documents, each once. *)
Definition wellFormed (db : BalanceDb) : Prop :=
  NoDup (balanceOrder db)
  /\ forall id, id ∈ balanceOrder db <-> is_Some (balanceDocs db !! id).


(** The calls made from the world [w] to the world [w']. *)
Definition callsOf (w w' : World) : list Call :=
  drop (length (trace w)) (trace w').

(** The sequences the calls persist in the checkpoint. *)
Definition persistedSequences (calls : list Call) : list Z :=
  omap (fun c => match c with
                 | ParamsUpsert (Some n) _ => Some n
                 | _ => None
                 end) calls.

(** The [k] integers from [start] on. *)
Fixpoint consecutive (start : Z) (k : nat) : list Z :=
  match k with
  | O => []
  | S k' => start :: consecutive (start + 1) k'
  end.

(** A ledger write, on the stores: what [BalanceRepository.upsert] and
    [HistoryRepository.upsert] do for the call; any other call writes
    nothing to the ledgers. *)
Definition applyWrite (s : Stores) (c : Call) : Stores :=
  match c with
  | BalanceUpsert address assetId key amount amountInBaseUnit block =>
      withBalances
        (BalanceRepository.upsert address assetId key amount amountInBaseUnit block
           (balances s)) s
  | HistoryUpsert entry =>
      withHistory (<[(HistoryTxId entry, HistoryActionId entry) := entry]> (history s)) s
  | _ => s
  end.

Definition applyWrites (calls : list Call) (s : Stores) : Stores :=
  foldl applyWrite s calls.

(** The balance id, and the history key, a call writes. *)
Definition balanceIdOf (c : Call) : option string :=
  match c with
  | BalanceUpsert address assetId key _ _ _ => Some (balanceId address assetId key)
  | _ => None
  end.

Definition historyKeyOf (c : Call) : option (string * string) :=
  match c with
  | HistoryUpsert entry => Some (HistoryTxId entry, HistoryActionId entry)
  | _ => None
  end.

(** The cancellation recorded for a balance id ([undefined] if there is no
    entry). *)
Definition cancelledAt (s : Stores) (id : string) : option bool :=
  IsCancelled (default emptyDoc (balanceDocs (balances s) !! id)).

(** Two stores whose ledgers agree, but for the balance ids in [dirty] and
    the history keys in [dirtyKeys]; they have the same watched addresses
    and the same cancellations. *)
Definition ledgersAgree (dirty : string -> Prop) (dirtyKeys : string * string -> Prop)
    (s s' : Stores) : Prop :=
  balanceAddresses (balances s) = balanceAddresses (balances s')
  /\ (forall id, cancelledAt s id = cancelledAt s' id)
  /\ (forall id, ~ dirty id ->
        balanceDocs (balances s) !! id = balanceDocs (balances s') !! id)
  /\ (forall k, ~ dirtyKeys k -> history s !! k = history s' !! k).

(** The calls of the intake: it reads no block, asks for no expiring
    operation and never writes the watermark. *)
Definition intakeCall (c : Call) : Prop :=
  match c with
  | GetBlock _ | GeOperationIdByExpiryTime _ _ | ParamsUpsert _ (Some _) => False
  | _ => True
  end.

(** The calls of the sweep at block [n]: the one block it reads is [n];
    it reads no account history, writes no ledger and no sequence. *)
Definition sweepCall (n : Z) (c : Call) : Prop :=
  match c with
  | GetBlock m => m = n
  | GetDynamicGlobalProperties | GetAccountHistory _ _ _
  | BalanceUpsert _ _ _ _ _ _ | HistoryUpsert _
  | GetOperationIdByTxId _ | GetActions _ | AssetGet _
  | ParamsUpsert (Some _) _ => False
  | _ => True
  end.

(** The ledger writes of the loop's body for the action at [seq], as the
    stores the classification reads determine them: the index of
    transactions, the operations with their planned actions, and the
    directory of assets. *)
Section LedgerWrites.

Variable ADDRESS_SEPARATOR : string.
Variable isSteemAddress : string -> bool.
Variable isoUTC : string -> JS.Date.
Variable parseFloat : option string -> float.

Definition ledgerWritesOf (s : Stores) (seq : Z) (action : Action) : list Call :=
  let txId := trx_id action in
  let b := action_block action * 10 in
  let blockTime := isoUTC (timestamp action) in
  match transferOf action with
  | None => []
  | Some transfer =>
      match truthy (operationsByTxId s !! txId) with
      | Some operationId =>
          match operations s !! operationId with
          | Some operation =>
              if isCompleted operation then []
              else
                concat
                  ((fun a =>
                      List.filter isLedgerWrite
                        (replayCalls (OperationAssetId operation) operationId txId b
                           blockTime a))
                     <$> default [] (operationActions s !! operationId))
          | None => []
          end
      | None =>
          match assetOf s transfer with
          | Some asset =>
              if isSteemAddress (destinationOf ADDRESS_SEPARATOR transfer) then
                let value := parseFloat (JS.split (amount transfer) 2 !! 0%nat) in
                HistoryUpsert
                  (mkHistory (from transfer) (destinationOf ADDRESS_SEPARATOR transfer)
                     (AssetEntityId asset) value (toBaseUnit asset value) b blockTime
                     txId (JS.toString seq) (operationsByTxId s !! txId))
                :: List.filter isLedgerWrite
                     (movementCalls (from transfer)
                        (destinationOf ADDRESS_SEPARATOR transfer) (AssetEntityId asset)
                        txId value (toBaseUnit asset value) b)
              else []
          | None => []
          end
      end
  end.

End LedgerWrites.

(** The [k] actions the endpoint has at the sequences from [seq] on are
    irreversible and the loop's body was run on each, in order, each after
    its fetch and each to its end: this takes the world [w] to [w']. *)
Section Applied.

Variable HotWalletAccount : string.
Variable ADDRESS_SEPARATOR : string.
Variable isSteemAddress : string -> bool.
Variable isoUTC : string -> JS.Date.
Variable parseFloat : option string -> float.
Variable clock : nat -> JS.Date.
Variable getAccountHistoryAsync : string -> Z -> Z -> option (list (Z * Action)).

(** The world once the account history was fetched at [seq]. *)
Definition fetched (w : World) (seq : Z) : World :=
  mkWorld (stores w) (trace w ++ [GetAccountHistory HotWalletAccount seq 0]).

(** The endpoint has the action at [seq], in a block that is not after
    the last irreversible one. *)
Definition answersAt (lastIrreversible seq : Z) (action : Action) : Prop :=
  exists rest,
    getAccountHistoryAsync HotWalletAccount seq 0 = Some ((seq, action) :: rest)
    /\ action_block action <= lastIrreversible.

(** The endpoint has no such action at [seq]: its answer is null or
    empty, or begins with an entry of another index or of a later block. *)
Definition nothingAt (lastIrreversible seq : Z) : Prop :=
  getAccountHistoryAsync HotWalletAccount seq 0 = None
  \/ getAccountHistoryAsync HotWalletAccount seq 0 = Some []
  \/ exists i a rest,
       getAccountHistoryAsync HotWalletAccount seq 0 = Some ((i, a) :: rest)
       /\ (i <> seq \/ lastIrreversible < action_block a).

Fixpoint appliedFrom (lastIrreversible seq : Z) (k : nat) (w w' : World) : Prop :=
  match k with
  | O => w' = w
  | S k' =>
      exists action w1,
        answersAt lastIrreversible seq action
        /\ handleAction ADDRESS_SEPARATOR isSteemAddress isoUTC parseFloat clock
             seq action (fetched w seq) = (Ok (seq + 1), w1)
        /\ appliedFrom lastIrreversible (seq + 1) k' w1 w'
  end.

End Applied.

(** * Checks of the built-ins *)

Example parseInt_20 : JS.parseInt (Some "20") = Some 20.
Proof. reflexivity. Qed.
Example parseInt_hex : JS.parseInt (Some "  -0x1f") = Some (-31).
Proof. reflexivity. Qed.
Example parseInt_px : JS.parseInt (Some "12px") = Some 12.
Proof. reflexivity. Qed.
Example parseInt_nan : JS.parseInt (Some "abc") = None.
Proof. reflexivity. Qed.
Example toFixed_120 : JS.toFixed 120 = "120".
Proof. reflexivity. Qed.
Example toFixed_0 : JS.toFixed 0 = "0".
Proof. reflexivity. Qed.
Example toFixed_999 : JS.toFixed 999 = "999".
Proof. reflexivity. Qed.
Example toFixed_1024 : JS.toFixed 1024 = "1024".
Proof. reflexivity. Qed.
Example split_amount : JS.split "10.5 STEEM" 2 = ["10.5"; "STEEM"].
Proof. reflexivity. Qed.
Example split_more : JS.split "a b c" 2 = ["a"; "b"].
Proof. reflexivity. Qed.
Example split_none : JS.split "10.5" 2 = ["10.5"].
Proof. reflexivity. Qed.

(** * The balance repository *)

Section BalanceUpsert.

Context (address assetId operationOrTxId : string).
Context (amount amountInBaseUnit : float) (block : Z).

Local Abbreviation write :=
  (BalanceRepository.upsert address assetId operationOrTxId amount
     amountInBaseUnit block).
Local Abbreviation id := (balanceId address assetId operationOrTxId).

Lemma setEntry_absorbs (o o' : bool) (d : BalanceDoc) :
  setEntry address assetId operationOrTxId amount amountInBaseUnit block o
    (setEntry address assetId operationOrTxId amount amountInBaseUnit block o' d)
  = setEntry address assetId operationOrTxId amount amountInBaseUnit block o d.
Proof. reflexivity. Qed.

Lemma updateOne_twice (f : BalanceDoc -> BalanceDoc) (k : string)
    (docs : gmap string BalanceDoc) :
  (forall d, f (f d) = f d) ->
  updateOne k f (updateOne k f docs) = updateOne k f docs.
Proof.
  intros Hf. unfold updateOne. rewrite partial_alter_partial_alter_eq.
  apply partial_alter_ext. intros o _. simpl. by rewrite Hf.
Qed.

Lemma upsertedOrder_stored (f : BalanceDoc -> BalanceDoc) (k : string)
    (docs : gmap string BalanceDoc) (order : list string) :
  upsertedOrder k (updateOne k f docs) order = order.
Proof. unfold upsertedOrder, updateOne. by rewrite lookup_partial_alter_eq. Qed.

Lemma upsert_lookup (db : BalanceDb) :
  balanceDocs (write db) !! id
  = Some (setEntry address assetId operationOrTxId amount amountInBaseUnit block
            (BalanceRepository.isObservable address db)
            (default emptyDoc (balanceDocs db !! id))).
Proof.
  unfold BalanceRepository.upsert, updateOne. simpl.
  by rewrite lookup_partial_alter_eq.
Qed.

Lemma upsert_lookup_ne (db : BalanceDb) (id' : string) :
  id' <> id -> balanceDocs (write db) !! id' = balanceDocs db !! id'.
Proof.
  intros Hne. unfold BalanceRepository.upsert, updateOne. simpl.
  by rewrite lookup_partial_alter_ne.
Qed.

Lemma upsert_dom (db : BalanceDb) :
  dom (balanceDocs (write db)) = {[ id ]} ∪ dom (balanceDocs db).
Proof.
  unfold BalanceRepository.upsert, updateOne. simpl.
  apply set_eq. intros k. rewrite elem_of_union, elem_of_singleton, !elem_of_dom.
  destruct (decide (k = balanceId address assetId operationOrTxId)) as [->|Hne].
  - rewrite lookup_partial_alter_eq. split; eauto.
  - rewrite lookup_partial_alter_ne by done. split; [by right | by intros [?|?]].
Qed.

(** C4. Writing the same entry a second time changes nothing: the store
    after two calls of [upsert] with the same arguments is the store after
    one; the document under the composite id holds the values written,
    the second call adds no document, and every aggregated balance read
    by [get] is the same. *)
Theorem upsert_idempotent (db : BalanceDb) :
  write (write db) = write db
  ∧ balanceDocs (write (write db)) !! id
    = Some (setEntry address assetId operationOrTxId amount amountInBaseUnit block
              (BalanceRepository.isObservable address db)
              (default emptyDoc (balanceDocs db !! id)))
  ∧ dom (balanceDocs (write (write db))) = dom (balanceDocs (write db))
  ∧ size (balanceDocs (write (write db))) = size (balanceDocs (write db))
  ∧ forall a b, BalanceRepository.get a b (write (write db))
                = BalanceRepository.get a b (write db).
Proof.
  assert (Heq : write (write db) = write db).
  { unfold BalanceRepository.upsert. simpl. f_equal.
    - unfold BalanceRepository.isObservable. simpl.
      apply updateOne_twice. intros d. apply setEntry_absorbs.
    - apply upsertedOrder_stored. }
  rewrite Heq. repeat split; auto using upsert_lookup.
Qed.

End BalanceUpsert.

(** * Printing and reading back an offset *)

Lemma digitOf_digitChar (d : Z) :
  0 <= d <= 9 -> JS.digitOf 10 (JS.digitChar d) = Some d.
Proof.
  intros Hd.
  assert (d = 0 \/ d = 1 \/ d = 2 \/ d = 3 \/ d = 4 \/ d = 5 \/ d = 6
          \/ d = 7 \/ d = 8 \/ d = 9) as Hcases by lia.
  repeat (destruct Hcases as [-> | Hcases]; [reflexivity |]).
  subst d. reflexivity.
Qed.

Lemma digitsValue_digitsOf (fuel : nat) :
  forall (n : Z) (rest : string),
    0 <= n < 10 ^ (Z.of_nat fuel + 1) ->
    exists k, 0 <= k /\
      forall acc, JS.digitsValue 10 (JS.digitsOf fuel n rest) acc
                  = JS.digitsValue 10 rest (acc * 10 ^ k + n).
Proof.
  assert (Hone : forall n rest, 0 <= n < 10 ->
            forall acc, JS.digitsValue 10 (String (JS.digitChar (n mod 10)) rest) acc
                        = JS.digitsValue 10 rest (acc * 10 ^ 1 + n)).
  { intros n rest Hn acc. simpl JS.digitsValue.
    rewrite Z.mod_small by lia. rewrite digitOf_digitChar by lia.
    f_equal. lia. }
  induction fuel as [|fuel IH]; intros n rest Hn.
  - exists 1. split; [lia|]. intros acc. apply Hone. simpl in Hn. lia.
  - cbn [JS.digitsOf]. destruct (n <? 10) eqn:Hlt.
    + exists 1. split; [lia|]. intros acc. apply Hone. lia.
    + apply Z.ltb_ge in Hlt.
      destruct (IH (n / 10) (String (JS.digitChar (n mod 10)) rest)) as (k & Hk & Hval).
      { split; [apply Z.div_pos; lia|].
        apply Z.div_lt_upper_bound; [lia|].
        replace (Z.of_nat (S fuel) + 1) with (Z.succ (Z.of_nat fuel + 1)) in Hn by lia.
        rewrite Z.pow_succ_r in Hn by lia. lia. }
      exists (k + 1). split; [lia|]. intros acc. rewrite Hval.
      pose proof (Z.mod_pos_bound n 10) as Hmod.
      simpl JS.digitsValue. rewrite digitOf_digitChar by lia.
      f_equal. rewrite Z.pow_add_r by lia.
      pose proof (Z.div_mod n 10). lia.
Qed.

Lemma allDigits_digitsOf (fuel : nat) :
  forall (n : Z) (rest : string),
    JS.allDigits rest = true -> JS.isDecimal (JS.digitsOf fuel n rest) = true.
Proof.
  assert (Hd : forall n, bool_decide (is_Some (JS.digitOf 10 (JS.digitChar (n mod 10))))
                         = true).
  { intros n. apply bool_decide_eq_true. rewrite digitOf_digitChar; [eauto|].
    pose proof (Z.mod_pos_bound n 10). lia. }
  induction fuel as [|fuel IH]; intros n rest Hrest; cbn [JS.digitsOf].
  - simpl. by rewrite Hd, Hrest.
  - destruct (n <? 10).
    + simpl. by rewrite Hd, Hrest.
    + apply IH. simpl. by rewrite Hd, Hrest.
Qed.

Lemma digitOf_decimal (c : ascii) (d : Z) :
  JS.digitOf 10 c = Some d -> 0 <= d <= 9 /\ c = JS.digitChar d.
Proof.
  unfold JS.digitOf, JS.digitChar.
  case_bool_decide as Hrange.
  - intros [= <-]. split; [lia|].
    replace (48 + (Z.of_nat (nat_of_ascii c) - 48)) with (Z.of_nat (nat_of_ascii c)) by lia.
    by rewrite Nat2Z.id, ascii_nat_embedding.
  - rewrite !bool_decide_eq_false_2 by lia. discriminate.
Qed.

Ltac digit_cases d H :=
  let Hcases := fresh in
  assert (d = 0 \/ d = 1 \/ d = 2 \/ d = 3 \/ d = 4 \/ d = 5 \/ d = 6
          \/ d = 7 \/ d = 8 \/ d = 9) as Hcases by lia;
  clear H;
  repeat (destruct Hcases as [-> | Hcases]); [ .. | subst d ].

(** A string of decimal digits is read as the number it spells. *)
Lemma parseInt_decimal (s : string) :
  JS.isDecimal s = true -> JS.parseInt (Some s) = Some (JS.digitsValue 10 s 0).
Proof.
  destruct s as [|c s]; [discriminate|]. simpl JS.isDecimal.
  intros [Hc Hs]%andb_true_iff. apply bool_decide_eq_true in Hc.
  destruct Hc as [d Hc]. apply digitOf_decimal in Hc as [Hd ->].
  digit_cases d Hd; try reflexivity.
  destruct s as [|c' s']; [reflexivity|].
  simpl in Hs. apply andb_true_iff in Hs as [Hc' _].
  apply bool_decide_eq_true in Hc'. destruct Hc' as [d' Hc'].
  apply digitOf_decimal in Hc' as [Hd' ->].
  digit_cases d' Hd'; reflexivity.
Qed.

(** The token printed for an offset is a string of decimal digits, and
    [parseInt] reads the offset back. *)
Lemma toFixed_decimal (n : Z) :
  0 <= n ->
  JS.isDecimal (JS.toFixed n) = true /\ JS.parseInt (Some (JS.toFixed n)) = Some n.
Proof.
  intros Hn. unfold JS.toFixed.
  destruct (n <? 0) eqn:Hneg; [apply Z.ltb_lt in Hneg; lia|].
  assert (Hdec : JS.isDecimal (JS.digitsOf (Z.to_nat (Z.log2 n)) n "") = true)
    by (by apply allDigits_digitsOf).
  split; [exact Hdec|]. rewrite parseInt_decimal by exact Hdec.
  destruct (digitsValue_digitsOf (Z.to_nat (Z.log2 n)) n "") as (k & _ & Hval).
  { split; [lia|]. rewrite Z2Nat.id by apply Z.log2_nonneg.
    destruct (decide (n = 0)) as [->|Hpos]; [reflexivity|].
    pose proof (Z.log2_spec n ltac:(lia)) as [_ Hlog].
    replace (Z.succ (Z.log2 n)) with (Z.log2 n + 1) in Hlog by lia.
    pose proof (Z.log2_nonneg n).
    assert (2 ^ (Z.log2 n + 1) <= 10 ^ (Z.log2 n + 1))
      by (apply Z.pow_le_mono_l; lia).
    lia. }
  rewrite Hval. simpl. f_equal; lia.
Qed.

(** * The paginated read *)

Section Pagination.

Context (db : BalanceDb).

Local Abbreviation groups := (BalanceRepository.observableGroups db).

Lemma getPage_Some (take : Z) (token : option string) (r : MongoQueryResult) :
  BalanceRepository.getPage take token db = Some r ->
  let skip := default 0 (JS.parseInt token) in
  0 <= skip /\ 0 < take
  /\ items r = List.firstn (Z.to_nat take) (List.skipn (Z.to_nat skip) groups)
  /\ continuation r
     = if Z.of_nat (length (items r)) <? take then None
       else Some (JS.toFixed (skip + take)).
Proof.
  unfold BalanceRepository.getPage. case_bool_decide as Hrange; [|discriminate].
  intros [= <-]. simpl. tauto.
Qed.

Lemma getPage_defined (take : Z) (token : option string) :
  0 <= default 0 (JS.parseInt token) -> 0 < take ->
  BalanceRepository.getPage take token db
  = Some (let entities :=
            List.firstn (Z.to_nat take)
              (List.skipn (Z.to_nat (default 0 (JS.parseInt token))) groups) in
          mkMongoQueryResult entities
            (if Z.of_nat (length entities) <? take then None
             else Some (JS.toFixed (default 0 (JS.parseInt token) + take)))).
Proof.
  intros Hskip Htake. unfold BalanceRepository.getPage.
  rewrite bool_decide_eq_true_2 by lia. reflexivity.
Qed.

(** Reading from offset [skip] with pages of [p] entries takes one
    request more than the number of full pages that remain. *)
Lemma readAllPages_from (p : nat) (full : nat) :
  (0 < p)%nat ->
  forall (skip : nat) (token : option string),
    default 0 (JS.parseInt token) = Z.of_nat skip ->
    (length (List.skipn skip groups) / p)%nat = full ->
    exists (front : list MongoQueryResult) (final : MongoQueryResult),
      (forall fuel, readAllPages fuel (Z.of_nat p) token db
                    = if decide (fuel <= full)%nat then None
                      else Some (front ++ [final]))
      /\ length front = full
      /\ Forall (fun page => length (items page) = p
                             /\ is_Some (continuation page)) front
      /\ continuation final = None
      /\ (length (items final) < p)%nat
      /\ items final = List.skipn (skip + full * p) groups
      /\ concat (items <$> (front ++ [final])) = List.skipn skip groups.
Proof.
  intros Hp. induction full as [|full IH]; intros skip token Htoken Hfull.
  - apply Nat.div_small_iff in Hfull; [|lia].
    set (page := mkMongoQueryResult (List.skipn skip groups) None).
    assert (Hpage : BalanceRepository.getPage (Z.of_nat p) token db = Some page).
    { rewrite getPage_defined by lia. rewrite Htoken, !Nat2Z.id. cbv zeta.
      rewrite firstn_all2 by lia.
      destruct (Z.ltb_spec (Z.of_nat (length (List.skipn skip groups))) (Z.of_nat p));
        [done | lia]. }
    exists [], page. repeat split; simpl; auto.
    + intros [|fuel]; [done|]. simpl. by rewrite Hpage.
    + by rewrite Nat.add_0_r.
    + by rewrite app_nil_r.
  - assert (Hlen : (p <= length (List.skipn skip groups))%nat).
    { destruct (Nat.lt_ge_cases (length (List.skipn skip groups)) p) as [Hlt|]; [|done].
      apply Nat.div_small in Hlt. lia. }
    set (next := JS.toFixed (Z.of_nat skip + Z.of_nat p)).
    set (page := mkMongoQueryResult (List.firstn p (List.skipn skip groups)) (Some next)).
    assert (Hpage : BalanceRepository.getPage (Z.of_nat p) token db = Some page).
    { rewrite getPage_defined by lia. rewrite Htoken, !Nat2Z.id. cbv zeta.
      rewrite length_take, Nat.min_l by done.
      destruct (Z.ltb_spec (Z.of_nat p) (Z.of_nat p)); [lia | done]. }
    destruct (IH (skip + p)%nat (Some next)) as (front & final & Hread & Hfront & Hall
                                                  & Hnone & Hshort & Hfinal & Hconcat).
    { subst next. destruct (toFixed_decimal (Z.of_nat skip + Z.of_nat p)) as [_ ->]; [lia|].
      simpl. lia. }
    { rewrite <- drop_drop.
      rewrite length_drop.
      assert (Hsplit : length (List.skipn skip groups)
                       = (length (List.skipn skip groups) - p + 1 * p)%nat) by lia.
      rewrite Hsplit, Nat.div_add in Hfull by lia. lia. }
    exists (page :: front), final. repeat split; auto.
    + intros [|fuel]; [done|]. simpl. rewrite Hpage. simpl. rewrite Hread.
      destruct (decide (fuel <= full)%nat), (decide (S fuel <= S full)%nat);
        try lia; done.
    + simpl. by rewrite Hfront.
    + constructor; [|done]. simpl. split; [|eauto].
      by rewrite length_take, Nat.min_l.
    + rewrite Hfinal. f_equal. lia.
    + change (concat (items <$> ((page :: front) ++ [final])))
        with (items page ++ concat (items <$> (front ++ [final]))).
      rewrite Hconcat. rewrite <- drop_drop. apply take_drop.
Qed.

End Pagination.

(** C7, as amended.  A page is the [take] groups after the offset; its
    token is [null] exactly when it holds fewer than [take] groups, and is
    otherwise the decimal string of [skip + take].  Hence a reader that
    asks for pages of [take > 0] entries, each with the token of the page
    before, stops at the first page that holds fewer than [take] entries:
    after the [full] complete pages, with one more request, whose page
    holds all the remaining entries (none, when the number of groups is a
    multiple of [take]); the pages together are the groups, in order. *)
Theorem getPage_pagination (db : BalanceDb) (take : Z) (Htake : 0 < take) :
  (forall (token : option string) (r : MongoQueryResult),
     BalanceRepository.getPage take token db = Some r ->
     let skip := default 0 (JS.parseInt token) in
     items r = List.firstn (Z.to_nat take)
                 (List.skipn (Z.to_nat skip) (BalanceRepository.observableGroups db))
     /\ (continuation r = None <-> Z.of_nat (length (items r)) < take)
     /\ (take <= Z.of_nat (length (items r)) ->
         continuation r = Some (JS.toFixed (skip + take))))
  /\ let p := Z.to_nat take in
     let full := (length (BalanceRepository.observableGroups db) / p)%nat in
     exists (front : list MongoQueryResult) (final : MongoQueryResult),
       (forall fuel, readAllPages fuel take None db
                     = if decide (fuel <= full)%nat then None
                       else Some (front ++ [final]))
       /\ length front = full
       /\ Forall (fun page => length (items page) = p
                              /\ is_Some (continuation page)) front
       /\ continuation final = None
       /\ (length (items final) < p)%nat
       /\ items final = List.skipn (full * p) (BalanceRepository.observableGroups db)
       /\ ((length (BalanceRepository.observableGroups db) mod p = 0)%nat ->
           items final = [])
       /\ concat (items <$> (front ++ [final])) = BalanceRepository.observableGroups db.
Proof.
  split.
  - intros token r Hr skip. apply getPage_Some in Hr as (_ & _ & Hitems & Htoken).
    fold skip in Hitems, Htoken. split; [exact Hitems|]. rewrite Htoken.
    destruct (Z.ltb_spec (Z.of_nat (length (items r))) take).
    + split; [split; [intros _; lia | intros _; reflexivity] | intros; lia].
    + split; [split; [discriminate | intros; lia] | intros _; reflexivity].
  - intros p full.
    destruct (readAllPages_from db p full ltac:(lia) 0%nat None eq_refl eq_refl)
      as (front & final & Hread & Hrest).
    destruct Hrest as (Hfront & Hall & Hnone & Hshort & Hfinal & Hconcat).
    rewrite Nat.add_0_l in Hfinal.
    exists front, final. subst p. rewrite Z2Nat.id in Hread by lia.
    repeat split; try done.
    intros Hmod. apply nil_length_inv. rewrite Hfinal, length_drop. subst full.
    pose proof (Nat.div_mod_eq (length (BalanceRepository.observableGroups db))
                  (Z.to_nat take)).
    lia.
Qed.

Lemma getPage_pagination_witness :
  0 < 2
  /\ exists pages, readAllPages 2 2 None demoLedger = Some pages
                   /\ readAllPages 1 2 None demoLedger = None
                   /\ concat (items <$> pages) = BalanceRepository.observableGroups demoLedger.
Proof.
  split; [lia|].
  destruct (getPage_pagination demoLedger 2 ltac:(lia))
    as (_ & front & final & Hread & _ & _ & _ & _ & _ & _ & Hconcat).
  exists (front ++ [final]). split; [|split].
  - exact (Hread 2%nat).
  - exact (Hread 1%nat).
  - exact Hconcat.
Defined.

(** C7, as stated, fails: the token is not [null] exactly when the
    entries are exhausted.  On a ledger of two groups read with pages of
    two, the first page holds both groups and nothing remains after it,
    yet it carries the token ["2"]; the reader stops one request later, on
    an empty page. *)
Lemma getPage_token_when_exhausted :
  exists r,
    BalanceRepository.getPage 2 None demoLedger = Some r
    /\ items r = BalanceRepository.observableGroups demoLedger
    /\ List.skipn (Z.to_nat (default 0 (JS.parseInt None) + 2))
         (BalanceRepository.observableGroups demoLedger) = []
    /\ continuation r = Some "2"
    /\ ~ (continuation r = None
          <-> List.skipn (Z.to_nat (default 0 (JS.parseInt None) + 2))
                (BalanceRepository.observableGroups demoLedger) = []).
Proof.
  eexists. split; [vm_compute; reflexivity|]. cbn [items continuation].
  split; [vm_compute; reflexivity|]. split; [vm_compute; reflexivity|].
  split; [reflexivity|]. intros [_ Hnull]. discriminate Hnull. vm_compute. reflexivity.
Qed.

Example demoLedger_first_page :
  BalanceRepository.getPage 2 None demoLedger
  = Some (mkMongoQueryResult (BalanceRepository.observableGroups demoLedger) (Some "2"))
  /\ length (BalanceRepository.observableGroups demoLedger) = 2%nat
  /\ BalanceRepository.getPage 2 (Some "2") demoLedger = Some (mkMongoQueryResult [] None).
Proof. vm_compute. auto. Qed.

(** * The chain scanner *)

(** ** Running the monad *)

Lemma app_one_cons {A} (l : list A) (x : A) (l' : list A) :
  (l ++ [x]) ++ l' = l ++ x :: l'.
Proof. by rewrite <- app_assoc. Qed.

Ltac run :=
  cbv [mbind M_bind mret M_ret call log throw outOfFuel id
       ParamsRepository.get ParamsRepository.upsert
       balanceRepository_upsert historyRepository_upsert
       operationRepository_getOperationIdByTxId operationRepository_getActions
       operationRepository_get operationRepository_update assetRepository_get
       newDate steem_getDynamicGlobalPropertiesAsync steem_getAccountHistoryAsync
       steem_getBlockAsync operationRepository_geOperationIdByExpiryTime];
  cbn [stores trace fst snd].

Ltac tidy := rewrite ?app_one_cons, <- ?app_assoc; cbn [app].

Lemma forEach_run {A} (f : A -> M unit) (step : World -> A -> World) (l : list A) :
  (forall x w, f x w = (Ok tt, step w x)) ->
  forall w, forEach l f w = (Ok tt, foldl step w l).
Proof.
  intros Hf. induction l as [|x l IH]; intros w; [reflexivity|].
  cbn [forEach foldl]. run. rewrite Hf. apply IH.
Qed.

Lemma foldl_world {A} (onStores : Stores -> A -> Stores) (calls : A -> list Call)
    (l : list A) :
  forall w,
    foldl (fun w a => mkWorld (onStores (stores w) a) (trace w ++ calls a)) w l
    = mkWorld (foldl onStores (stores w) l) (trace w ++ concat (calls <$> l)).
Proof.
  induction l as [|a l IH]; intros w.
  - simpl. rewrite app_nil_r. by destruct w.
  - cbn [foldl]. rewrite IH. cbn [stores trace fmap list_fmap concat].
    by rewrite <- app_assoc.
Qed.

(** The replay of planned actions writes balances and history only. *)
Lemma replayed_frame (assetId operationId txId : string) (block : Z)
    (blockTime : JS.Date) (planned : list OperationActionEntity) :
  forall s s',
    s' = foldl (replayStores assetId operationId txId block blockTime) s planned ->
    params s' = params s /\ operations s' = operations s
    /\ operationActions s' = operationActions s
    /\ operationsByTxId s' = operationsByTxId s /\ assets s' = assets s.
Proof.
  induction planned as [|a planned IH]; intros s s' ->; [done|].
  cbn [foldl].
  destruct (IH (replayStores assetId operationId txId block blockTime s a) _ eq_refl)
    as (-> & -> & -> & -> & ->).
  done.
Qed.

(** ** Entries record the block they were written with *)

Lemma recorded_refl (b : Z) (s : Stores) : recorded b s s.
Proof. split; auto. Qed.

Lemma recorded_trans (b : Z) (s1 s2 s3 : Stores) :
  recorded b s1 s2 -> recorded b s2 s3 -> recorded b s1 s3.
Proof.
  intros [Hb12 Hh12] [Hb23 Hh23]. split.
  - intros id d Hd. destruct (Hb23 id d Hd); auto.
  - intros k e He. destruct (Hh23 k e He); auto.
Qed.

Lemma recorded_ledgers (b : Z) (s s1 s2 : Stores) :
  balances s2 = balances s1 -> history s2 = history s1 ->
  recorded b s s1 -> recorded b s s2.
Proof. unfold recorded. intros -> ->. auto. Qed.

Lemma recorded_upsert (b : Z) (s : Stores) (address assetId key : string)
    (value valueInBaseUnit : float) :
  recorded b s
    (withBalances
       (BalanceRepository.upsert address assetId key value valueInBaseUnit b
          (balances s)) s).
Proof.
  split; [|auto]. intros id d. cbn [balances withBalances].
  unfold BalanceRepository.upsert, updateOne. cbn [balanceDocs].
  rewrite lookup_partial_alter. case_decide as Hid.
  - intros [= <-]. by right.
  - auto.
Qed.

Lemma recorded_movement (b : Z) (s : Stores) (sender recipient assetId key : string)
    (value valueInBaseUnit : float) :
  recorded b s
    (withBalances
       (movementBalances sender recipient assetId key value valueInBaseUnit b
          (balances s)) s).
Proof.
  eapply recorded_trans; [apply recorded_upsert|].
  eapply recorded_ledgers; [| |apply recorded_upsert]; reflexivity.
Qed.

Lemma recorded_history (b : Z) (s : Stores) (k : string * string) (e : HistoryEntity) :
  HistoryBlock e = b ->
  recorded b s (withHistory (<[k := e]> (history s)) s).
Proof.
  intros He. split; [auto|]. intros k' e'. cbn [history withHistory].
  rewrite lookup_insert. case_decide.
  - intros [= <-]. by right.
  - auto.
Qed.

Lemma recorded_external (b : Z) (s : Stores) (k : string * string) (e : HistoryEntity)
    (sender recipient assetId key : string) (value valueInBaseUnit : float) :
  HistoryBlock e = b ->
  recorded b s
    (withBalances
       (movementBalances sender recipient assetId key value valueInBaseUnit b
          (balances s))
       (withHistory (<[k := e]> (history s)) s)).
Proof.
  intros He.
  apply (recorded_trans b s (withHistory (<[k := e]> (history s)) s));
    [by apply recorded_history|].
  apply (recorded_movement b (withHistory (<[k := e]> (history s)) s)).
Qed.

Lemma recorded_replay (assetId operationId txId : string) (b : Z) (blockTime : JS.Date)
    (planned : list OperationActionEntity) :
  forall s, recorded b s (foldl (replayStores assetId operationId txId b blockTime) s planned).
Proof.
  induction planned as [|a planned IH]; intros s; [apply recorded_refl|].
  cbn [foldl]. eapply recorded_trans; [|apply IH].
  unfold replayStores.
  eapply recorded_trans; [apply recorded_movement|].
  match goal with |- recorded _ ?s1 (withHistory (<[?k := ?e]> _) _) =>
    apply (recorded_history b s1 k e)
  end.
  reflexivity.
Qed.

Section Scanner.

Context (HotWalletAccount ADDRESS_SEPARATOR : string).
Context (isSteemAddress : string -> bool) (isoUTC : string -> JS.Date).
Context (parseFloat : option string -> float) (clock : nat -> JS.Date).
Context (last_irreversible_block_num : Z).
Context (getAccountHistoryAsync : string -> Z -> Z -> option (list (Z * Action))).

(** The scanner at these settings and collaborators. *)
Local Abbreviation handleAction' :=
  (handleAction ADDRESS_SEPARATOR isSteemAddress isoUTC parseFloat clock).
Local Abbreviation handleExternal' :=
  (handleExternal ADDRESS_SEPARATOR isSteemAddress parseFloat).
Local Abbreviation handleInternal' := (handleInternal clock).
Local Abbreviation applyTransfer' :=
  (applyTransfer ADDRESS_SEPARATOR isSteemAddress parseFloat clock).
Local Abbreviation handleActions_loop' :=
  (handleActions_loop HotWalletAccount ADDRESS_SEPARATOR isSteemAddress isoUTC
     parseFloat clock getAccountHistoryAsync).
Local Abbreviation handleActions' :=
  (handleActions HotWalletAccount ADDRESS_SEPARATOR isSteemAddress isoUTC
     parseFloat clock last_irreversible_block_num getAccountHistoryAsync).
Local Abbreviation destinationOf' := (destinationOf ADDRESS_SEPARATOR).
Local Abbreviation irreversibleAt' :=
  (irreversibleAt HotWalletAccount getAccountHistoryAsync).

Lemma loop_step (fuel : nat) (lastIrreversible seq : Z) (w : World) :
  handleActions_loop' (S fuel) lastIrreversible seq w
  = let w1 := mkWorld (stores w) (trace w ++ [GetAccountHistory HotWalletAccount seq 0]) in
    match irreversibleAt' lastIrreversible seq with
    | Some action =>
        match handleAction' seq action w1 with
        | (Ok next, w2) => handleActions_loop' fuel lastIrreversible next w2
        | (Throw e, w2) => (Throw e, w2)
        | (OutOfFuel, w2) => (OutOfFuel, w2)
        end
    | None => (Ok tt, w1)
    end.
Proof.
  unfold irreversibleAt. cbn [handleActions_loop]. run.
  destruct (actionOf _ _) as [action|]; [|reflexivity].
  destruct (action_block action <=? lastIrreversible); reflexivity.
Qed.

Lemma recordBalanceChanges_run (sender recipient assetId key : string)
    (value valueInBaseUnit : float) (block : Z) (w : World) :
  recordBalanceChanges (balanceChanges sender recipient value valueInBaseUnit)
    assetId key block w
  = (Ok tt,
     mkWorld
       (withBalances
          (movementBalances sender recipient assetId key value valueInBaseUnit block
             (balances (stores w))) (stores w))
       (trace w ++ movementCalls sender recipient assetId key value valueInBaseUnit block)).
Proof.
  unfold recordBalanceChanges, balanceChanges, movementCalls, movementBalances.
  cbn [forEach]. run. tidy. reflexivity.
Qed.

(** The head and the tail of the loop's body: the log line, then the
    increment and the checkpoint. *)
Lemma handleAction_unfold (seq : Z) (action : Action) (w : World) :
  handleAction' seq action w
  = match applyTransfer' (transferOf action) (trx_id action) (JS.toString seq)
            (action_block action * 10) (isoUTC (timestamp action))
            (mkWorld (stores w)
               (trace w ++ [LogWrite info
                  (fst (op action) +:+ " action "
                   +:+ match transferOf action with
                       | Some _ => "detected"
                       | None => "skipped"
                       end)])) with
    | (Ok _, w1) =>
        (Ok (seq + 1),
         mkWorld (advanced seq (stores w1))
           (trace w1 ++ [ParamsUpsert (Some (seq + 1)) None]))
    | (Throw e, w1) => (Throw e, w1)
    | (OutOfFuel, w1) => (OutOfFuel, w1)
    end.
Proof.
  unfold handleAction. run. reflexivity.
Qed.

(** ** The paths of the classification *)

Section Paths.

Context (txId actionId : string) (block : Z) (blockTime : JS.Date) (w : World).

Lemma applyTransfer_other :
  applyTransfer' None txId actionId block blockTime w = (Ok tt, w).
Proof. reflexivity. Qed.

Lemma applyTransfer_untracked (transfer : Transfer) :
  truthy (operationsByTxId (stores w) !! txId) = None ->
  assetOf (stores w) transfer = None ->
  applyTransfer' (Some transfer) txId actionId block blockTime w
  = (Ok tt,
     mkWorld (stores w)
       (trace w ++ [ GetOperationIdByTxId txId;
                     AssetGet (JS.split (amount transfer) 2 !! 1%nat);
                     LogWrite warning "Not tracked token" ])).
Proof.
  intros Hop Hasset. unfold applyTransfer, handleExternal. run.
  rewrite Hop. run. unfold assetOf in Hasset. rewrite Hasset. run. tidy. reflexivity.
Qed.

Lemma applyTransfer_invalid (transfer : Transfer) (asset : AssetEntity) :
  truthy (operationsByTxId (stores w) !! txId) = None ->
  assetOf (stores w) transfer = Some asset ->
  isSteemAddress (destinationOf' transfer) = false ->
  applyTransfer' (Some transfer) txId actionId block blockTime w
  = (Ok tt,
     mkWorld (stores w)
       (trace w ++ [ GetOperationIdByTxId txId;
                     AssetGet (JS.split (amount transfer) 2 !! 1%nat);
                     LogWrite warning "Invalid destination address" ])).
Proof.
  intros Hop Hasset Hto. unfold applyTransfer, handleExternal. run.
  rewrite Hop. run. unfold assetOf in Hasset. rewrite Hasset, Hto. run. tidy. reflexivity.
Qed.

Lemma applyTransfer_external (transfer : Transfer) (asset : AssetEntity) :
  truthy (operationsByTxId (stores w) !! txId) = None ->
  assetOf (stores w) transfer = Some asset ->
  isSteemAddress (destinationOf' transfer) = true ->
  let value := parseFloat (JS.split (amount transfer) 2 !! 0%nat) in
  let entry :=
    mkHistory (from transfer) (destinationOf' transfer) (AssetEntityId asset) value
      (toBaseUnit asset value) block blockTime txId actionId
      (operationsByTxId (stores w) !! txId) in
  applyTransfer' (Some transfer) txId actionId block blockTime w
  = (Ok tt,
     mkWorld
       (withBalances
          (movementBalances (from transfer) (destinationOf' transfer)
             (AssetEntityId asset) txId value (toBaseUnit asset value) block
             (balances (stores w)))
          (withHistory (<[(txId, actionId) := entry]> (history (stores w))) (stores w)))
       (trace w
        ++ [ GetOperationIdByTxId txId;
             AssetGet (JS.split (amount transfer) 2 !! 1%nat);
             HistoryUpsert entry;
             LogWrite info "Transfer recorded" ]
        ++ movementCalls (from transfer) (destinationOf' transfer)
             (AssetEntityId asset) txId value (toBaseUnit asset value) block)).
Proof.
  intros Hop Hasset Hto value entry. unfold applyTransfer, handleExternal. run.
  rewrite Hop. run. unfold assetOf in Hasset. rewrite Hasset, Hto. run.
  rewrite recordBalanceChanges_run. cbn [stores trace]. tidy. reflexivity.
Qed.

Lemma applyTransfer_missing (transfer : Transfer) (operationId : string) :
  truthy (operationsByTxId (stores w) !! txId) = Some operationId ->
  operations (stores w) !! operationId = None ->
  exists e,
    applyTransfer' (Some transfer) txId actionId block blockTime w
    = (Throw e,
       mkWorld (stores w)
         (trace w ++ [ GetOperationIdByTxId txId; GetActions operationId;
                       OperationGet operationId ])).
Proof.
  intros Hop Hmissing. eexists. unfold applyTransfer, handleInternal. run.
  rewrite Hop. run. rewrite Hmissing. tidy. reflexivity.
Qed.

Lemma applyTransfer_completed (transfer : Transfer) (operationId : string)
    (operation : OperationEntity) :
  truthy (operationsByTxId (stores w) !! txId) = Some operationId ->
  operations (stores w) !! operationId = Some operation ->
  isCompleted operation = true ->
  applyTransfer' (Some transfer) txId actionId block blockTime w
  = (Ok tt,
     mkWorld (stores w)
       (trace w ++ [ GetOperationIdByTxId txId; GetActions operationId;
                     OperationGet operationId ])).
Proof.
  intros Hop Hget Hdone. unfold applyTransfer, handleInternal. run.
  rewrite Hop. run. rewrite Hget, Hdone. tidy. reflexivity.
Qed.

Lemma applyTransfer_internal (transfer : Transfer) (operationId : string)
    (operation : OperationEntity) :
  truthy (operationsByTxId (stores w) !! txId) = Some operationId ->
  operations (stores w) !! operationId = Some operation ->
  isCompleted operation = false ->
  let planned := default [] (operationActions (stores w) !! operationId) in
  let assetId := OperationAssetId operation in
  let replayed :=
    foldl (replayStores assetId operationId txId block blockTime) (stores w) planned in
  let calls :=
    [ GetOperationIdByTxId txId; GetActions operationId; OperationGet operationId ]
    ++ concat (replayCalls assetId operationId txId block blockTime <$> planned) in
  let completion :=
    mkOperationUpdate (Some (clock (length (trace w ++ calls)))) (Some blockTime)
      (Some block) None None None in
  applyTransfer' (Some transfer) txId actionId block blockTime w
  = (Ok tt,
     mkWorld
       (withOperations
          (alter (mergeOperation completion) operationId (operations replayed))
          replayed)
       (trace w ++ calls ++ [OperationUpdateCall operationId completion])).
Proof.
  intros Hop Hget Hpending planned assetId replayed calls completion.
  unfold applyTransfer, handleInternal. run.
  rewrite Hop. run. rewrite Hget, Hpending. cbn [negb].
  erewrite (forEach_run _
    (fun w a => mkWorld (replayStores assetId operationId txId block blockTime (stores w) a)
                  (trace w ++ replayCalls assetId operationId txId block blockTime a))).
  2:{ intros a w0. run. rewrite recordBalanceChanges_run. cbn [stores trace].
      unfold replayCalls, replayStores, replayEntry. tidy. reflexivity. }
  rewrite foldl_world. cbn [stores trace]. subst completion calls replayed planned.
  tidy. reflexivity.
Qed.

(** Whatever the path, the classification makes body calls only, leaves
    the checkpoint alone, and ends with a value or an exception. *)
Lemma applyTransfer_cases (transfer : option Transfer) :
  exists (out : Outcome unit) (s : Stores) (calls : list Call),
    applyTransfer' transfer txId actionId block blockTime w
    = (out, mkWorld s (trace w ++ calls))
    /\ out <> OutOfFuel
    /\ params s = params (stores w)
    /\ recorded block (stores w) s
    /\ Forall (bodyCall block) calls.
Proof.
  destruct transfer as [transfer|].
  - destruct (truthy (operationsByTxId (stores w) !! txId)) as [operationId|] eqn:Hop.
    + destruct (operations (stores w) !! operationId) as [operation|] eqn:Hget.
      * destruct (isCompleted operation) eqn:Hdone.
        -- do 3 eexists. rewrite (applyTransfer_completed _ _ _ Hop Hget Hdone).
           split; [reflexivity|]. split; [discriminate|]. split; [reflexivity|].
           split; [apply recorded_refl|]. repeat constructor.
        -- do 3 eexists. rewrite (applyTransfer_internal _ _ _ Hop Hget Hdone).
           split; [reflexivity|]. split; [discriminate|]. split.
           { cbn [params withOperations]. by eapply replayed_frame. }
           split.
           { eapply recorded_ledgers; [| |apply recorded_replay]; reflexivity. }
           rewrite <- app_assoc. repeat (apply Forall_cons; split; [exact I|]).
           apply Forall_app. split.
           ++ apply Forall_concat, Forall_fmap, Forall_forall. intros a _.
              repeat constructor.
           ++ repeat constructor. simpl. eauto.
      * destruct (applyTransfer_missing transfer _ Hop Hget) as [e He].
        do 3 eexists. rewrite He. split; [reflexivity|]. split; [discriminate|].
        split; [reflexivity|]. split; [apply recorded_refl|]. repeat constructor.
    + destruct (assetOf (stores w) transfer) as [asset|] eqn:Hasset.
      * destruct (isSteemAddress (destinationOf' transfer)) eqn:Hto.
        -- do 3 eexists. rewrite (applyTransfer_external _ _ Hop Hasset Hto).
           split; [reflexivity|]. split; [discriminate|]. split; [reflexivity|].
           split.
           { by apply recorded_external. }
           repeat constructor.
        -- do 3 eexists. rewrite (applyTransfer_invalid _ _ Hop Hasset Hto).
           split; [reflexivity|]. split; [discriminate|]. split; [reflexivity|].
           split; [apply recorded_refl|]. repeat constructor.
      * do 3 eexists. rewrite (applyTransfer_untracked _ Hop Hasset).
        split; [reflexivity|]. split; [discriminate|]. split; [reflexivity|].
        split; [apply recorded_refl|]. repeat constructor.
  - exists (Ok tt), (stores w), []. rewrite app_nil_r. destruct w.
    split; [reflexivity|]. split; [discriminate|]. split; [reflexivity|].
    split; [apply recorded_refl|]. constructor.
Qed.

End Paths.

Lemma advanced_sequence (seq : Z) (s : Stores) :
  exists p, params (advanced seq s) = Some p /\ NextActionSequence p = Some (seq + 1).
Proof.
  unfold advanced, withParams, insertOrMerge. simpl.
  destruct (params s); eexists; split; reflexivity.
Qed.

(** The calls of the loop's body for one action, whatever the path. *)
Lemma handleAction_cases (seq : Z) (action : Action) (w : World) :
  exists (out : Outcome Z) (w' : World) (calls : list Call) (line : string),
    handleAction' seq action w = (out, w')
    /\ Forall (bodyCall (action_block action * 10)) calls
    /\ recorded (action_block action * 10) (stores w) (stores w')
    /\ ((out = Ok (seq + 1)
         /\ (exists s, stores w' = advanced seq s /\ params s = params (stores w))
         /\ trace w' = trace w ++ LogWrite info line :: calls
                        ++ [ParamsUpsert (Some (seq + 1)) None])
        \/ (exists e, out = Throw e)
           /\ params (stores w') = params (stores w)
           /\ trace w' = trace w ++ LogWrite info line :: calls).
Proof.
  rewrite handleAction_unfold.
  match goal with |- context [applyTransfer' ?t ?x ?a ?b ?bt ?w0] =>
    destruct (applyTransfer_cases x a b bt w0 t)
      as (out & s & calls & -> & Hfuel & Hparams & Hrec & Hcalls)
  end.
  cbn [trace stores] in *.
  destruct out as [[]|e|]; [| |done].
  - do 4 eexists. split; [reflexivity|]. split; [exact Hcalls|].
    split; [eapply recorded_ledgers; [| |exact Hrec]; reflexivity|]. left.
    split; [reflexivity|]. split; [by eexists|].
    cbn [trace]. tidy. reflexivity.
  - do 4 eexists. split; [reflexivity|]. split; [exact Hcalls|].
    split; [exact Hrec|]. right.
    split; [by eexists|]. cbn [trace stores]. tidy. by split.
Qed.

(** ** The body on a transfer of one of our operations *)

Section Internal.

Context (seq : Z) (action : Action) (w : World).
Context (transfer : Transfer) (operationId : string) (operation : OperationEntity).
Context (Htransfer : transferOf action = Some transfer).
Context (Hop : truthy (operationsByTxId (stores w) !! trx_id action) = Some operationId).
Context (Hget : operations (stores w) !! operationId = Some operation).

Local Abbreviation reads :=
  [ LogWrite info (fst (op action) +:+ " action " +:+ "detected");
    GetOperationIdByTxId (trx_id action);
    GetActions operationId;
    OperationGet operationId ].

Lemma handleAction_completed :
  isCompleted operation = true ->
  handleAction' seq action w
  = (Ok (seq + 1),
     mkWorld (advanced seq (stores w))
       (trace w ++ reads ++ [ParamsUpsert (Some (seq + 1)) None])).
Proof.
  intros Hdone. rewrite handleAction_unfold, Htransfer.
  rewrite (applyTransfer_completed _ _ _ _ _ transfer operationId operation) by done.
  cbn [stores trace]. tidy. reflexivity.
Qed.

Lemma handleAction_internal :
  isCompleted operation = false ->
  let b := action_block action * 10 in
  let t := isoUTC (timestamp action) in
  let planned := default [] (operationActions (stores w) !! operationId) in
  let replayed :=
    foldl (replayStores (OperationAssetId operation) operationId (trx_id action) b t)
      (stores w) planned in
  let calls :=
    reads ++ concat (replayCalls (OperationAssetId operation) operationId
                       (trx_id action) b t <$> planned) in
  let completion :=
    mkOperationUpdate (Some (clock (length (trace w ++ calls)))) (Some t) (Some b)
      None None None in
  handleAction' seq action w
  = (Ok (seq + 1),
     mkWorld
       (advanced seq
          (withOperations
             (alter (mergeOperation completion) operationId (operations (stores w)))
             replayed))
       (trace w ++ calls
        ++ [OperationUpdateCall operationId completion;
            ParamsUpsert (Some (seq + 1)) None])).
Proof.
  intros Hpending b t planned replayed calls completion.
  rewrite handleAction_unfold, Htransfer.
  rewrite (applyTransfer_internal _ _ _ _ _ transfer operationId operation) by done.
  cbn [stores trace]. fold b t planned replayed.
  assert (Hops : operations replayed = operations (stores w))
    by (by eapply replayed_frame).
  rewrite Hops. subst completion calls. tidy. tidy. reflexivity.
Qed.

End Internal.

(** ** The claims on the loop's body *)

(** C9. Whatever the loop's body does for an action, every call that
    writes a balance entry or a history entry carries ten times the
    action's block number, and every balance document and history entry
    that the body leaves in the stores, and that was not there before,
    records that block. *)
Theorem writes_record_tenfold_block (seq : Z) (action : Action) (w : World) :
  let w' := snd (handleAction' seq action w) in
  exists calls,
    trace w' = trace w ++ calls
    /\ (forall c b, c ∈ calls -> blockOfWrite c = Some b -> b = action_block action * 10)
    /\ (forall id d, balanceDocs (balances (stores w')) !! id = Some d ->
          balanceDocs (balances (stores w)) !! id = Some d
          \/ Block d = Some (action_block action * 10))
    /\ (forall k e, history (stores w') !! k = Some e ->
          history (stores w) !! k = Some e
          \/ HistoryBlock e = action_block action * 10).
Proof.
  destruct (handleAction_cases seq action w)
    as (out & w' & calls & line & -> & Hcalls & [Hbal Hhist] & Hout).
  cbn [snd].
  assert (Hbody : forall c b, c ∈ calls -> blockOfWrite c = Some b ->
                              b = action_block action * 10).
  { intros c b Hc Hb. rewrite Forall_forall in Hcalls. specialize (Hcalls c Hc).
    destruct c; try discriminate; simpl in Hb, Hcalls; congruence. }
  destruct Hout as [(_ & _ & ->) | (_ & _ & ->)]; eexists;
    (split; [reflexivity|]); (split; [|split; assumption]); intros c b Hc.
  - apply elem_of_cons in Hc as [->|Hc]; [discriminate|].
    apply elem_of_app in Hc as [Hc|Hc]; [by apply Hbody|].
    apply list_elem_of_singleton in Hc as ->. discriminate.
  - apply elem_of_cons in Hc as [->|Hc]; [discriminate|]. by apply Hbody.
Qed.

(** C2. A transfer whose transaction is one of our operations, already
    completed, is re-processed without a write to the balances, to the
    history or to the operation: the calls are the log line, three reads
    and the checkpoint, and only the checkpoint's row changes.  And an
    operation that was not completed -- failed or not -- is, once applied;
    what was said then holds of the stores it leaves, at whatever sequence
    its transaction is observed again. *)
Theorem completed_operation_not_reapplied (seq : Z) (action : Action) (w : World)
    (transfer : Transfer) (operationId : string) (operation : OperationEntity) :
  transferOf action = Some transfer ->
  truthy (operationsByTxId (stores w) !! trx_id action) = Some operationId ->
  operations (stores w) !! operationId = Some operation ->
  let reads :=
    [ LogWrite info (fst (op action) +:+ " action " +:+ "detected");
      GetOperationIdByTxId (trx_id action);
      GetActions operationId;
      OperationGet operationId ] in
  (isCompleted operation = true ->
   handleAction' seq action w
   = (Ok (seq + 1),
      mkWorld (advanced seq (stores w))
        (trace w ++ reads ++ [ParamsUpsert (Some (seq + 1)) None]))
   /\ List.filter isWrite reads = []
   /\ balances (advanced seq (stores w)) = balances (stores w)
   /\ history (advanced seq (stores w)) = history (stores w)
   /\ operations (advanced seq (stores w)) = operations (stores w))
  /\ (isCompleted operation = false ->
      exists (w1 : World) (operation1 : OperationEntity),
        handleAction' seq action w = (Ok (seq + 1), w1)
        /\ operations (stores w1) !! operationId = Some operation1
        /\ isCompleted operation1 = true
        /\ forall seq2,
             handleAction' seq2 action w1
             = (Ok (seq2 + 1),
                mkWorld (advanced seq2 (stores w1))
                  (trace w1 ++ reads ++ [ParamsUpsert (Some (seq2 + 1)) None]))).
Proof.
  intros Htransfer Hop Hget reads. split.
  - intros Hdone. split; [by eapply handleAction_completed|]. by repeat split.
  - intros Hpending.
    pose proof (handleAction_internal seq action w transfer operationId operation
                  Htransfer Hop Hget Hpending) as Hrun.
    cbv zeta in Hrun.
    eexists _, _. split; [exact Hrun|]. cbn [stores].
    match goal with |- context [alter (mergeOperation ?c) _ _] => set (completion := c) end.
    assert (Hget1 : operations
              (advanced seq
                 (withOperations
                    (alter (mergeOperation completion) operationId (operations (stores w)))
                    (foldl (replayStores (OperationAssetId operation) operationId
                              (trx_id action) (action_block action * 10)
                              (isoUTC (timestamp action)))
                       (stores w)
                       (default [] (operationActions (stores w) !! operationId)))))
            !! operationId = Some (mergeOperation completion operation)).
    { cbn [operations advanced withParams withOperations].
      by rewrite lookup_alter_eq, Hget. }
    split; [exact Hget1|]. split; [reflexivity|].
    intros seq2. eapply handleAction_completed; [exact Htransfer| |exact Hget1|reflexivity].
    cbn [stores operationsByTxId advanced withParams withOperations].
    erewrite (proj1 (proj2 (proj2 (proj2 (replayed_frame _ _ _ _ _ _ _ _ eq_refl))))).
    exact Hop.
Qed.

(** C3. A transfer whose transaction is one of our operations, not yet
    completed, is applied from the operation's planned actions and not
    from its payload: for each planned action, in order, a balance write
    for the sender with the negated amounts, one for the recipient with
    the amounts, and a history write; then the update that completes the
    operation, with the block and the block time, after all of them; then
    only the checkpoint. *)
Theorem pending_operation_replayed (seq : Z) (action : Action) (w : World)
    (transfer : Transfer) (operationId : string) (operation : OperationEntity) :
  op action = ("transfer", Some transfer) ->
  truthy (operationsByTxId (stores w) !! trx_id action) = Some operationId ->
  operations (stores w) !! operationId = Some operation ->
  isCompleted operation = false ->
  let b := action_block action * 10 in
  let t := isoUTC (timestamp action) in
  let assetId := OperationAssetId operation in
  let planned := default [] (operationActions (stores w) !! operationId) in
  let replay (a : OperationActionEntity) :=
    [ BalanceUpsert (FromAddress a) assetId operationId
        (PrimFloat.opp (ActionAmount a)) (PrimFloat.opp (ActionAmountInBaseUnit a)) b;
      LogWrite info "Balance change recorded";
      BalanceUpsert (ToAddress a) assetId operationId
        (ActionAmount a) (ActionAmountInBaseUnit a) b;
      LogWrite info "Balance change recorded";
      HistoryUpsert
        (mkHistory (FromAddress a) (ToAddress a) assetId (ActionAmount a)
           (ActionAmountInBaseUnit a) b t (trx_id action) (RowKey a)
           (Some operationId)) ] in
  exists (now : JS.Date) (w' : World),
    let completion :=
      mkOperationUpdate (Some now) (Some t) (Some b) None None None in
    handleAction' seq action w = (Ok (seq + 1), w')
    /\ trace w'
       = trace w
         ++ [ LogWrite info "transfer action detected";
              GetOperationIdByTxId (trx_id action);
              GetActions operationId;
              OperationGet operationId ]
         ++ concat (replay <$> planned)
         ++ [ OperationUpdateCall operationId completion;
              ParamsUpsert (Some (seq + 1)) None ]
    /\ operations (stores w') !! operationId = Some (mergeOperation completion operation)
    /\ isCompleted (mergeOperation completion operation) = true
    /\ forall payload : Transfer,
         handleAction' seq
           (mkAction (action_block action) (timestamp action) (trx_id action)
              ("transfer", Some payload)) w
         = handleAction' seq action w.
Proof.
  intros Hpayload Hop Hget Hpending b t assetId planned replay.
  assert (Htransfer : transferOf action = Some transfer)
    by (unfold transferOf; by rewrite Hpayload).
  pose proof (handleAction_internal seq action w transfer operationId operation
                Htransfer Hop Hget Hpending) as Hrun.
  cbv zeta in Hrun. rewrite Hpayload in Hrun. cbn [fst] in Hrun.
  fold b t assetId planned in Hrun.
  eexists _, _. cbv zeta. split; [exact Hrun|]. cbn [stores trace].
  split; [tidy; reflexivity|]. split.
  { cbn [operations advanced withParams withOperations].
    by rewrite lookup_alter_eq, Hget. }
  split; [reflexivity|].
  intros payload. rewrite Hrun.
  rewrite (handleAction_internal seq _ w payload operationId operation);
    [reflexivity|reflexivity|exact Hop|exact Hget|exact Hpending].
Qed.

(** C8. The external transfer of "10.5 STEEM" from A to B, without a
    memo, in transaction T1, with STEEM resolved to asset 1 of base-unit
    factor 1000 and B an address: one history write keyed by T1 and the
    action's id, a balance write for A of -10.5 (-10500 in base units) and
    one for B of 10.5 (10500), all three stored, and the checkpoint. *)
Theorem external_transfer_example (seq : Z) (action : Action) (w : World) :
  op action = ("transfer", Some (mkTransfer "A" "B" "10.5 STEEM" "")) ->
  trx_id action = "T1" ->
  truthy (operationsByTxId (stores w) !! "T1") = None ->
  assets (stores w) !! "STEEM" = Some (mkAsset "1" 1000%float) ->
  isSteemAddress "B" = true ->
  parseFloat (Some "10.5") = 10.5%float ->
  let b := action_block action * 10 in
  let entry :=
    mkHistory "A" "B" "1" 10.5%float 10500%float b (isoUTC (timestamp action))
      "T1" (JS.toString seq) (operationsByTxId (stores w) !! "T1") in
  let docs := balanceDocs (balances (stores w)) in
  exists w',
    handleAction' seq action w = (Ok (seq + 1), w')
    /\ trace w'
       = trace w
         ++ [ LogWrite info "transfer action detected";
              GetOperationIdByTxId "T1";
              AssetGet (Some "STEEM");
              HistoryUpsert entry;
              LogWrite info "Transfer recorded";
              BalanceUpsert "A" "1" "T1" (-10.5)%float (-10500)%float b;
              LogWrite info "Balance change recorded";
              BalanceUpsert "B" "1" "T1" 10.5%float 10500%float b;
              LogWrite info "Balance change recorded";
              ParamsUpsert (Some (seq + 1)) None ]
    /\ history (stores w') !! ("T1", JS.toString seq) = Some entry
    /\ balanceDocs (balances (stores w')) !! "A_1_T1"
       = Some (mkBalanceDoc (Some "A") (Some "1") (Some "T1") (Some (-10.5)%float)
                 (Some (-10500)%float) (Some b)
                 (Some (BalanceRepository.isObservable "A" (balances (stores w))))
                 (IsCancelled (default emptyDoc (docs !! "A_1_T1"))))
    /\ balanceDocs (balances (stores w')) !! "B_1_T1"
       = Some (mkBalanceDoc (Some "B") (Some "1") (Some "T1") (Some 10.5%float)
                 (Some 10500%float) (Some b)
                 (Some (BalanceRepository.isObservable "B" (balances (stores w))))
                 (IsCancelled (default emptyDoc (docs !! "B_1_T1")))).
Proof.
  intros Hpayload Htx Hop Hasset Hto Hvalue b entry docs.
  set (transfer := mkTransfer "A" "B" "10.5 STEEM" "") in *.
  assert (Htransfer : transferOf action = Some transfer)
    by (unfold transferOf; by rewrite Hpayload).
  eexists. rewrite handleAction_unfold, Htransfer, Htx, Hpayload.
  rewrite (applyTransfer_external _ _ _ _ _ transfer (mkAsset "1" 1000%float));
    [|exact Hop|exact Hasset|exact Hto].
  change (JS.split (amount transfer) 2 !! 0%nat) with (Some "10.5").
  change (JS.split (amount transfer) 2 !! 1%nat) with (Some "STEEM").
  change (destinationOf' transfer) with "B". change (from transfer) with "A".
  rewrite Hvalue.
  change (toBaseUnit (mkAsset "1" 1000%float) 10.5%float) with 10500%float.
  change (AssetEntityId (mkAsset "1" 1000%float)) with "1".
  cbv zeta. cbn [stores trace fst].
  split; [reflexivity|]. split; [tidy; reflexivity|].
  cbn [stores history balances advanced withParams withBalances withHistory].
  split; [by rewrite lookup_insert_eq|].
  unfold movementBalances. split.
  - rewrite upsert_lookup_ne by discriminate.
    change "A_1_T1" with (balanceId "A" "1" "T1") at 1.
    rewrite upsert_lookup. reflexivity.
  - change "B_1_T1" with (balanceId "B" "1" "T1") at 1.
    rewrite upsert_lookup. rewrite upsert_lookup_ne by discriminate. reflexivity.
Qed.


(** ** The loop *)

Lemma bodyCall_plain (b : Z) (c : Call) :
  bodyCall b c ->
  isPrelude c = false
  /\ forall previous, match c with
                      | GetAccountHistory _ s _ =>
                          match previous with
                          | ParamsUpsert (Some n) None => n =? s
                          | _ => false
                          end
                      | _ => true
                      end = true.
Proof. destruct c; simpl; intros H; try done. Qed.

Lemma persistedBeforeFetch_body (b : Z) (calls : list Call) (c : Call) (rest : list Call) :
  Forall (bodyCall b) calls ->
  (forall account s limit, c <> GetAccountHistory account s limit) ->
  forall previous,
    persistedBeforeFetch previous (calls ++ c :: rest) = persistedBeforeFetch c rest.
Proof.
  intros Hcalls Hc. induction Hcalls as [|x calls Hx _ IH]; intros previous.
  - cbn [app persistedBeforeFetch]. destruct c; try reflexivity. by destruct (Hc account start limit).
  - cbn [app persistedBeforeFetch]. rewrite IH.
    destruct (bodyCall_plain b x Hx) as [_ ->]. reflexivity.
Qed.

Lemma persistedBeforeFetch_end (b : Z) (calls : list Call) :
  Forall (bodyCall b) calls ->
  forall previous, persistedBeforeFetch previous calls = true.
Proof.
  intros Hcalls. induction Hcalls as [|x calls Hx _ IH]; intros previous; [done|].
  cbn [persistedBeforeFetch]. rewrite IH.
  destruct (bodyCall_plain b x Hx) as [_ ->]. reflexivity.
Qed.

Lemma bodyCalls_not_prelude (b : Z) (calls : list Call) :
  Forall (bodyCall b) calls -> Forall (fun c => isPrelude c = false) calls.
Proof.
  intros Hcalls. eapply Forall_impl; [exact Hcalls|].
  intros c Hc. by destruct (bodyCall_plain b c Hc).
Qed.

(** The calls of the loop from [seq]: it opens with the fetch at [seq], and
    every later fetch follows the checkpoint of its sequence. *)
Lemma loop_calls (lastIrreversible : Z) (fuel : nat) :
  forall (seq : Z) (w : World),
    exists calls,
      trace (snd (handleActions_loop' fuel lastIrreversible seq w)) = trace w ++ calls
      /\ Forall (fun c => isPrelude c = false) calls
      /\ (fuel = 0%nat /\ calls = []
          \/ exists rest,
               calls = GetAccountHistory HotWalletAccount seq 0 :: rest
               /\ persistedBeforeFetch (GetAccountHistory HotWalletAccount seq 0) rest
                  = true).
Proof.
  induction fuel as [|fuel IH]; intros seq w.
  - exists []. rewrite app_nil_r. split; [reflexivity|]. split; [constructor|by left].
  - rewrite loop_step. cbv zeta.
    destruct (irreversibleAt' lastIrreversible seq) as [action|].
    + destruct (handleAction_cases seq action
                  (mkWorld (stores w) (trace w ++ [GetAccountHistory HotWalletAccount seq 0])))
        as (out & w2 & calls & line & -> & Hcalls & _ & Hout).
      cbn [trace] in Hout.
      destruct Hout as [(-> & _ & Htrace) | ([e ->] & _ & Htrace)].
      * destruct (IH (seq + 1) w2) as (calls' & -> & Hplain & Hshape).
        rewrite Htrace.
        exists (GetAccountHistory HotWalletAccount seq 0 :: LogWrite info line
                :: calls ++ ParamsUpsert (Some (seq + 1)) None :: calls').
        split; [tidy; by rewrite <- app_assoc|]. split.
        { repeat (apply Forall_cons; split; [reflexivity|]).
          apply Forall_app. split; [by eapply bodyCalls_not_prelude|].
          by apply Forall_cons. }
        right. eexists. split; [reflexivity|].
        cbn [persistedBeforeFetch andb].
        rewrite (persistedBeforeFetch_body _ _ _ _ Hcalls) by done.
        destruct Hshape as [[_ ->]|(rest & -> & Hrest)]; [reflexivity|].
        cbn [persistedBeforeFetch]. by rewrite Z.eqb_refl, Hrest.
      * cbn [snd]. rewrite Htrace.
        exists (GetAccountHistory HotWalletAccount seq 0 :: LogWrite info line :: calls).
        split; [tidy; reflexivity|]. split.
        { repeat (apply Forall_cons; split; [reflexivity|]).
          by eapply bodyCalls_not_prelude. }
        right. eexists. split; [reflexivity|].
        cbn [persistedBeforeFetch andb]. by eapply persistedBeforeFetch_end.
    + exists [GetAccountHistory HotWalletAccount seq 0]. cbn [snd trace].
      split; [reflexivity|]. split; [by repeat constructor|].
      right. by exists [].
Qed.

(** The loop returns at the first sequence that has no irreversible
    action, with the checkpoint at that sequence if it moved. *)
Lemma loop_returns (lastIrreversible : Z) (fuel : nat) :
  forall (seq : Z) (w w' : World),
    handleActions_loop' fuel lastIrreversible seq w = (Ok tt, w') ->
    exists k : nat,
      irreversibleAt' lastIrreversible (seq + Z.of_nat k) = None
      /\ (forall i : nat, (i < k)%nat ->
            is_Some (irreversibleAt' lastIrreversible (seq + Z.of_nat i)))
      /\ (k = 0%nat -> stores w' = stores w)
      /\ ((0 < k)%nat ->
          exists p, params (stores w') = Some p
                    /\ NextActionSequence p = Some (seq + Z.of_nat k))
      /\ last (trace w')
         = Some (GetAccountHistory HotWalletAccount (seq + Z.of_nat k) 0).
Proof.
  induction fuel as [|fuel IH]; intros seq w w'; [discriminate|].
  rewrite loop_step. cbv zeta.
  destruct (irreversibleAt' lastIrreversible seq) as [action|] eqn:Hat.
  - destruct (handleAction_cases seq action
                (mkWorld (stores w) (trace w ++ [GetAccountHistory HotWalletAccount seq 0])))
      as (out & w2 & calls & line & -> & _ & _ & Hout).
    destruct Hout as [(-> & (s & Hstores & _) & _) | ([e ->] & _)]; [|discriminate].
    intros Hloop. destruct (IH _ _ _ Hloop) as (k & Hnone & Hsome & Hzero & Hpos & Hlast).
    exists (S k).
    replace (seq + Z.of_nat (S k)) with (seq + 1 + Z.of_nat k) by lia.
    split; [exact Hnone|]. split; [|split; [discriminate|split; [|exact Hlast]]].
    + intros [|i] Hi.
      * rewrite Z.add_0_r, Hat. by eexists.
      * replace (seq + Z.of_nat (S i)) with (seq + 1 + Z.of_nat i) by lia.
        apply Hsome. lia.
    + intros _. destruct k as [|k].
      * rewrite Hzero, Hstores by done. rewrite Z.add_0_r. apply advanced_sequence.
      * apply Hpos. lia.
  - intros [= <-]. exists 0%nat. rewrite Z.add_0_r. cbn [stores trace].
    split; [exact Hat|]. split; [intros i Hi; lia|]. split; [done|].
    split; [intros Hk; lia|]. apply last_snoc.
Qed.

(** With an iteration more than there are actions to apply, the loop
    ends: it returns or it throws. *)
Lemma loop_ends (lastIrreversible : Z) (k : nat) :
  forall (seq : Z) (w : World) (fuel : nat),
    irreversibleAt' lastIrreversible (seq + Z.of_nat k) = None ->
    (k < fuel)%nat ->
    fst (handleActions_loop' fuel lastIrreversible seq w) <> OutOfFuel.
Proof.
  induction k as [|k IH]; intros seq w [|fuel] Hnone Hfuel; try lia;
    rewrite loop_step; cbv zeta.
  - rewrite Z.add_0_r in Hnone. by rewrite Hnone.
  - destruct (irreversibleAt' lastIrreversible seq) as [action|]; [|done].
    destruct (handleAction_cases seq action
                (mkWorld (stores w) (trace w ++ [GetAccountHistory HotWalletAccount seq 0])))
      as (out & w2 & calls & line & -> & _ & _ & Hout).
    destruct Hout as [(-> & _) | ([e ->] & _)]; [|done].
    apply IH; [|lia].
    by replace (seq + 1 + Z.of_nat k) with (seq + Z.of_nat (S k)) by lia.
Qed.

Lemma bodyCalls_checkpoint (b : Z) (only : bool) (calls : list Call) :
  Forall (bodyCall b) calls -> Forall (checkpointCall only) calls.
Proof.
  intros Hcalls. eapply Forall_impl; [exact Hcalls|]. by intros [].
Qed.

(** The loop writes the checkpoint's sequence only. *)
Lemma loop_watermark (lastIrreversible : Z) (fuel : nat) :
  forall (seq : Z) (w : World),
    exists calls,
      trace (snd (handleActions_loop' fuel lastIrreversible seq w)) = trace w ++ calls
      /\ Forall (checkpointCall true) calls
      /\ storedWatermark (stores (snd (handleActions_loop' fuel lastIrreversible seq w)))
         = storedWatermark (stores w).
Proof.
  induction fuel as [|fuel IH]; intros seq w.
  - exists []. rewrite app_nil_r. by repeat split.
  - rewrite loop_step. cbv zeta.
    destruct (irreversibleAt' lastIrreversible seq) as [action|].
    + destruct (handleAction_cases seq action
                  (mkWorld (stores w) (trace w ++ [GetAccountHistory HotWalletAccount seq 0])))
        as (out & w2 & calls & line & -> & Hcalls & _ & Hout).
      cbn [trace stores] in Hout.
      destruct Hout as [(-> & (s & Hstores & Hparams) & Htrace)
                       | ([e ->] & Hparams & Htrace)].
      * destruct (IH (seq + 1) w2) as (calls' & -> & Hshape & ->).
        rewrite Htrace, Hstores.
        exists (GetAccountHistory HotWalletAccount seq 0 :: LogWrite info line
                :: calls ++ ParamsUpsert (Some (seq + 1)) None :: calls').
        split; [tidy; by rewrite <- app_assoc|]. split.
        { repeat (apply Forall_cons; split; [exact I|]).
          apply Forall_app. split; [by eapply bodyCalls_checkpoint|].
          apply Forall_cons. split; [|exact Hshape]. simpl. eauto. }
        unfold storedWatermark, advanced. cbn [params withParams].
        rewrite Hparams. unfold insertOrMerge. by destruct (params (stores w)).
      * cbn [snd]. rewrite Htrace.
        exists (GetAccountHistory HotWalletAccount seq 0 :: LogWrite info line :: calls).
        split; [tidy; reflexivity|]. split.
        { repeat (apply Forall_cons; split; [exact I|]).
          by eapply bodyCalls_checkpoint. }
        unfold storedWatermark. by rewrite Hparams.
    + exists [GetAccountHistory HotWalletAccount seq 0]. cbn [snd trace stores].
      split; [reflexivity|]. split; [by repeat constructor|reflexivity].
Qed.

Lemma handleActions_unfold (fuel : nat) (w : World) :
  handleActions' fuel w
  = match handleActions_loop' fuel last_irreversible_block_num
            (nextActionSequenceOf (params (stores w)))
            (mkWorld (stores w) (trace w ++ [ParamsGet; GetDynamicGlobalProperties])) with
    | (Ok _, w') => (Ok last_irreversible_block_num, w')
    | (Throw e, w') => (Throw e, w')
    | (OutOfFuel, w') => (OutOfFuel, w')
    end.
Proof. unfold handleActions. run. tidy. reflexivity. Qed.

Lemma irreversibleAt_None (lastIrreversible seq : Z) :
  irreversibleAt' lastIrreversible seq = None
  <-> actionOf (getAccountHistoryAsync HotWalletAccount seq 0) seq = None
      \/ exists action,
           actionOf (getAccountHistoryAsync HotWalletAccount seq 0) seq = Some action
           /\ lastIrreversible < action_block action.
Proof.
  unfold irreversibleAt.
  destruct (actionOf _ _) as [action|]; [|by split; [left|]].
  destruct (Z.leb_spec (action_block action) lastIrreversible); split.
  - discriminate.
  - intros [|(a & [= <-] & Hlt)]; [discriminate|lia].
  - intros _. right. by exists action.
  - reflexivity.
Qed.

(** The action the loop finds at a sequence, by the endpoint's answer:
    the first entry of the answer, if its index is the sequence asked for
    and its block is not after the last irreversible one. *)
Lemma irreversibleAt_Some (lastIrreversible seq : Z) (action : Action) :
  irreversibleAt' lastIrreversible seq = Some action
  <-> exists rest,
        getAccountHistoryAsync HotWalletAccount seq 0 = Some ((seq, action) :: rest)
        /\ action_block action <= lastIrreversible.
Proof.
  unfold irreversibleAt, actionOf.
  destruct (getAccountHistoryAsync HotWalletAccount seq 0) as [[|[i a] rest]|].
  - split; [discriminate|]. by intros (? & [=] & _).
  - destruct (Z.eqb_spec i seq) as [->|Hne].
    + destruct (Z.leb_spec (action_block a) lastIrreversible) as [Hle|Hgt]; split.
      * intros [= ->]. by exists rest.
      * by intros (? & [= -> _] & _).
      * discriminate.
      * intros (? & [= -> _] & Hle). lia.
    + split; [discriminate|]. intros (? & [= ? _] & _). done.
  - split; [discriminate|]. by intros (? & [=] & _).
Qed.

Lemma irreversibleAt_endpoint_None (lastIrreversible seq : Z) :
  irreversibleAt' lastIrreversible seq = None
  <-> getAccountHistoryAsync HotWalletAccount seq 0 = None
      \/ getAccountHistoryAsync HotWalletAccount seq 0 = Some []
      \/ exists i a rest,
           getAccountHistoryAsync HotWalletAccount seq 0 = Some ((i, a) :: rest)
           /\ (i <> seq \/ lastIrreversible < action_block a).
Proof.
  destruct (irreversibleAt' lastIrreversible seq) as [action|] eqn:Hat.
  - apply irreversibleAt_Some in Hat as (rest & Hanswer & Hle). rewrite Hanswer.
    split; [discriminate|].
    intros [[=]|[[=]|(i & a & r & [= -> -> _] & [?|?])]]; [done|lia].
  - split; [|done]. intros _.
    destruct (getAccountHistoryAsync HotWalletAccount seq 0) as [[|[i a] rest]|] eqn:Hanswer;
      [by right; left| |by left].
    right. right. exists i, a, rest. split; [reflexivity|].
    destruct (decide (i = seq)) as [->|Hne]; [|by left]. right.
    destruct (Z.lt_ge_cases lastIrreversible (action_block a)) as [Hlt|Hge]; [exact Hlt|].
    assert (Hsome : irreversibleAt' lastIrreversible seq = Some a)
      by (apply irreversibleAt_Some; exists rest; by rewrite Hanswer).
    congruence.
Qed.

(** C1. A tick of [handleActions] reads the checkpoint and the global
    properties, once, and fetches first at the stored sequence, 0 if none
    is stored.  An iteration at a sequence that has no action, or whose
    action is in a block after the last irreversible one, ends the loop
    with no error and no write; at any other sequence the action is
    applied, and unless that throws, the checkpoint is persisted with the
    next sequence before the loop goes on to fetch it -- in the whole
    trace, every fetch but the first comes right after the checkpoint of
    its sequence.  A tick that returns returns the last irreversible block
    number, having stopped at the first sequence with no irreversible
    action; and a tick given more iterations than there are actions to
    apply does end.  The action at a sequence is what the endpoint
    answers: there is one exactly when the answer to the fetch at that
    sequence begins with an entry of that very index, and the loop stops
    exactly when the answer is null or empty, or begins with an entry of
    another index or of a block after the last irreversible one. *)
Theorem handleActions_cursor (w : World) :
  let lib := last_irreversible_block_num in
  let start := nextActionSequenceOf (params (stores w)) in
  (params (stores w) = None -> start = 0)
  /\ (forall p, params (stores w) = Some p -> start = default 0 (NextActionSequence p))
  /\ (forall fuel, exists rest,
        trace (snd (handleActions' (S fuel) w))
        = trace w ++ ParamsGet :: GetDynamicGlobalProperties
                  :: GetAccountHistory HotWalletAccount start 0 :: rest
        /\ Forall (fun c => isPrelude c = false) rest
        /\ persistedBeforeFetch (GetAccountHistory HotWalletAccount start 0) rest = true)
  /\ (forall fuel seq v,
        irreversibleAt' lib seq = None ->
        handleActions_loop' (S fuel) lib seq v
        = (Ok tt, mkWorld (stores v)
                    (trace v ++ [GetAccountHistory HotWalletAccount seq 0])))
  /\ (forall fuel seq v action,
        irreversibleAt' lib seq = Some action ->
        let v1 := mkWorld (stores v)
                    (trace v ++ [GetAccountHistory HotWalletAccount seq 0]) in
        (exists e v2,
           handleAction' seq action v1 = (Throw e, v2)
           /\ handleActions_loop' (S fuel) lib seq v = (Throw e, v2)
           /\ params (stores v2) = params (stores v))
        \/ (exists v2 calls,
              handleAction' seq action v1 = (Ok (seq + 1), v2)
              /\ trace v2 = trace v1 ++ calls ++ [ParamsUpsert (Some (seq + 1)) None]
              /\ (exists p, params (stores v2) = Some p
                            /\ NextActionSequence p = Some (seq + 1))
              /\ handleActions_loop' (S fuel) lib seq v
                 = handleActions_loop' fuel lib (seq + 1) v2))
  /\ (forall seq,
        irreversibleAt' lib seq = None
        <-> actionOf (getAccountHistoryAsync HotWalletAccount seq 0) seq = None
            \/ exists action,
                 actionOf (getAccountHistoryAsync HotWalletAccount seq 0) seq = Some action
                 /\ lib < action_block action)
  /\ (forall seq action,
        irreversibleAt' lib seq = Some action
        <-> exists rest,
              getAccountHistoryAsync HotWalletAccount seq 0 = Some ((seq, action) :: rest)
              /\ action_block action <= lib)
  /\ (forall seq,
        irreversibleAt' lib seq = None
        <-> getAccountHistoryAsync HotWalletAccount seq 0 = None
            \/ getAccountHistoryAsync HotWalletAccount seq 0 = Some []
            \/ exists i a rest,
                 getAccountHistoryAsync HotWalletAccount seq 0 = Some ((i, a) :: rest)
                 /\ (i <> seq \/ lib < action_block a))
  /\ (forall fuel seq v,
        handleActions_loop' (S fuel) lib seq v
        = (Ok tt, mkWorld (stores v)
                    (trace v ++ [GetAccountHistory HotWalletAccount seq 0]))
        <-> getAccountHistoryAsync HotWalletAccount seq 0 = None
            \/ getAccountHistoryAsync HotWalletAccount seq 0 = Some []
            \/ exists i a rest,
                 getAccountHistoryAsync HotWalletAccount seq 0 = Some ((i, a) :: rest)
                 /\ (i <> seq \/ lib < action_block a))
  /\ (forall fuel r w',
        handleActions' fuel w = (Ok r, w') ->
        r = lib
        /\ exists k : nat,
             irreversibleAt' lib (start + Z.of_nat k) = None
             /\ (forall i : nat, (i < k)%nat ->
                   is_Some (irreversibleAt' lib (start + Z.of_nat i)))
             /\ (k = 0%nat -> stores w' = stores w)
             /\ ((0 < k)%nat ->
                 exists p, params (stores w') = Some p
                           /\ NextActionSequence p = Some (start + Z.of_nat k)))
  /\ (forall (k fuel : nat),
        irreversibleAt' lib (start + Z.of_nat k) = None ->
        (k < fuel)%nat ->
        fst (handleActions' fuel w) <> OutOfFuel).
Proof.
  intros lib start. subst lib.
  split; [by intros Hnone; subst start; rewrite Hnone|].
  split; [by intros p Hp; subst start; rewrite Hp|].
  split.
  { intros fuel. rewrite handleActions_unfold. fold start.
    destruct (loop_calls last_irreversible_block_num (S fuel) start
                (mkWorld (stores w) (trace w ++ [ParamsGet; GetDynamicGlobalProperties])))
      as (calls & Htrace & Hplain & Hshape).
    destruct Hshape as [[? _]|(rest & -> & Hrest)]; [discriminate|].
    exists rest. apply Forall_cons in Hplain as [_ Hplain].
    split; [|by split].
    destruct (handleActions_loop' _ _ _ _) as [[[]|e|] w']; cbn [snd] in *;
      rewrite Htrace; cbn [trace]; by rewrite <- app_assoc. }
  split.
  { intros fuel seq v Hnone. by rewrite loop_step, Hnone. }
  split.
  { intros fuel seq v action Hat v1. rewrite loop_step, Hat. cbv zeta. fold v1.
    destruct (handleAction_cases seq action v1)
      as (out & v2 & calls & line & -> & _ & _ & Hout).
    destruct Hout as [(-> & (s & Hstores & _) & Ht) | ([e ->] & Hparams & _)].
    - right. exists v2, (LogWrite info line :: calls).
      split; [reflexivity|]. split; [exact Ht|]. split; [|reflexivity].
      rewrite Hstores. apply advanced_sequence.
    - left. exists e, v2. by repeat split. }
  split; [intros seq; apply irreversibleAt_None|].
  split; [intros seq action; apply irreversibleAt_Some|].
  split; [intros seq; apply irreversibleAt_endpoint_None|].
  split.
  { intros fuel seq v. rewrite <- irreversibleAt_endpoint_None. split.
    - intros Hstop. rewrite loop_step in Hstop. cbv zeta in Hstop.
      destruct (irreversibleAt' last_irreversible_block_num seq) as [action|]; [|done].
      exfalso.
      destruct (handleAction_cases seq action
                  (mkWorld (stores v)
                     (trace v ++ [GetAccountHistory HotWalletAccount seq 0])))
        as (out & v2 & calls & line & Hrun & _ & _ & Hout).
      rewrite Hrun in Hstop. cbn [trace] in Hout.
      destruct Hout as [(-> & _ & Ht) | ([e ->] & _ & _)]; [|discriminate].
      destruct (loop_calls last_irreversible_block_num fuel (seq + 1) v2)
        as (calls' & Hcalls' & _).
      rewrite Hstop in Hcalls'. cbn [snd trace] in Hcalls'.
      rewrite Ht, <- !app_assoc in Hcalls'.
      apply app_inv_head in Hcalls'.
      apply (f_equal length) in Hcalls'.
      repeat (rewrite ?length_app, ?length_cons in Hcalls'; cbn [length app] in Hcalls').
      lia.
    - intros Hnone. by rewrite loop_step, Hnone. }
  split.
  { intros fuel r w'. rewrite handleActions_unfold. fold start.
    destruct (handleActions_loop' _ _ _ _) as [[[]|e|] w1] eqn:Hloop; try discriminate.
    intros [= <- <-]. split; [reflexivity|].
    destruct (loop_returns _ _ _ _ _ Hloop) as (k & Hnone & Hsome & Hzero & Hpos & _).
    exists k. by repeat split. }
  intros k fuel Hnone Hfuel. rewrite handleActions_unfold. fold start.
  pose proof (loop_ends last_irreversible_block_num k start
                (mkWorld (stores w) (trace w ++ [ParamsGet; GetDynamicGlobalProperties]))
                fuel Hnone Hfuel) as Hends.
  destruct (handleActions_loop' _ _ _ _) as [[[]|e|] w1]; done.
Qed.

(** A tick of [handleActions] writes the checkpoint's sequence only. *)
Lemma handleActions_watermark (fuel : nat) (w : World) :
  exists calls,
    trace (snd (handleActions' fuel w)) = trace w ++ calls
    /\ Forall (checkpointCall true) calls
    /\ storedWatermark (stores (snd (handleActions' fuel w)))
       = storedWatermark (stores w).
Proof.
  rewrite handleActions_unfold.
  match goal with |- context [handleActions_loop' fuel ?l ?s ?w0] =>
    destruct (loop_watermark l fuel s w0) as (calls & Htrace & Hshape & Hmark);
    destruct (handleActions_loop' fuel l s w0) as [[[]|e|] w1]
  end; cbn [snd stores trace] in *;
  (exists (ParamsGet :: GetDynamicGlobalProperties :: calls);
   split; [rewrite Htrace; tidy; reflexivity|];
   split; [by repeat (apply Forall_cons; split; [exact I|])|exact Hmark]).
Qed.

End Scanner.

(** * The expiry sweep *)

Lemma isFailed_expiry (now : JS.Date) (o : OperationEntity) :
  isFailed (mergeOperation (expiry now) o) = true
  /\ OperationErrorCode (mergeOperation (expiry now) o) = Some buildingShouldBeRepeated
  /\ FailTime (mergeOperation (expiry now) o) = Some now
  /\ CompletionTime (mergeOperation (expiry now) o) = CompletionTime o.
Proof. by repeat split. Qed.

Section Expiry.

Context (isoUTC : string -> JS.Date) (clock : nat -> JS.Date).
Context (getBlockAsync : Z -> option BlockHeader).
Context (geOperationIdByExpiryTime :
           gmap string OperationEntity -> JS.Date -> JS.Date -> list string).

Local Abbreviation failExpired' := (failExpired clock).
Local Abbreviation expireStep' := (expireStep clock).
Local Abbreviation handleExpired' :=
  (handleExpired isoUTC clock getBlockAsync geOperationIdByExpiryTime).

Lemma failExpired_run (ids : list string) (w : World) :
  failExpired' ids w = (Ok tt, foldl expireStep' w ids).
Proof.
  unfold failExpired. apply forEach_run. clear w. intros id w.
  unfold expireStep, isPending, expiry. run.
  destruct (operations (stores w) !! id) as [o|]; [|reflexivity].
  destruct (isCompleted o), (isFailed o); cbn [negb andb]; run; tidy; reflexivity.
Qed.

Lemma isPending_lookup (s s' : Stores) (id : string) :
  operations s' !! id = operations s !! id -> isPending s' id = isPending s id.
Proof. unfold isPending. by intros ->. Qed.

Lemma isPending_failed (s : Stores) (id : string) (now : JS.Date) (o : OperationEntity) :
  operations s !! id = Some (mergeOperation (expiry now) o) -> isPending s id = false.
Proof. unfold isPending. intros ->. apply andb_false_r. Qed.

(** One step of the sweep. *)
Lemma expireStep_spec (w : World) (x : string) :
  let ops := operations (stores w) in
  let ops' := operations (stores (expireStep' w x)) in
  exists calls,
    trace (expireStep' w x) = trace w ++ calls
    /\ Forall (fun c => isSweepCall c = true) calls
    /\ withOperations ops' (stores w) = stores (expireStep' w x)
    /\ (forall id, id <> x -> ops' !! id = ops !! id /\ updatesOf id calls = [])
    /\ (isPending (stores w) x = false ->
        ops' = ops /\ forall id, updatesOf id calls = [])
    /\ (isPending (stores w) x = true ->
        exists now o, ops !! x = Some o
                      /\ ops' !! x = Some (mergeOperation (expiry now) o)
                      /\ updatesOf x calls = [expiry now]).
Proof.
  cbv zeta. unfold expireStep.
  destruct (isPending (stores w) x) eqn:Hpending;
    cbn [stores trace operations withOperations]; eexists;
    (split; [rewrite <- ?app_assoc; reflexivity|]).
  - split; [by repeat constructor|]. split; [reflexivity|]. split; [|split; [discriminate|]].
    + intros id Hne. split; [by rewrite lookup_alter_ne|].
      unfold updatesOf. cbn. by rewrite bool_decide_eq_false_2.
    + intros _. unfold isPending in Hpending.
      destruct (operations (stores w) !! x) as [o|] eqn:Hget; [|discriminate].
      eexists _, o. split; [reflexivity|]. split; [by rewrite lookup_alter_eq, Hget|].
      unfold updatesOf. cbn. by rewrite bool_decide_eq_true_2.
  - split; [by repeat constructor|]. split; [by destruct (stores w)|].
    split; [|split; [|discriminate]]; by intros.
Qed.

(** What a sweep over [ids] does: an operation that is pending is failed,
    once, at the first place it has in [ids]; any other is left alone. *)
Lemma sweep_spec (ids : list string) :
  forall w : World,
    exists calls,
      trace (foldl expireStep' w ids) = trace w ++ calls
      /\ Forall (fun c => isSweepCall c = true) calls
      /\ withOperations (operations (stores (foldl expireStep' w ids))) (stores w)
         = stores (foldl expireStep' w ids)
      /\ forall id,
           let ops := operations (stores w) in
           let ops' := operations (stores (foldl expireStep' w ids)) in
           (isPending (stores w) id = false ->
            ops' !! id = ops !! id /\ updatesOf id calls = [])
           /\ (id ∉ ids -> ops' !! id = ops !! id /\ updatesOf id calls = [])
           /\ (id ∈ ids -> isPending (stores w) id = true ->
               exists now o, ops !! id = Some o
                             /\ ops' !! id = Some (mergeOperation (expiry now) o)
                             /\ updatesOf id calls = [expiry now]).
Proof.
  induction ids as [|x ids IH]; intros w.
  - exists []. cbn [foldl]. rewrite app_nil_r.
    split; [reflexivity|]. split; [constructor|]. split; [by destruct (stores w)|].
    intros id. cbv zeta. split; [done|]. split; [done|]. by intros ?%elem_of_nil.
  - cbn [foldl].
    destruct (expireStep_spec w x) as (cx & Htx & Hsx & Hfx & Hother & Hidle & Hfail).
    destruct (IH (expireStep' w x)) as (cs & Hts & Hss & Hfs & Hrest).
    exists (cx ++ cs). split; [by rewrite Hts, Htx, app_assoc|].
    split; [by apply Forall_app|].
    split; [by rewrite <- Hfs, <- Hfx|].
    intros id. cbv zeta. destruct (Hrest id) as (Hrest_idle & Hrest_out & Hrest_in).
    unfold updatesOf in *. rewrite omap_app.
    destruct (decide (id = x)) as [->|Hne].
    + destruct (isPending (stores w) x) eqn:Hpending.
      * destruct (Hfail eq_refl) as (now & o & Hget & Hget' & Hupd).
        destruct (Hrest_idle (isPending_failed _ _ _ _ Hget')) as [Hsame Hnone].
        split; [discriminate|]. split; [intros Hnot; exfalso; apply Hnot; by left|].
        intros _ _. exists now, o. by rewrite Hsame, Hupd, Hnone.
      * destruct (Hidle eq_refl) as [Hops Hnone].
        assert (Hidle1 : isPending (stores (expireStep' w x)) x = false)
          by (rewrite <- Hpending; apply isPending_lookup; by rewrite Hops).
        destruct (Hrest_idle Hidle1) as [Hsame Hnone1].
        rewrite Hsame, Hops, Hnone, Hnone1.
        split; [done|]. split; [done|]. discriminate.
    + destruct (Hother id Hne) as [Hstep Hnone]. rewrite Hnone. cbn [app].
      assert (Hpend : isPending (stores (expireStep' w x)) id = isPending (stores w) id)
        by (by apply isPending_lookup).
      rewrite Hpend in *. rewrite <- Hstep.
      split; [exact Hrest_idle|]. split.
      * intros Hnot. apply Hrest_out. intros Hin. apply Hnot. by right.
      * intros [?|Hin]%elem_of_cons; [done|]. by apply Hrest_in.
Qed.

Lemma handleExpired_run (n : Z) (w : World) (header : BlockHeader) :
  getBlockAsync n = Some header ->
  let t := isoUTC (block_timestamp header) in
  let since := lastProcessedOf (params (stores w)) in
  let ids := geOperationIdByExpiryTime (operations (stores w)) since t in
  let swept :=
    foldl expireStep'
      (mkWorld (stores w)
         (trace w ++ [ParamsGet; GetBlock n; GeOperationIdByExpiryTime since t])) ids in
  handleExpired' n w
  = (Ok tt,
     mkWorld
       (withParams (insertOrMerge (mkParamsEntity None (Some t)) (params (stores swept)))
          (stores swept))
       (trace swept ++ [ParamsUpsert None (Some t)])).
Proof.
  intros Hblock t since ids swept. unfold handleExpired. run. rewrite Hblock. run.
  rewrite failExpired_run. fold since t ids. tidy. reflexivity.
Qed.

Lemma handleExpired_throws (n : Z) (w : World) :
  getBlockAsync n = None ->
  exists e,
    handleExpired' n w
    = (Throw e, mkWorld (stores w) (trace w ++ [ParamsGet; GetBlock n])).
Proof.
  intros Hblock. eexists. unfold handleExpired. run. rewrite Hblock. run. tidy.
  reflexivity.
Qed.

(** A sweep updates no operation that is completed or failed already. *)
Lemma handleExpired_idle (n : Z) (w : World) :
  exists calls,
    trace (snd (handleExpired' n w)) = trace w ++ calls
    /\ forall id, isPending (stores w) id = false -> updatesOf id calls = [].
Proof.
  destruct (getBlockAsync n) as [header|] eqn:Hblock.
  - rewrite (handleExpired_run n w header Hblock). cbv zeta. cbn [snd trace].
    match goal with |- context [foldl expireStep' ?w0 ?ids] =>
      destruct (sweep_spec ids w0) as (calls & -> & _ & _ & Hids) end.
    cbn [trace stores] in *. eexists. split; [rewrite <- !app_assoc; reflexivity|].
    intros id Hidle. destruct (Hids id) as [Hnone _].
    unfold updatesOf in *. rewrite !omap_app. cbn.
    by rewrite (proj2 (Hnone Hidle)).
  - destruct (handleExpired_throws n w Hblock) as [e ->]. cbn [snd trace].
    eexists. split; [reflexivity|]. done.
Qed.

(** C5. A sweep at block [n] reads the checkpoint and the block, asks for
    the operations that expire between the watermark stored (the epoch if
    there is none) and the block's time, fails -- with the expiry error
    code and a fail time, once -- those of them that are stored and
    neither completed nor failed, touches no other operation, and then
    persists the block's time as the watermark.  No sweep after it fails
    any of the operations it failed. *)
Theorem expired_operations_failed (n : Z) (w : World) (header : BlockHeader) :
  getBlockAsync n = Some header ->
  let t := isoUTC (block_timestamp header) in
  let since := lastProcessedOf (params (stores w)) in
  let ids := geOperationIdByExpiryTime (operations (stores w)) since t in
  (params (stores w) = None -> since = 0)
  /\ (forall p, params (stores w) = Some p ->
        since = default 0 (LastProcessedIrreversibleBlockTime p))
  /\ exists (w' : World) (calls : list Call),
       handleExpired' n w = (Ok tt, w')
       /\ trace w'
          = trace w ++ [ParamsGet; GetBlock n; GeOperationIdByExpiryTime since t]
            ++ calls ++ [ParamsUpsert None (Some t)]
       /\ Forall (fun c => isSweepCall c = true) calls
       /\ (forall id,
             (id ∈ ids -> isPending (stores w) id = true ->
              exists now o,
                operations (stores w) !! id = Some o
                /\ updatesOf id calls = [expiry now]
                /\ operations (stores w') !! id = Some (mergeOperation (expiry now) o)
                /\ isFailed (mergeOperation (expiry now) o) = true
                /\ OperationErrorCode (mergeOperation (expiry now) o)
                   = Some buildingShouldBeRepeated
                /\ FailTime (mergeOperation (expiry now) o) = Some now)
             /\ (id ∉ ids \/ isPending (stores w) id = false ->
                 updatesOf id calls = []
                 /\ operations (stores w') !! id = operations (stores w) !! id))
       /\ storedWatermark (stores w') = Some t
       /\ storedSequence (stores w') = storedSequence (stores w)
       /\ balances (stores w') = balances (stores w)
       /\ history (stores w') = history (stores w)
       /\ forall n2, exists calls2,
            trace (snd (handleExpired' n2 w')) = trace w' ++ calls2
            /\ forall id, updatesOf id calls <> [] -> updatesOf id calls2 = [].
Proof.
  intros Hblock t since ids.
  split; [by intros Hnone; subst since; rewrite Hnone|].
  split; [by intros p Hp; subst since; rewrite Hp|].
  pose proof (handleExpired_run n w header Hblock) as Hrun. cbv zeta in Hrun.
  fold t since ids in Hrun.
  destruct (sweep_spec ids
              (mkWorld (stores w)
                 (trace w ++ [ParamsGet; GetBlock n; GeOperationIdByExpiryTime since t])))
    as (calls & Htrace & Hsweep & Hframe & Hids).
  cbn [stores trace] in Htrace, Hframe, Hids.
  eexists _, calls. split; [exact Hrun|]. cbn [stores trace].
  split; [by rewrite Htrace, <- !app_assoc|]. split; [exact Hsweep|].
  set (swept := foldl expireStep' _ ids) in *.
  assert (Hops : forall id,
            operations (withParams
                          (insertOrMerge (mkParamsEntity None (Some t))
                             (params (stores swept))) (stores swept)) !! id
            = operations (stores swept) !! id) by done.
  split.
  { intros id. destruct (Hids id) as (Hidle & Hout & Hin). split.
    - intros Hi Hp. destruct (Hin Hi Hp) as (now & o & Hget & Hget' & Hupd).
      exists now, o. rewrite Hops. by repeat split.
    - rewrite Hops. intros [Hnot|Hnot]; [destruct (Hout Hnot)|destruct (Hidle Hnot)];
        by split. }
  split.
  { unfold storedWatermark. cbn [params withParams]. unfold insertOrMerge.
    by destruct (params (stores swept)). }
  split.
  { unfold storedSequence. cbn [params withParams]. rewrite <- Hframe.
    cbn [params withOperations]. unfold insertOrMerge. by destruct (params (stores w)). }
  split; [by rewrite <- Hframe|]. split; [by rewrite <- Hframe|].
  intros n2.
  match goal with |- context [handleExpired' n2 ?w1] =>
    destruct (handleExpired_idle n2 w1) as (calls2 & Htrace2 & Hidle2) end.
  exists calls2. split; [exact Htrace2|]. intros id Hupdated. apply Hidle2.
  cbn [stores]. destruct (Hids id) as (Hidle & Hout & Hin).
  destruct (isPending (stores w) id) eqn:Hp;
    [|by destruct (Hidle eq_refl) as [_ ?]].
  destruct (decide (id ∈ ids)) as [Hi|Hi]; [|by destruct (Hout Hi) as [_ ?]].
  destruct (Hin Hi eq_refl) as (now & o & _ & Hget' & _).
  eapply isPending_failed. rewrite Hops. exact Hget'.
Qed.

(** A sweep writes the checkpoint's watermark only. *)
Lemma handleExpired_sequence (n : Z) (w : World) :
  exists calls,
    trace (snd (handleExpired' n w)) = trace w ++ calls
    /\ Forall (checkpointCall false) calls
    /\ storedSequence (stores (snd (handleExpired' n w))) = storedSequence (stores w).
Proof.
  destruct (getBlockAsync n) as [header|] eqn:Hblock.
  - rewrite (handleExpired_run n w header Hblock). cbv zeta. cbn [snd trace stores].
    match goal with |- context [foldl expireStep' ?w0 ?ids] =>
      destruct (sweep_spec ids w0) as (calls & -> & Hsweep & Hframe & _) end.
    cbn [trace stores] in *. eexists. split; [rewrite <- !app_assoc; reflexivity|].
    split.
    + cbn [app]. repeat (apply Forall_cons; split; [exact I|]).
      apply Forall_app. split.
      * eapply Forall_impl; [exact Hsweep|]. by intros [].
      * repeat constructor. simpl. eauto.
    + unfold storedSequence. cbn [params withParams]. rewrite <- Hframe.
      cbn [params withOperations]. unfold insertOrMerge. by destruct (params (stores w)).
  - destruct (handleExpired_throws n w Hblock) as [e ->]. cbn [snd trace stores].
    eexists. split; [reflexivity|]. split; [by repeat constructor|reflexivity].
Qed.

End Expiry.

(** * The checkpoint's two fields *)

(** C10. [handleActions] persists the checkpoint with the sequence alone
    and [handleExpired] with the watermark alone, through the one
    [upsert]: the entity written has the other field undefined, and the
    row stored after the write has the field written and, for the other
    field, what it had before.  So a tick of [handleActions] leaves the
    watermark as it is, and a sweep the sequence. *)
Theorem checkpoint_fields_independent
    (HotWalletAccount ADDRESS_SEPARATOR : string)
    (isSteemAddress : string -> bool) (isoUTC : string -> JS.Date)
    (parseFloat : option string -> float) (clock : nat -> JS.Date)
    (last_irreversible_block_num : Z)
    (getAccountHistoryAsync : string -> Z -> Z -> option (list (Z * Action)))
    (getBlockAsync : Z -> option BlockHeader)
    (geOperationIdByExpiryTime :
       gmap string OperationEntity -> JS.Date -> JS.Date -> list string)
    (w : World) :
  (forall n,
     let w1 := snd (ParamsRepository.upsert (Some n) None w) in
     trace w1 = trace w ++ [ParamsUpsert (Some n) None]
     /\ params (stores w1)
        = insertOrMerge (mkParamsEntity (Some n) None) (params (stores w))
     /\ storedSequence (stores w1) = Some n
     /\ storedWatermark (stores w1) = storedWatermark (stores w))
  /\ (forall t,
        let w1 := snd (ParamsRepository.upsert None (Some t) w) in
        trace w1 = trace w ++ [ParamsUpsert None (Some t)]
        /\ params (stores w1)
           = insertOrMerge (mkParamsEntity None (Some t)) (params (stores w))
        /\ storedWatermark (stores w1) = Some t
        /\ storedSequence (stores w1) = storedSequence (stores w))
  /\ (forall fuel,
        let w1 := snd (handleActions HotWalletAccount ADDRESS_SEPARATOR isSteemAddress
                         isoUTC parseFloat clock last_irreversible_block_num
                         getAccountHistoryAsync fuel w) in
        exists calls,
          trace w1 = trace w ++ calls
          /\ Forall (checkpointCall true) calls
          /\ storedWatermark (stores w1) = storedWatermark (stores w))
  /\ (forall n,
        let w1 := snd (handleExpired isoUTC clock getBlockAsync
                         geOperationIdByExpiryTime n w) in
        exists calls,
          trace w1 = trace w ++ calls
          /\ Forall (checkpointCall false) calls
          /\ storedSequence (stores w1) = storedSequence (stores w)).
Proof.
  split; [|split; [|split]].
  - intros n. cbn. unfold storedSequence, storedWatermark, insertOrMerge. cbn.
    by destruct (params (stores w)).
  - intros t. cbn. unfold storedSequence, storedWatermark, insertOrMerge. cbn.
    by destruct (params (stores w)).
  - intros fuel. apply handleActions_watermark.
  - intros n. apply handleExpired_sequence.
Qed.

(** * The theorems at the demo instance *)

Lemma completed_operation_not_reapplied_witness :
  transferOf demoTransferAction = Some demoTransfer
  /\ isCompleted demoCompleted = true
  /\ demoHandleAction 1 demoTransferAction (mkWorld (demoOperationStores demoCompleted) [])
     = (Ok 2,
        mkWorld (advanced 1 (demoOperationStores demoCompleted))
          [ LogWrite info "transfer action detected";
            GetOperationIdByTxId "T1"; GetActions "op1"; OperationGet "op1";
            ParamsUpsert (Some 2) None ]).
Proof.
  split; [reflexivity|]. split; [reflexivity|].
  apply (completed_operation_not_reapplied "$" demoIsSteemAddress (fun _ => 0)
           demoParseFloat (fun n => Z.of_nat n) 1 demoTransferAction
           (mkWorld (demoOperationStores demoCompleted) []) demoTransfer "op1"
           demoCompleted);
    reflexivity.
Defined.

(** C2, as stated, fails for an operation that is terminal because it
    failed: the body is guarded by [isCompleted] only.  The operation of
    transaction T1, failed and not completed, is applied when the transfer
    is observed -- six ledger writes -- and is then both failed and
    completed. *)
Lemma failed_operation_reapplied :
  isFailed demoFailed = true
  /\ isCompleted demoFailed = false
  /\ exists w' operation,
       demoHandleAction 1 demoTransferAction (mkWorld (demoOperationStores demoFailed) [])
       = (Ok 2, w')
       /\ List.filter isLedgerWrite (trace w')
          = [ BalanceUpsert "A" "1" "op1" (-10.5)%float (-10500)%float 80;
              BalanceUpsert "B" "1" "op1" 10.5%float 10500%float 80;
              HistoryUpsert (mkHistory "A" "B" "1" 10.5%float 10500%float 80 0 "T1" "0"
                               (Some "op1"));
              BalanceUpsert "A" "1" "op1" (-2)%float (-2000)%float 80;
              BalanceUpsert "C" "1" "op1" 2%float 2000%float 80;
              HistoryUpsert (mkHistory "A" "C" "1" 2%float 2000%float 80 0 "T1" "1"
                               (Some "op1")) ]
       /\ size (balanceDocs (balances (stores w'))) = 3%nat
       /\ operations (stores w') !! "op1" = Some operation
       /\ isFailed operation = true
       /\ isCompleted operation = true.
Proof.
  split; [reflexivity|]. split; [reflexivity|].
  eexists _, _. split; [vm_compute; reflexivity|].
  cbn [stores trace]. split; [vm_compute; reflexivity|].
  split; [vm_compute; reflexivity|]. split; [vm_compute; reflexivity|].
  split; reflexivity.
Qed.

Lemma pending_operation_replayed_witness :
  op demoTransferAction = ("transfer", Some demoTransfer)
  /\ isCompleted demoPending = false
  /\ exists w' operation,
       demoHandleAction 1 demoTransferAction (mkWorld (demoOperationStores demoPending) [])
       = (Ok 2, w')
       /\ operations (stores w') !! "op1" = Some operation
       /\ isCompleted operation = true.
Proof.
  split; [reflexivity|]. split; [reflexivity|].
  destruct (pending_operation_replayed "$" demoIsSteemAddress (fun _ => 0)
              demoParseFloat (fun n => Z.of_nat n) 1 demoTransferAction
              (mkWorld (demoOperationStores demoPending) []) demoTransfer "op1"
              demoPending eq_refl eq_refl eq_refl eq_refl)
    as (now & w' & Hrun & _ & Hget & Hdone & _).
  exists w'. eexists. split; [exact Hrun|]. split; [exact Hget | exact Hdone].
Defined.

Lemma expired_operations_failed_witness :
  isPending (demoOperationStores demoPending) "op1" = true
  /\ exists w' operation,
       demoHandleExpired 10 (mkWorld (demoOperationStores demoPending) []) = (Ok tt, w')
       /\ operations (stores w') !! "op1" = Some operation
       /\ isFailed operation = true
       /\ storedWatermark (stores w') = Some 1538388060000.
Proof.
  split; [reflexivity|].
  destruct (expired_operations_failed (fun _ => 1538388060000) (fun n => Z.of_nat n)
              (fun _ => Some (mkBlockHeader "2018-10-01T10:01:00"))
              (fun _ _ _ => ["op1"; "op0"; "op1"]) 10
              (mkWorld (demoOperationStores demoPending) [])
              (mkBlockHeader "2018-10-01T10:01:00") eq_refl)
    as (_ & _ & w' & calls & Hrun & _ & _ & Hids & Hmark & _).
  destruct (Hids "op1") as [Hfailed _].
  destruct Hfailed as (now & o & _ & _ & Hget & Hfail & _);
    [apply list_elem_of_here | reflexivity |].
  exists w'. eexists. split; [exact Hrun|]. split; [exact Hget|].
  split; [exact Hfail | exact Hmark].
Defined.


Lemma external_transfer_example_witness :
  demoIsSteemAddress "B" = true
  /\ demoParseFloat (Some "10.5") = 10.5%float
  /\ exists w',
       demoHandleAction 1 demoTransferAction demoWorld = (Ok 2, w')
       /\ balanceDocs (balances (stores w')) !! "A_1_T1"
          = Some (mkBalanceDoc (Some "A") (Some "1") (Some "T1") (Some (-10.5)%float)
                    (Some (-10500)%float) (Some 80) (Some false) None)
       /\ balanceDocs (balances (stores w')) !! "B_1_T1"
          = Some (mkBalanceDoc (Some "B") (Some "1") (Some "T1") (Some 10.5%float)
                    (Some 10500%float) (Some 80) (Some false) None).
Proof.
  split; [reflexivity|]. split; [reflexivity|].
  destruct (external_transfer_example "$" demoIsSteemAddress (fun _ => 0)
              demoParseFloat (fun n => Z.of_nat n) 1 demoTransferAction demoWorld
              eq_refl eq_refl eq_refl eq_refl eq_refl eq_refl)
    as (w' & Hrun & _ & _ & HA & HB).
  exists w'. split; [exact Hrun|]. split; [exact HA | exact HB].
Defined.

(** The whole tick on the demo endpoint: a vote, a transfer, and a
    transfer in a block that is not irreversible yet. *)
Example demo_tick :
  let r := demoHandleActions 5 demoWorld in
  fst r = Ok 10
  /\ storedSequence (stores (snd r)) = Some 2
  /\ List.filter isWrite (trace (snd r))
     = [ ParamsUpsert (Some 1) None;
         HistoryUpsert (mkHistory "A" "B" "1" 10.5%float 10500%float 80 0 "T1" "1" None);
         BalanceUpsert "A" "1" "T1" (-10.5)%float (-10500)%float 80;
         BalanceUpsert "B" "1" "T1" 10.5%float 10500%float 80;
         ParamsUpsert (Some 2) None ].
Proof. vm_compute. auto. Qed.

(** Two planned actions of one sender are written under one balance id:
    the entry of the second replaces the entry of the first. *)
Example demo_replay_same_sender :
  let r := demoHandleAction 1 demoTransferAction
             (mkWorld (demoOperationStores demoPending) []) in
  List.filter isLedgerWrite (trace (snd r))
  = [ BalanceUpsert "A" "1" "op1" (-10.5)%float (-10500)%float 80;
      BalanceUpsert "B" "1" "op1" 10.5%float 10500%float 80;
      HistoryUpsert (mkHistory "A" "B" "1" 10.5%float 10500%float 80 0 "T1" "0"
                       (Some "op1"));
      BalanceUpsert "A" "1" "op1" (-2)%float (-2000)%float 80;
      BalanceUpsert "C" "1" "op1" 2%float 2000%float 80;
      HistoryUpsert (mkHistory "A" "C" "1" 2%float 2000%float 80 0 "T1" "1"
                       (Some "op1")) ]
  /\ Amount <$> (balanceDocs (balances (stores (snd r))) !! "A_1_op1")
     = Some (Some (-2)%float)
  /\ size (balanceDocs (balances (stores (snd r)))) = 3%nat.
Proof. vm_compute. auto. Qed.

(** * More on the balance repository *)

Section Watch.

Context (db : BalanceDb).

Lemma isObservable_observe (a b : string) :
  BalanceRepository.isObservable a (BalanceRepository.observe b db)
  = if decide (a = b) then true else BalanceRepository.isObservable a db.
Proof.
  unfold BalanceRepository.isObservable, BalanceRepository.observe. simpl.
  case_decide as Hab.
  - apply bool_decide_eq_true, elem_of_union_l. by apply elem_of_singleton.
  - apply bool_decide_ext. rewrite elem_of_union, elem_of_singleton.
    split; [by intros [?|?] | by right].
Qed.

Lemma isObservable_remove (a b : string) :
  BalanceRepository.isObservable a (BalanceRepository.remove b db)
  = if decide (a = b) then false else BalanceRepository.isObservable a db.
Proof.
  unfold BalanceRepository.isObservable, BalanceRepository.remove. simpl.
  case_decide as Hab.
  - apply bool_decide_eq_false. rewrite elem_of_difference, elem_of_singleton.
    by intros [_ ?].
  - apply bool_decide_ext. rewrite elem_of_difference, elem_of_singleton.
    split; [by intros [? _] | done].
Qed.

Lemma updateMany_lookup (a : string) (set : BalanceDoc -> BalanceDoc) (id : string) :
  updateMany a set (balanceDocs db) !! id
  = (fun d => if bool_decide (Address d = Some a) then set d else d)
      <$> balanceDocs db !! id.
Proof. unfold updateMany. apply lookup_fmap. Qed.

(** X1. [observe] and [remove] set the watch state of their address and
    of no other; they rewrite the flag of the entries of that address and
    leave every other field of every entry, and the set of entries, as
    they were. *)
Theorem observe_remove_watch (a : string) :
  BalanceRepository.isObservable a (BalanceRepository.observe a db) = true
  /\ BalanceRepository.isObservable a (BalanceRepository.remove a db) = false
  /\ (forall b, b <> a ->
        BalanceRepository.isObservable b (BalanceRepository.observe a db)
        = BalanceRepository.isObservable b db
        /\ BalanceRepository.isObservable b (BalanceRepository.remove a db)
           = BalanceRepository.isObservable b db)
  /\ (forall id,
        let flag (watched : bool) (d : BalanceDoc) :=
          if bool_decide (Address d = Some a) then setObservable watched d else d in
        balanceDocs (BalanceRepository.observe a db) !! id
        = flag true <$> balanceDocs db !! id
        /\ balanceDocs (BalanceRepository.remove a db) !! id
           = flag false <$> balanceDocs db !! id)
  /\ (forall (watched : bool) (d : BalanceDoc),
        let d' := setObservable watched d in
        (Address d', AssetId d', OperationOrTxId d', Amount d', AmountInBaseUnit d',
         Block d', IsCancelled d')
        = (Address d, AssetId d, OperationOrTxId d, Amount d, AmountInBaseUnit d,
           Block d, IsCancelled d)).
Proof.
  split; [by rewrite isObservable_observe, decide_True|].
  split; [by rewrite isObservable_remove, decide_True|].
  split.
  { intros b Hb. by rewrite isObservable_observe, isObservable_remove, !decide_False. }
  split; [|done].
  intros id flag. split; apply updateMany_lookup.
Qed.

(** X2. The flag stored with an entry mirrors the watch state of its
    address: if that holds of a ledger, it holds after [observe], after
    [remove], after [upsert] and after [update], whatever their
    arguments. *)
Theorem watch_flag_invariant :
  flagsMirrorWatch db ->
  (forall a, flagsMirrorWatch (BalanceRepository.observe a db))
  /\ (forall a, flagsMirrorWatch (BalanceRepository.remove a db))
  /\ (forall address assetId key amount amountInBaseUnit block,
        flagsMirrorWatch
          (BalanceRepository.upsert address assetId key amount amountInBaseUnit block db))
  /\ (forall address assetId key isCancelled,
        flagsMirrorWatch (BalanceRepository.update address assetId key isCancelled db)).
Proof.
  intros Hdb. split; [|split; [|split]].
  - intros a id d' a0 Hd' Ha0. rewrite isObservable_observe.
    cbn [BalanceRepository.observe balanceDocs] in Hd'.
    rewrite updateMany_lookup in Hd'.
    destruct (balanceDocs db !! id) as [d|] eqn:Hd; [|discriminate].
    injection Hd' as <-. case_bool_decide as Hmatch.
    + cbn in Ha0. rewrite Hmatch in Ha0. injection Ha0 as <-.
      by rewrite decide_True.
    + rewrite decide_False by congruence. by eapply Hdb.
  - intros a id d' a0 Hd' Ha0. rewrite isObservable_remove.
    cbn [BalanceRepository.remove balanceDocs] in Hd'.
    rewrite updateMany_lookup in Hd'.
    destruct (balanceDocs db !! id) as [d|] eqn:Hd; [|discriminate].
    injection Hd' as <-. case_bool_decide as Hmatch.
    + cbn in Ha0. rewrite Hmatch in Ha0. injection Ha0 as <-.
      by rewrite decide_True.
    + rewrite decide_False by congruence. by eapply Hdb.
  - intros address assetId key amount amountInBaseUnit block id d' a0 Hd' Ha0.
    change (BalanceRepository.isObservable a0
              (BalanceRepository.upsert address assetId key amount amountInBaseUnit
                 block db))
      with (BalanceRepository.isObservable a0 db).
    destruct (decide (id = balanceId address assetId key)) as [->|Hne].
    + rewrite upsert_lookup in Hd'. injection Hd' as <-.
      cbn in Ha0. injection Ha0 as <-. reflexivity.
    + rewrite upsert_lookup_ne in Hd' by done. by eapply Hdb.
  - intros address assetId key isCancelled id d' a0 Hd' Ha0.
    change (BalanceRepository.isObservable a0
              (BalanceRepository.update address assetId key isCancelled db))
      with (BalanceRepository.isObservable a0 db).
    cbn [BalanceRepository.update balanceDocs] in Hd'. unfold updateOne in Hd'.
    rewrite lookup_partial_alter in Hd'. case_decide as Hid.
    + injection Hd' as <-. cbn in Ha0 |- *.
      destruct (balanceDocs db !! balanceId address assetId key) as [d|] eqn:Hd;
        [|discriminate].
      subst id. by eapply Hdb.
    + by eapply Hdb.
Qed.

End Watch.

Lemma flagsMirrorWatch_empty : flagsMirrorWatch (mkBalanceDb ∅ ∅ []).
Proof. intros id d a Hd. cbn [balanceDocs] in Hd. by rewrite lookup_empty in Hd. Qed.

Lemma watch_flag_invariant_witness :
  flagsMirrorWatch
    (BalanceRepository.remove "A"
       (BalanceRepository.upsert "A" "1" "T1" 10.5%float 10500%float 80
          (BalanceRepository.observe "A" (mkBalanceDb ∅ ∅ [])))).
Proof.
  apply watch_flag_invariant. apply watch_flag_invariant.
  apply watch_flag_invariant. apply flagsMirrorWatch_empty.
Defined.

Lemma string_app_assoc (s1 s2 s3 : string) :
  (s1 +:+ s2) +:+ s3 = s1 +:+ s2 +:+ s3.
Proof.
  induction s1 as [|c s1 IH]; [reflexivity|].
  change (String c ((s1 +:+ s2) +:+ s3) = String c (s1 +:+ s2 +:+ s3)).
  by rewrite IH.
Qed.

Section BalanceWrites.

Context (db : BalanceDb).

(** X3. A write and a cancellation of the same entry do not disturb each
    other: [update] after [upsert] keeps the entry's amounts and block,
    [upsert] after [update] keeps the cancellation, an [upsert] alone keeps
    whatever cancellation the entry had (so a cancelled entry that is
    written again is still left out of [get]).  An [update] of an entry
    that does not exist creates one with no address, which the [$match] of
    no [get] selects. *)
Theorem upsert_update_compose (address assetId key : string)
    (amount amountInBaseUnit : float) (block : Z) (isCancelled : bool) :
  let id := balanceId address assetId key in
  let written flag :=
    mkBalanceDoc (Some address) (Some assetId) (Some key) (Some amount)
      (Some amountInBaseUnit) (Some block)
      (Some (BalanceRepository.isObservable address db)) flag in
  balanceDocs
    (BalanceRepository.update address assetId key isCancelled
       (BalanceRepository.upsert address assetId key amount amountInBaseUnit block db))
    !! id = Some (written (Some isCancelled))
  /\ balanceDocs
       (BalanceRepository.upsert address assetId key amount amountInBaseUnit block
          (BalanceRepository.update address assetId key isCancelled db))
       !! id = Some (written (Some isCancelled))
  /\ balanceDocs
       (BalanceRepository.upsert address assetId key amount amountInBaseUnit block db)
       !! id = Some (written (IsCancelled (default emptyDoc (balanceDocs db !! id))))
  /\ matchesBalance address assetId (written (Some true)) = false
  /\ (balanceDocs db !! id = None ->
      balanceDocs (BalanceRepository.update address assetId key isCancelled db) !! id
      = Some (setCancelled isCancelled emptyDoc)
      /\ forall a s, matchesBalance a s (setCancelled isCancelled emptyDoc) = false).
Proof.
  intros id written. subst id written. split; [|split; [|split; [|split]]].
  - unfold BalanceRepository.update, BalanceRepository.upsert, updateOne. simpl.
    by rewrite !lookup_partial_alter_eq.
  - unfold BalanceRepository.update, BalanceRepository.upsert, updateOne. simpl.
    by rewrite !lookup_partial_alter_eq.
  - by rewrite upsert_lookup.
  - unfold matchesBalance, BalanceRepository.notCancelled. simpl.
    by rewrite andb_false_r.
  - intros Hnone. split; [|by intros].
    unfold BalanceRepository.update, updateOne. simpl.
    by rewrite lookup_partial_alter_eq, Hnone.
Qed.

(** X4. Two writes of entries with different composite ids leave the
    same documents under every id in either order.  If one of the two
    entries is stored already, the two orders leave the same collection;
    if both are new, each order inserts them as it writes them, so the two
    collections hold the same documents in different orders. *)
Theorem upserts_commute (a1 s1 k1 a2 s2 k2 : string) (v1 w1 v2 w2 : float) (b1 b2 : Z) :
  balanceId a1 s1 k1 <> balanceId a2 s2 k2 ->
  let id1 := balanceId a1 s1 k1 in
  let id2 := balanceId a2 s2 k2 in
  let second1 :=
    BalanceRepository.upsert a1 s1 k1 v1 w1 b1
      (BalanceRepository.upsert a2 s2 k2 v2 w2 b2 db) in
  let second2 :=
    BalanceRepository.upsert a2 s2 k2 v2 w2 b2
      (BalanceRepository.upsert a1 s1 k1 v1 w1 b1 db) in
  balanceAddresses second1 = balanceAddresses second2
  /\ balanceDocs second1 = balanceDocs second2
  /\ (is_Some (balanceDocs db !! id1) \/ is_Some (balanceDocs db !! id2) ->
      second1 = second2)
  /\ (balanceDocs db !! id1 = None -> balanceDocs db !! id2 = None ->
      balanceOrder second1 = balanceOrder db ++ [id2; id1]
      /\ balanceOrder second2 = balanceOrder db ++ [id1; id2]
      /\ second1 <> second2).
Proof.
  intros Hne id1 id2 second1 second2.
  assert (Hdocs : balanceDocs second1 = balanceDocs second2).
  { subst second1 second2.
    unfold BalanceRepository.upsert, BalanceRepository.isObservable, updateOne.
    simpl. by apply partial_alter_partial_alter_ne. }
  assert (Horder1 : balanceOrder second1
            = upsertedOrder id1 (<[id2 := emptyDoc]> (balanceDocs db))
                (upsertedOrder id2 (balanceDocs db) (balanceOrder db))).
  { subst second1. unfold BalanceRepository.upsert, upsertedOrder, updateOne. simpl.
    fold id1 id2. rewrite lookup_partial_alter_ne, lookup_insert_ne by done.
    reflexivity. }
  assert (Horder2 : balanceOrder second2
            = upsertedOrder id2 (<[id1 := emptyDoc]> (balanceDocs db))
                (upsertedOrder id1 (balanceDocs db) (balanceOrder db))).
  { subst second2. unfold BalanceRepository.upsert, upsertedOrder, updateOne. simpl.
    fold id1 id2. rewrite lookup_partial_alter_ne, lookup_insert_ne by done.
    reflexivity. }
  unfold upsertedOrder in Horder1, Horder2.
  rewrite lookup_insert_ne in Horder1, Horder2 by done.
  assert (Haddresses : balanceAddresses second1 = balanceAddresses second2)
    by reflexivity.
  clearbody second1 second2.
  split; [exact Haddresses|]. split; [exact Hdocs|]. split.
  - intros Hstored.
    assert (Horder : balanceOrder second1 = balanceOrder second2).
    { rewrite Horder1, Horder2.
      destruct (balanceDocs db !! id1), (balanceDocs db !! id2); try reflexivity.
      destruct Hstored as [[? [=]]|[? [=]]]. }
    clear Horder1 Horder2.
    destruct second1 as [x1 y1 z1], second2 as [x2 y2 z2].
    cbn [balanceAddresses balanceDocs balanceOrder] in *. congruence.
  - intros Hnew1 Hnew2. rewrite Hnew1, Hnew2, <- !app_assoc in *. cbn [app] in *.
    split; [exact Horder1|]. split; [exact Horder2|].
    intros Heq. rewrite Heq, Horder2 in Horder1.
    apply app_inv_head in Horder1. by injection Horder1.
Qed.

(** X5. Of two writes under one composite id the second wins: nothing of
    the first is left but the cancellation it kept.  And the id does not
    tell the address from the asset: the entry of address [a_b] and asset
    [c] and the entry of address [a] and asset [b_c] are one document. *)
Theorem upsert_last_wins (a1 s1 k1 a2 s2 k2 : string) (v1 w1 v2 w2 : float) (b1 b2 : Z) :
  balanceId a1 s1 k1 = balanceId a2 s2 k2 ->
  BalanceRepository.upsert a2 s2 k2 v2 w2 b2 (BalanceRepository.upsert a1 s1 k1 v1 w1 b1 db)
  = BalanceRepository.upsert a2 s2 k2 v2 w2 b2 db
  /\ forall a b c k,
       balanceId (a +:+ "_" +:+ b) c k = balanceId a (b +:+ "_" +:+ c) k.
Proof.
  intros Hid. split.
  - unfold BalanceRepository.upsert, BalanceRepository.isObservable. simpl.
    f_equal.
    + unfold updateOne. rewrite Hid, partial_alter_partial_alter_eq.
      apply partial_alter_ext. by intros o _.
    + rewrite Hid. unfold upsertedOrder at 1. unfold updateOne at 1.
      rewrite lookup_partial_alter_eq. reflexivity.
  - intros a b c k. unfold balanceId. by rewrite !string_app_assoc.
Qed.

End BalanceWrites.

Lemma upserts_commute_witness :
  balanceId "A" "1" "T1" <> balanceId "B" "1" "T1"
  /\ balanceOrder
       (BalanceRepository.upsert "A" "1" "T1" (-10.5)%float (-10500)%float 80
          (BalanceRepository.upsert "B" "1" "T1" 10.5%float 10500%float 80
             (mkBalanceDb ∅ ∅ [])))
     = ["B_1_T1"; "A_1_T1"]
  /\ balanceOrder
       (BalanceRepository.upsert "B" "1" "T1" 10.5%float 10500%float 80
          (BalanceRepository.upsert "A" "1" "T1" (-10.5)%float (-10500)%float 80
             (mkBalanceDb ∅ ∅ [])))
     = ["A_1_T1"; "B_1_T1"].
Proof.
  split; [discriminate|].
  destruct (upserts_commute (mkBalanceDb ∅ ∅ []) "A" "1" "T1" "B" "1" "T1"
              (-10.5)%float (-10500)%float 10.5%float 10500%float 80 80
              ltac:(discriminate))
    as (_ & _ & _ & Hnew).
  destruct (Hnew eq_refl eq_refl) as (H1 & H2 & _). split; [exact H1 | exact H2].
Defined.

Lemma upsert_last_wins_witness :
  balanceId "a_b" "c" "T1" = balanceId "a" "b_c" "T1"
  /\ BalanceRepository.upsert "a" "b_c" "T1" 2%float 2000%float 90
       (BalanceRepository.upsert "a_b" "c" "T1" 1%float 1000%float 80 (mkBalanceDb ∅ ∅ []))
     = BalanceRepository.upsert "a" "b_c" "T1" 2%float 2000%float 90 (mkBalanceDb ∅ ∅ []).
Proof.
  split; [reflexivity|].
  apply (upsert_last_wins (mkBalanceDb ∅ ∅ []) "a_b" "c" "T1" "a" "b_c" "T1"). reflexivity.
Defined.

(** ** The aggregation *)

Lemma groupAdd_keys (d : BalanceDoc) (gs : list BalanceEntity) :
  entityId <$> BalanceRepository.groupAdd d gs
  = if bool_decide (BalanceRepository.groupKey d ∈ entityId <$> gs)
    then entityId <$> gs
    else (entityId <$> gs) ++ [BalanceRepository.groupKey d].
Proof.
  induction gs as [|g gs IH]; [reflexivity|].
  cbn [BalanceRepository.groupAdd].
  destruct (decide (entityId g = BalanceRepository.groupKey d)) as [Heq|Hneq].
  - rewrite (bool_decide_eq_true_2 _ Heq).
    rewrite bool_decide_eq_true_2; [reflexivity|].
    rewrite fmap_cons, <- Heq. apply list_elem_of_here.
  - rewrite (bool_decide_eq_false_2 _ Hneq). rewrite !fmap_cons, IH.
    destruct (decide (BalanceRepository.groupKey d ∈ entityId <$> gs)) as [Hin|Hout].
    + rewrite (bool_decide_eq_true_2 _ Hin).
      rewrite bool_decide_eq_true_2; [reflexivity|]. by apply list_elem_of_further.
    + rewrite (bool_decide_eq_false_2 _ Hout).
      rewrite bool_decide_eq_false_2; [reflexivity|].
      intros [?|?]%elem_of_cons; congruence.
Qed.

Lemma group_keys (docs : list BalanceDoc) :
  forall gs,
    NoDup (entityId <$> gs) ->
    let r := fold_left (fun gs d => BalanceRepository.groupAdd d gs) docs gs in
    NoDup (entityId <$> r)
    /\ forall k, k ∈ entityId <$> r
                 <-> k ∈ entityId <$> gs \/ k ∈ BalanceRepository.groupKey <$> docs.
Proof.
  induction docs as [|d docs IH]; intros gs Hgs; cbn [fold_left].
  - split; [done|]. intros k. rewrite fmap_nil, elem_of_nil. tauto.
  - assert (Hstep : NoDup (entityId <$> BalanceRepository.groupAdd d gs)).
    { rewrite groupAdd_keys. case_bool_decide as Hin; [done|].
      apply NoDup_app. split; [done|]. split; [|apply NoDup_singleton].
      intros k Hk ->%list_elem_of_singleton. done. }
    destruct (IH _ Hstep) as [Hnodup Hkeys]. split; [exact Hnodup|].
    intros k. rewrite Hkeys, groupAdd_keys, fmap_cons, elem_of_cons.
    case_bool_decide as Hin.
    + split; [tauto|]. intros [?|[->|?]]; tauto.
    + rewrite elem_of_app, list_elem_of_singleton. tauto.
Qed.





(** ** The order of the collection *)



Lemma elem_of_collection (db : BalanceDb) (d : BalanceDoc) :
  d ∈ BalanceRepository.collection db <-> exists id, balanceDocs db !! id = Some d.
Proof.
  unfold BalanceRepository.collection.
  rewrite elem_of_app, list_elem_of_omap, list_elem_of_fmap. split.
  - intros [(id & _ & Hd)|([id d'] & -> & Hin)]; [by exists id|].
    apply list_elem_of_In, filter_In in Hin as [Hin%list_elem_of_In _].
    exists id. by apply elem_of_map_to_list.
  - intros [id Hd]. destruct (decide (id ∈ balanceOrder db)) as [Hin|Hout].
    + left. by exists id.
    + right. exists (id, d). split; [reflexivity|].
      apply list_elem_of_In, filter_In. split.
      * by apply list_elem_of_In, elem_of_map_to_list.
      * cbn [fst]. by rewrite bool_decide_eq_false_2.
Qed.

Lemma elem_of_aggregateMatch (p : BalanceDoc -> bool) (db : BalanceDb) (d : BalanceDoc) :
  d ∈ BalanceRepository.aggregateMatch p db
  <-> p d = true /\ exists id, balanceDocs db !! id = Some d.
Proof.
  unfold BalanceRepository.aggregateMatch.
  rewrite list_elem_of_In, filter_In, <- list_elem_of_In, elem_of_collection. tauto.
Qed.


Lemma wellFormed_empty : wellFormed (mkBalanceDb ∅ ∅ []).
Proof.
  split; [constructor|]. intros id. cbn [balanceOrder balanceDocs].
  rewrite lookup_empty, elem_of_nil. split; [done|]. by intros [? [=]].
Qed.

Lemma wellFormed_updateOne (db : BalanceDb) (addresses : gset string) (id : string)
    (f : BalanceDoc -> BalanceDoc) :
  wellFormed db ->
  wellFormed (mkBalanceDb addresses (updateOne id f (balanceDocs db))
                (upsertedOrder id (balanceDocs db) (balanceOrder db))).
Proof.
  intros [Hnodup Hcovers]. unfold wellFormed, upsertedOrder, updateOne.
  cbn [balanceOrder balanceDocs].
  destruct (balanceDocs db !! id) as [d|] eqn:Hid.
  - split; [exact Hnodup|]. intros k. rewrite Hcovers.
    destruct (decide (k = id)) as [->|Hne].
    + rewrite lookup_partial_alter_eq, Hid. split; by eexists.
    + by rewrite lookup_partial_alter_ne.
  - assert (Hout : id ∉ balanceOrder db).
    { intros Hin%Hcovers. rewrite Hid in Hin. by destruct Hin. }
    split.
    + apply NoDup_app. split; [exact Hnodup|]. split; [|apply NoDup_singleton].
      intros k Hk ->%list_elem_of_singleton. done.
    + intros k. rewrite elem_of_app, list_elem_of_singleton, Hcovers.
      destruct (decide (k = id)) as [->|Hne].
      * rewrite lookup_partial_alter_eq. split; [by eexists|by right].
      * rewrite lookup_partial_alter_ne by done. split; [by intros [?|?]|by left].
Qed.

Lemma wellFormed_updateMany (db : BalanceDb) (addresses : gset string) (a : string)
    (f : BalanceDoc -> BalanceDoc) :
  wellFormed db ->
  wellFormed (mkBalanceDb addresses (updateMany a f (balanceDocs db)) (balanceOrder db)).
Proof.
  intros [Hnodup Hcovers]. split; [exact Hnodup|]. intros k.
  cbn [balanceOrder balanceDocs]. unfold updateMany.
  rewrite Hcovers, lookup_fmap. destruct (balanceDocs db !! k); cbn.
  - split; by eexists.
  - split; by intros [? [=]].
Qed.

(** Every operation of the repository keeps the collection well formed. *)
Lemma wellFormed_preserved (db : BalanceDb) :
  wellFormed db ->
  (forall a, wellFormed (BalanceRepository.observe a db))
  /\ (forall a, wellFormed (BalanceRepository.remove a db))
  /\ (forall a s k v vb b, wellFormed (BalanceRepository.upsert a s k v vb b db))
  /\ (forall a s k c, wellFormed (BalanceRepository.update a s k c db)).
Proof.
  intros Hdb. split; [|split; [|split]]; intros.
  - by apply wellFormed_updateMany.
  - by apply wellFormed_updateMany.
  - by apply wellFormed_updateOne.
  - by apply wellFormed_updateOne.
Qed.

Section CollectionOrder.

Context (address assetId key : string) (amount amountInBaseUnit : float) (block : Z).
Context (db : BalanceDb) (Hdb : wellFormed db).

Local Abbreviation written :=
  (BalanceRepository.upsert address assetId key amount amountInBaseUnit block db).
Local Abbreviation entryOf :=
  (setEntry address assetId key amount amountInBaseUnit block
     (BalanceRepository.isObservable address db)).



End CollectionOrder.


(** Three entries of 0.1, 0.1 and 0.4 are added as they were written:
    the sum is 0.6000000000000001, where 0.4, 0.1 and 0.1 add up to 0.6. *)
Example get_sums_in_insertion_order :
  let db :=
    BalanceRepository.upsert "A" "1" "T3" demoFourTenths 400%float 3
      (BalanceRepository.upsert "A" "1" "T2" demoTenth 100%float 2
         (BalanceRepository.upsert "A" "1" "T1" demoTenth 100%float 1
            (mkBalanceDb ∅ ∅ []))) in
  wellFormed db
  /\ balanceOrder db = ["A_1_T1"; "A_1_T2"; "A_1_T3"]
  /\ entityAmount <$> BalanceRepository.get "A" "1" db
     = Some (demoTenth + demoTenth + demoFourTenths)%float
  /\ PrimFloat.eqb (demoTenth + demoTenth + demoFourTenths)
       (demoFourTenths + demoTenth + demoTenth) = false.
Proof.
  cbv zeta. split.
  - do 3 apply wellFormed_preserved. apply wellFormed_empty.
  - split; [reflexivity|]. split; vm_compute; reflexivity.
Qed.

(** X7. The groups of the paginated read have distinct keys, and a key
    is among them exactly when some entry that is observable and not
    cancelled has it; so a reader of all the pages meets no address and
    asset twice. *)
Theorem pages_list_each_key_once (db : BalanceDb) :
  NoDup (entityId <$> BalanceRepository.observableGroups db)
  /\ (forall key,
        key ∈ entityId <$> BalanceRepository.observableGroups db
        <-> exists id d,
              balanceDocs db !! id = Some d
              /\ IsCancelled d <> Some true /\ IsObservable d = Some true
              /\ (Address d, AssetId d) = key)
  /\ forall fuel take pages,
       readAllPages fuel take None db = Some pages ->
       NoDup (entityId <$> concat (items <$> pages)).
Proof.
  unfold BalanceRepository.observableGroups, BalanceRepository.group.
  match goal with |- context [fold_left ?f ?l []] =>
    destruct (group_keys l [] ltac:(constructor)) as [Hnodup Hkeys] end.
  split; [exact Hnodup|]. split.
  - intros key. rewrite Hkeys, fmap_nil, elem_of_nil, list_elem_of_fmap.
    split.
    + intros [[]|(d & -> & Hd)]. apply elem_of_aggregateMatch in Hd as [Hp [id Hd]].
      apply andb_true_iff in Hp as [Hc Ho]. apply bool_decide_eq_true in Ho.
      unfold BalanceRepository.notCancelled in Hc.
      apply negb_true_iff, bool_decide_eq_false in Hc. by exists id, d.
    + intros (id & d & Hd & Hc & Ho & <-). right. exists d. split; [done|].
      apply elem_of_aggregateMatch. split; [|by exists id].
      unfold BalanceRepository.notCancelled.
      by rewrite bool_decide_eq_false_2, bool_decide_eq_true_2.
  - intros fuel take pages Hread.
    assert (Htake : 0 < take).
    { destruct fuel as [|fuel]; [discriminate|]. cbn [readAllPages] in Hread.
      destruct (BalanceRepository.getPage take None db) as [r|] eqn:Hpage; [|discriminate].
      by apply getPage_Some in Hpage as (_ & ? & _). }
    destruct (readAllPages_from db (Z.to_nat take) _ ltac:(lia) 0%nat None eq_refl eq_refl)
      as (front & final & Hall & _ & _ & _ & _ & _ & Hconcat).
    specialize (Hall fuel). rewrite Z2Nat.id in Hall by lia. rewrite Hread in Hall.
    case_decide; [discriminate|]. injection Hall as ->. rewrite Hconcat.
    exact Hnodup.
Qed.

(** ** Continuation tokens *)



(** * More on the scanner: the cursor *)

Lemma persistedSequences_body (b : Z) (calls : list Call) :
  Forall (bodyCall b) calls -> persistedSequences calls = [].
Proof.
  induction 1 as [|c calls Hc _ IH]; [reflexivity|].
  unfold persistedSequences in *. cbn [omap list_omap]. rewrite IH.
  by destruct c.
Qed.

Lemma callsOf_app (w w' : World) (calls : list Call) :
  trace w' = trace w ++ calls -> callsOf w w' = calls.
Proof. unfold callsOf. intros ->. apply drop_app_length. Qed.

Section Cursor.

Context (HotWalletAccount ADDRESS_SEPARATOR : string).
Context (isSteemAddress : string -> bool) (isoUTC : string -> JS.Date).
Context (parseFloat : option string -> float) (clock : nat -> JS.Date).
Context (last_irreversible_block_num : Z).
Context (getAccountHistoryAsync : string -> Z -> Z -> option (list (Z * Action))).

Local Abbreviation handleAction' :=
  (handleAction ADDRESS_SEPARATOR isSteemAddress isoUTC parseFloat clock).
Local Abbreviation handleActions_loop' :=
  (handleActions_loop HotWalletAccount ADDRESS_SEPARATOR isSteemAddress isoUTC
     parseFloat clock getAccountHistoryAsync).
Local Abbreviation handleActions' :=
  (handleActions HotWalletAccount ADDRESS_SEPARATOR isSteemAddress isoUTC
     parseFloat clock last_irreversible_block_num getAccountHistoryAsync).
Local Abbreviation irreversibleAt' :=
  (irreversibleAt HotWalletAccount getAccountHistoryAsync).

Local Abbreviation fetched' := (fetched HotWalletAccount).
Local Abbreviation answersAt' := (answersAt HotWalletAccount getAccountHistoryAsync).
Local Abbreviation nothingAt' := (nothingAt HotWalletAccount getAccountHistoryAsync).
Local Abbreviation appliedFrom' :=
  (appliedFrom HotWalletAccount ADDRESS_SEPARATOR isSteemAddress isoUTC parseFloat clock
     getAccountHistoryAsync).

(** The loop from [start], whatever its outcome: it applied the [k]
    actions from [start] on and persisted their sequences, one by one. *)
Lemma loop_progress (lastIrreversible : Z) (fuel : nat) :
  forall (start : Z) (w : World),
    let r := handleActions_loop' fuel lastIrreversible start w in
    exists (k : nat) (wk : World) (calls : list Call),
      appliedFrom' lastIrreversible start k w wk
      /\ trace (snd r) = trace w ++ calls
      /\ persistedSequences calls = consecutive (start + 1) k
      /\ (k = 0%nat -> params (stores (snd r)) = params (stores w))
      /\ ((0 < k)%nat -> storedSequence (stores (snd r)) = Some (start + Z.of_nat k))
      /\ match fst r with
         | Ok _ =>
             nothingAt' lastIrreversible (start + Z.of_nat k)
             /\ snd r = fetched' wk (start + Z.of_nat k)
         | Throw e =>
             exists action,
               answersAt' lastIrreversible (start + Z.of_nat k) action
               /\ handleAction' (start + Z.of_nat k) action
                    (fetched' wk (start + Z.of_nat k)) = (Throw e, snd r)
         | OutOfFuel => k = fuel /\ snd r = wk
         end.
Proof.
  induction fuel as [|fuel IH]; intros start w; cbv zeta.
  - exists 0%nat, w, []. cbn [handleActions_loop fst snd]. unfold outOfFuel. cbn [fst snd].
    split; [reflexivity|]. split; [by rewrite app_nil_r|]. split; [done|].
    split; [done|]. split; [intros Hk; lia|done].
  - rewrite (loop_step HotWalletAccount). cbv zeta.
    destruct (irreversibleAt' lastIrreversible start) as [action|] eqn:Hat.
    + apply (irreversibleAt_Some HotWalletAccount) in Hat.
      destruct (handleAction_cases ADDRESS_SEPARATOR isSteemAddress isoUTC parseFloat clock
                  start action
                  (mkWorld (stores w)
                     (trace w ++ [GetAccountHistory HotWalletAccount start 0])))
        as (out & w2 & calls & line & Hrun & Hcalls & _ & Hout).
      rewrite Hrun. cbn [trace stores] in Hout.
      destruct Hout as [(-> & (s & Hstores & Hparams) & Htrace)
                       | ([e ->] & Hparams & Htrace)].
      * destruct (IH (start + 1) w2)
          as (k & wk & calls' & Happlied & Ht & Hseqs & Hzero & Hpos & Hend).
        exists (S k), wk,
          (GetAccountHistory HotWalletAccount start 0 :: LogWrite info line
           :: calls ++ ParamsUpsert (Some (start + 1)) None :: calls').
        replace (start + Z.of_nat (S k)) with (start + 1 + Z.of_nat k) by lia.
        split; [by exists action, w2|].
        split; [rewrite Ht, Htrace; repeat (rewrite <- ?app_assoc; cbn [app]); reflexivity|].
        split.
        { unfold persistedSequences in *. cbn [omap list_omap consecutive].
          rewrite omap_app. fold (persistedSequences calls).
          rewrite (persistedSequences_body _ _ Hcalls). cbn [app omap list_omap].
          by rewrite Hseqs. }
        split; [discriminate|].
        split.
        { intros _. destruct k as [|k].
          - unfold storedSequence. rewrite Hzero, Hstores by done. rewrite Z.add_0_r.
            destruct (advanced_sequence start s) as (p & -> & Hp). exact Hp.
          - apply Hpos. lia. }
        destruct (fst (handleActions_loop' _ _ _ _));
          [exact Hend|exact Hend|]. destruct Hend as [-> ?]. by split.
      * exists 0%nat, w,
          (GetAccountHistory HotWalletAccount start 0 :: LogWrite info line :: calls).
        cbn [fst snd appliedFrom]. rewrite Z.add_0_r.
        split; [reflexivity|].
        split; [rewrite Htrace; repeat (rewrite <- ?app_assoc; cbn [app]); reflexivity|].
        split.
        { unfold persistedSequences. cbn [omap list_omap consecutive].
          fold (persistedSequences calls). by rewrite (persistedSequences_body _ _ Hcalls). }
        split; [done|]. split; [intros Hk; lia|].
        exists action. split; [exact Hat|exact Hrun].
    + apply (irreversibleAt_endpoint_None HotWalletAccount) in Hat.
      exists 0%nat, w, [GetAccountHistory HotWalletAccount start 0].
      cbn [fst snd trace stores appliedFrom]. rewrite Z.add_0_r.
      split; [reflexivity|]. split; [reflexivity|]. split; [reflexivity|].
      split; [done|]. split; [intros; lia|]. by split.
Qed.

(** X9. Whatever the outcome of a tick of [handleActions] -- it returned,
    it threw, or it was cut short -- there is a [k] such that the endpoint
    has irreversible actions at the [k] sequences from the stored one on,
    the body was run on each of them in turn, to its end, the sequences
    [start + 1 .. start + k] and no other were persisted, in that order,
    and the cursor is left at [start + k], never behind where it was.  A
    tick that returned stopped because the endpoint has no irreversible
    action at the cursor; a tick that threw did so in the body of the
    action the endpoint has at the cursor, which the next tick therefore
    fetches and applies again. *)
Theorem handleActions_resume (fuel : nat) (w : World) :
  let lib := last_irreversible_block_num in
  let start := nextActionSequenceOf (params (stores w)) in
  let opened :=
    mkWorld (stores w) (trace w ++ [ParamsGet; GetDynamicGlobalProperties]) in
  let r := handleActions' fuel w in
  exists (k : nat) (wk : World),
    appliedFrom' lib start k opened wk
    /\ persistedSequences (callsOf w (snd r)) = consecutive (start + 1) k
    /\ nextActionSequenceOf (params (stores (snd r))) = start + Z.of_nat k
    /\ match fst r with
       | Ok n =>
           n = lib
           /\ nothingAt' lib (start + Z.of_nat k)
           /\ snd r = fetched' wk (start + Z.of_nat k)
       | Throw e =>
           exists action,
             answersAt' lib (start + Z.of_nat k) action
             /\ handleAction' (start + Z.of_nat k) action
                  (fetched' wk (start + Z.of_nat k)) = (Throw e, snd r)
       | OutOfFuel => k = fuel /\ snd r = wk
       end.
Proof.
  intros lib start opened r. subst r lib.
  rewrite (handleActions_unfold HotWalletAccount). fold start opened.
  destruct (loop_progress last_irreversible_block_num fuel start opened)
    as (k & wk & calls & Happlied & Htrace & Hseqs & Hzero & Hpos & Hend).
  cbv zeta in *. subst opened. cbn [trace stores] in *.
  exists k, wk.
  assert (Hcursor : forall w1,
            (k = 0%nat -> params (stores w1) = params (stores w)) ->
            ((0 < k)%nat -> storedSequence (stores w1) = Some (start + Z.of_nat k)) ->
            nextActionSequenceOf (params (stores w1)) = start + Z.of_nat k).
  { intros w1 Hz Hp. destruct k as [|k].
    - rewrite Hz by done. subst start. lia.
    - specialize (Hp ltac:(lia)). unfold storedSequence in Hp.
      unfold nextActionSequenceOf. destruct (params (stores w1)) as [p|]; [|done].
      by rewrite Hp. }
  destruct (handleActions_loop' _ _ _ _) as [[[]|e|] w1]; cbn [fst snd] in *;
    (split; [exact Happlied|]);
    (split; [erewrite callsOf_app by (rewrite Htrace, <- app_assoc; reflexivity);
             exact Hseqs|]);
    (split; [by apply Hcursor|]).
  - by split.
  - exact Hend.
  - exact Hend.
Qed.

End Cursor.

(** * The job's tick ([src/server.ts]) *)

Section Tick.

Context (HotWalletAccount ADDRESS_SEPARATOR : string).
Context (isSteemAddress : string -> bool) (isoUTC : string -> JS.Date).
Context (parseFloat : option string -> float) (clock : nat -> JS.Date).
Context (last_irreversible_block_num : Z).
Context (getAccountHistoryAsync : string -> Z -> Z -> option (list (Z * Action))).
Context (getBlockAsync : Z -> option BlockHeader).
Context (geOperationIdByExpiryTime :
           gmap string OperationEntity -> JS.Date -> JS.Date -> list string).

Local Abbreviation handleAction' :=
  (handleAction ADDRESS_SEPARATOR isSteemAddress isoUTC parseFloat clock).
Local Abbreviation handleActions_loop' :=
  (handleActions_loop HotWalletAccount ADDRESS_SEPARATOR isSteemAddress isoUTC
     parseFloat clock getAccountHistoryAsync).
Local Abbreviation handleActions' :=
  (handleActions HotWalletAccount ADDRESS_SEPARATOR isSteemAddress isoUTC
     parseFloat clock last_irreversible_block_num getAccountHistoryAsync).
Local Abbreviation handleExpired' :=
  (handleExpired isoUTC clock getBlockAsync geOperationIdByExpiryTime).
Local Abbreviation tick' :=
  (tick HotWalletAccount ADDRESS_SEPARATOR isSteemAddress isoUTC parseFloat clock
     last_irreversible_block_num getAccountHistoryAsync getBlockAsync
     geOperationIdByExpiryTime).

Lemma tick_unfold (fuel : nat) (w : World) :
  tick' fuel w
  = match handleActions' fuel w with
    | (Ok n, w1) =>
        match handleExpired' n w1 with
        | (Throw e, w2) =>
            (Ok tt, mkWorld (stores w2) (trace w2 ++ [LogWrite error_level e]))
        | r => r
        end
    | (Throw e, w1) => (Ok tt, mkWorld (stores w1) (trace w1 ++ [LogWrite error_level e]))
    | (OutOfFuel, w1) => (OutOfFuel, w1)
    end.
Proof.
  unfold tick. run.
  destruct (handleActions' fuel w) as [[n|e|] w1]; run; reflexivity.
Qed.

Lemma loop_intake (lastIrreversible : Z) (fuel : nat) :
  forall (seq : Z) (w : World),
    exists calls,
      trace (snd (handleActions_loop' fuel lastIrreversible seq w)) = trace w ++ calls
      /\ Forall intakeCall calls.
Proof.
  induction fuel as [|fuel IH]; intros seq w.
  - exists []. rewrite app_nil_r. by split.
  - rewrite (loop_step HotWalletAccount). cbv zeta.
    destruct (irreversibleAt _ _ _ _) as [action|].
    + destruct (handleAction_cases ADDRESS_SEPARATOR isSteemAddress isoUTC parseFloat clock
                  seq action
                  (mkWorld (stores w) (trace w ++ [GetAccountHistory HotWalletAccount seq 0])))
        as (out & w2 & calls & line & -> & Hcalls & _ & Hout).
      assert (Hbody : Forall intakeCall calls)
        by (eapply Forall_impl; [exact Hcalls|]; by intros []).
      cbn [trace stores] in Hout.
      destruct Hout as [(-> & _ & Htrace) | ([e ->] & _ & Htrace)].
      * destruct (IH (seq + 1) w2) as (calls' & -> & Hrest). rewrite Htrace.
        exists (GetAccountHistory HotWalletAccount seq 0 :: LogWrite info line
                :: calls ++ ParamsUpsert (Some (seq + 1)) None :: calls').
        split; [repeat (rewrite <- ?app_assoc; cbn [app]); reflexivity|].
        repeat (apply Forall_cons; split; [exact I|]).
        apply Forall_app. split; [exact Hbody|]. by apply Forall_cons.
      * cbn [snd]. rewrite Htrace.
        exists (GetAccountHistory HotWalletAccount seq 0 :: LogWrite info line :: calls).
        split; [repeat (rewrite <- ?app_assoc; cbn [app]); reflexivity|].
        by repeat (apply Forall_cons; split; [exact I|]).
    + exists [GetAccountHistory HotWalletAccount seq 0]. cbn [snd trace].
      split; [reflexivity|]. by repeat constructor.
Qed.

Lemma handleActions_intake (fuel : nat) (w : World) :
  exists calls,
    trace (snd (handleActions' fuel w)) = trace w ++ calls
    /\ Forall intakeCall calls
    /\ storedWatermark (stores (snd (handleActions' fuel w))) = storedWatermark (stores w)
    /\ forall n, fst (handleActions' fuel w) = Ok n -> n = last_irreversible_block_num.
Proof.
  destruct (handleActions_watermark HotWalletAccount ADDRESS_SEPARATOR isSteemAddress
              isoUTC parseFloat clock last_irreversible_block_num getAccountHistoryAsync
              fuel w) as (_ & _ & _ & Hmark).
  rewrite (handleActions_unfold HotWalletAccount) in *.
  match goal with |- context [handleActions_loop' fuel ?l ?s ?w0] =>
    destruct (loop_intake l fuel s w0) as (calls & Htrace & Hshape);
    destruct (handleActions_loop' fuel l s w0) as [[[]|e|] w1]
  end; cbn [fst snd stores trace] in *;
  (exists (ParamsGet :: GetDynamicGlobalProperties :: calls);
   split; [rewrite Htrace; repeat (rewrite <- ?app_assoc; cbn [app]); reflexivity|];
   split; [by repeat (apply Forall_cons; split; [exact I|])|];
   split; [exact Hmark|]; intros n Hn; congruence).
Qed.

Lemma handleExpired_sweep (n : Z) (w : World) :
  exists calls,
    trace (snd (handleExpired' n w)) = trace w ++ calls
    /\ Forall (sweepCall n) calls
    /\ balances (stores (snd (handleExpired' n w))) = balances (stores w)
    /\ history (stores (snd (handleExpired' n w))) = history (stores w).
Proof.
  destruct (getBlockAsync n) as [header|] eqn:Hblock.
  - rewrite (handleExpired_run isoUTC clock getBlockAsync geOperationIdByExpiryTime
               n w header Hblock).
    cbv zeta. cbn [snd trace stores].
    match goal with |- context [foldl ?f ?w0 ?ids] =>
      destruct (sweep_spec clock ids w0) as (calls & -> & Hsweep & Hframe & _) end.
    cbn [trace stores] in *. eexists.
    split; [repeat (rewrite <- ?app_assoc; cbn [app]); reflexivity|].
    split.
    + apply Forall_cons. split; [exact I|]. apply Forall_cons. split; [reflexivity|].
      apply Forall_cons. split; [exact I|].
      apply Forall_app. split.
      * eapply Forall_impl; [exact Hsweep|]. by intros [].
      * by repeat constructor.
    + cbn [balances history withParams]. rewrite <- Hframe. by cbn.
  - destruct (handleExpired_throws isoUTC clock getBlockAsync geOperationIdByExpiryTime
                n w Hblock) as [e ->].
    cbn [snd trace stores]. eexists. split; [reflexivity|].
    split; [|done]. by repeat constructor.
Qed.

(** X10. A tick of the job never throws.  Its calls are those of the
    intake, then those of the sweep, then at most one error log: the
    intake reads no block and never writes the watermark, the sweep reads
    no block but the last irreversible one the intake returned and writes
    no ledger and no sequence, and runs only if the intake returned.  An
    error of either is logged, once, as the last call, and changes
    nothing; an intake that threw leaves the watermark as it was. *)
Theorem tick_contains_failures (fuel : nat) (w : World) :
  let lib := last_irreversible_block_num in
  let r := tick' fuel w in
  let a := handleActions' fuel w in
  let b := handleExpired' lib (snd a) in
  (forall e, fst r <> Throw e)
  /\ exists intake sweep report,
       trace (snd a) = trace w ++ intake
       /\ trace (snd r) = trace w ++ intake ++ sweep ++ report
       /\ Forall intakeCall intake
       /\ Forall (sweepCall lib) sweep
       /\ match fst a with
          | Ok n =>
              n = lib
              /\ trace (snd b) = trace (snd a) ++ sweep
              /\ stores (snd r) = stores (snd b)
              /\ balances (stores (snd r)) = balances (stores (snd a))
              /\ history (stores (snd r)) = history (stores (snd a))
              /\ match fst b with
                 | Throw e => report = [LogWrite error_level e] /\ fst r = Ok tt
                 | out => report = [] /\ fst r = out
                 end
          | Throw e =>
              sweep = [] /\ report = [LogWrite error_level e] /\ fst r = Ok tt
              /\ stores (snd r) = stores (snd a)
              /\ storedWatermark (stores (snd r)) = storedWatermark (stores w)
          | OutOfFuel =>
              sweep = [] /\ report = [] /\ fst r = OutOfFuel
              /\ stores (snd r) = stores (snd a)
          end.
Proof.
  intros lib r a b. subst r a b.
  destruct (handleActions_intake fuel w) as (intake & Htrace & Hintake & Hmark & Hlib).
  rewrite tick_unfold.
  destruct (handleActions' fuel w) as [[n|e|] w1]; cbn [fst snd] in *.
  - rewrite (Hlib n eq_refl). fold lib.
    destruct (handleExpired_sweep lib w1) as (sweep & Hsweep & Hcalls & Hbal & Hhist).
    destruct (handleExpired' lib w1) as [[[]|e|] w2]; cbn [fst snd stores trace] in *.
    + split; [done|]. exists intake, sweep, [].
      rewrite Hsweep, Htrace, app_nil_r, <- app_assoc. by repeat split.
    + split; [done|]. exists intake, sweep, [LogWrite error_level e].
      rewrite Hsweep, Htrace, <- !app_assoc. by repeat split.
    + split; [done|]. exists intake, sweep, [].
      rewrite Hsweep, Htrace, app_nil_r, <- app_assoc. by repeat split.
  - split; [done|]. exists intake, [], [LogWrite error_level e].
    cbn [stores trace app]. rewrite Htrace, <- app_assoc. by repeat split.
  - split; [done|]. exists intake, [], [].
    cbn [app]. rewrite app_nil_r. by repeat split.
Qed.

End Tick.

(** * More on the scanner: a transfer from outside *)

Lemma string_length_app (a b : string) :
  String.length (a +:+ b) = (String.length a + String.length b)%nat.
Proof.
  induction a as [|c a IH]; [reflexivity|].
  change (S (String.length (a +:+ b)) = S (String.length a + String.length b)).
  by rewrite IH.
Qed.

Lemma string_app_inj_r (s a b : string) : a +:+ s = b +:+ s -> a = b.
Proof.
  revert b. induction a as [|c a IH]; intros [|c' b] H.
  - reflexivity.
  - apply (f_equal String.length) in H.
    change (String.length s = S (String.length (b +:+ s))) in H.
    rewrite string_length_app in H. lia.
  - apply (f_equal String.length) in H.
    change (S (String.length (a +:+ s)) = String.length s) in H.
    rewrite string_length_app in H. lia.
  - change (String c (a +:+ s) = String c' (b +:+ s)) in H. injection H as -> H.
    f_equal. by apply IH.
Qed.

Lemma balanceId_inj_address (a b assetId key : string) :
  balanceId a assetId key = balanceId b assetId key -> a = b.
Proof. unfold balanceId. apply string_app_inj_r. Qed.

Section External.

Context (ADDRESS_SEPARATOR : string).
Context (isSteemAddress : string -> bool) (isoUTC : string -> JS.Date).
Context (parseFloat : option string -> float) (clock : nat -> JS.Date).

Local Abbreviation handleAction' :=
  (handleAction ADDRESS_SEPARATOR isSteemAddress isoUTC parseFloat clock).
Local Abbreviation destinationOf' := (destinationOf ADDRESS_SEPARATOR).

(** X11. A transfer of no operation of ours, in an asset the directory
    resolves, to a destination that is an address -- the recipient alone,
    or the recipient, the separator and the memo if there is a memo -- is
    recorded from the chain's data: one history entry under the
    transaction and the action's sequence, a credit of the parsed amount
    for the destination and, for a sender other than the destination, a
    debit of the opposite amount, both under the transaction's id at ten
    times the block; the base-unit amount is the asset's conversion of the
    parsed one.  A transfer to oneself leaves the credit only.  No other
    ledger entry and no operation changes, a cancellation recorded before
    stays, and the sequence stored is the next one. *)
Theorem external_transfer_recorded (seq : Z) (action : Action) (w : World)
    (transfer : Transfer) (asset : AssetEntity) :
  transferOf action = Some transfer ->
  truthy (operationsByTxId (stores w) !! trx_id action) = None ->
  assetOf (stores w) transfer = Some asset ->
  isSteemAddress (destinationOf' transfer) = true ->
  let value := parseFloat (JS.split (amount transfer) 2 !! 0%nat) in
  let base := toBaseUnit asset value in
  let b := action_block action * 10 in
  let dest := destinationOf' transfer in
  let assetId := AssetEntityId asset in
  let txId := trx_id action in
  let debitId := balanceId (from transfer) assetId txId in
  let creditId := balanceId dest assetId txId in
  let db := balances (stores w) in
  let r := handleAction' seq action w in
  let s' := stores (snd r) in
  fst r = Ok (seq + 1)
  /\ (memo transfer = "" -> dest = to transfer)
  /\ (memo transfer <> "" -> dest = to transfer +:+ ADDRESS_SEPARATOR +:+ memo transfer)
  /\ history s' !! (txId, JS.toString seq)
     = Some (mkHistory (from transfer) dest assetId value base b
               (isoUTC (timestamp action)) txId (JS.toString seq)
               (operationsByTxId (stores w) !! txId))
  /\ (forall k, k <> (txId, JS.toString seq) -> history s' !! k = history (stores w) !! k)
  /\ balanceDocs (balances s') !! creditId
     = Some (mkBalanceDoc (Some dest) (Some assetId) (Some txId) (Some value) (Some base)
               (Some b) (Some (BalanceRepository.isObservable dest db))
               (cancelledAt (stores w) creditId))
  /\ (from transfer <> dest ->
      balanceDocs (balances s') !! debitId
      = Some (mkBalanceDoc (Some (from transfer)) (Some assetId) (Some txId)
                (Some (PrimFloat.opp value)) (Some (PrimFloat.opp base)) (Some b)
                (Some (BalanceRepository.isObservable (from transfer) db))
                (cancelledAt (stores w) debitId)))
  /\ (forall id, id <> debitId -> id <> creditId ->
        balanceDocs (balances s') !! id = balanceDocs db !! id)
  /\ balanceAddresses (balances s') = balanceAddresses db
  /\ operations s' = operations (stores w)
  /\ storedSequence s' = Some (seq + 1).
Proof.
  intros Htransfer Hop Hasset Hto value base b dest assetId txId debitId creditId db r s'.
  subst r s'. rewrite handleAction_unfold, Htransfer.
  erewrite applyTransfer_external; [|exact Hop|exact Hasset|exact Hto].
  cbv zeta. fold value base b dest assetId txId. cbn [fst snd stores trace].
  split; [reflexivity|].
  split; [intros Hmemo; subst dest; unfold destinationOf;
          by rewrite bool_decide_eq_true_2|].
  split; [intros Hmemo; subst dest; unfold destinationOf;
          by rewrite bool_decide_eq_false_2|].
  cbn [history balances operations advanced withParams withBalances withHistory].
  split; [by rewrite lookup_insert_eq|].
  split; [intros k Hk; by rewrite lookup_insert_ne|].
  unfold movementBalances. split; [|split; [|split; [|split; [|split]]]].
  - fold creditId. subst creditId. rewrite upsert_lookup.
    unfold setEntry, cancelledAt. fold db. f_equal. f_equal.
    destruct (decide (balanceId (from transfer) assetId txId = balanceId dest assetId txId))
      as [Heq|Hne].
    + rewrite <- Heq, upsert_lookup. reflexivity.
    + by rewrite upsert_lookup_ne.
  - intros Hne. subst debitId.
    rewrite upsert_lookup_ne by (intros Heq; by apply balanceId_inj_address in Heq).
    rewrite upsert_lookup. reflexivity.
  - intros id Hd Hc. by rewrite !upsert_lookup_ne.
  - reflexivity.
  - reflexivity.
  - unfold storedSequence, insertOrMerge, withBalances, withHistory. cbn [params].
    by destruct (params (stores w)).
Qed.

End External.

Lemma external_transfer_recorded_witness :
  demoIsSteemAddress "B" = true
  /\ fst (demoHandleAction 1 demoTransferAction demoWorld) = Ok 2
  /\ balanceDocs (balances (stores (snd (demoHandleAction 1 demoTransferAction demoWorld))))
       !! "B_1_T1"
     = Some (mkBalanceDoc (Some "B") (Some "1") (Some "T1")
               (Some (demoParseFloat (Some "10.5")))
               (Some (toBaseUnit (mkAsset "1" 1000%float) (demoParseFloat (Some "10.5"))))
               (Some 80) (Some false) None).
Proof.
  split; [reflexivity|].
  destruct (external_transfer_recorded "$" demoIsSteemAddress (fun _ => 0)
              demoParseFloat (fun n => Z.of_nat n) 1 demoTransferAction demoWorld
              demoTransfer (mkAsset "1" 1000%float) eq_refl eq_refl eq_refl eq_refl)
    as (Hrun & _ & _ & _ & _ & Hcredit & _).
  split; [exact Hrun | exact Hcredit].
Defined.

(** * More on the scanner: an action applied again after a crash *)

Lemma applyWrites_app (l l' : list Call) (s : Stores) :
  applyWrites (l ++ l') s = applyWrites l' (applyWrites l s).
Proof. unfold applyWrites. apply foldl_app. Qed.

Lemma filter_concat {A} (f : A -> bool) (ls : list (list A)) :
  List.filter f (concat ls) = concat (List.filter f <$> ls).
Proof.
  induction ls as [|l ls IH]; [reflexivity|].
  cbn [concat fmap list_fmap]. by rewrite List.filter_app, IH.
Qed.

(** What a ledger write leaves alone. *)
Lemma applyWrite_frame (s : Stores) (c : Call) :
  params (applyWrite s c) = params s
  /\ operations (applyWrite s c) = operations s
  /\ operationActions (applyWrite s c) = operationActions s
  /\ operationsByTxId (applyWrite s c) = operationsByTxId s
  /\ assets (applyWrite s c) = assets s
  /\ balanceAddresses (balances (applyWrite s c)) = balanceAddresses (balances s)
  /\ forall id, cancelledAt (applyWrite s c) id = cancelledAt s id.
Proof.
  destruct c; try by repeat split.
  repeat split. intros id. unfold cancelledAt. cbn [applyWrite balances withBalances].
  match goal with |- context [BalanceRepository.upsert ?a ?x ?k ?v ?vb ?b ?db] =>
    destruct (decide (id = balanceId a x k)) as [->|Hne];
      [rewrite (upsert_lookup a x k v vb b db)
      |rewrite (upsert_lookup_ne a x k v vb b db id Hne)] end; reflexivity.
Qed.

Lemma applyWrites_frame (calls : list Call) :
  forall s,
    params (applyWrites calls s) = params s
    /\ operations (applyWrites calls s) = operations s
    /\ operationActions (applyWrites calls s) = operationActions s
    /\ operationsByTxId (applyWrites calls s) = operationsByTxId s
    /\ assets (applyWrites calls s) = assets s.
Proof.
  induction calls as [|c calls IH]; intros s; [by repeat split|].
  change (applyWrites (c :: calls) s) with (applyWrites calls (applyWrite s c)).
  destruct (IH (applyWrite s c)) as (-> & -> & -> & -> & ->).
  destruct (applyWrite_frame s c) as (? & ? & ? & ? & ? & _). by repeat split.
Qed.

Lemma ledgersAgree_refl (s : Stores) : ledgersAgree (fun _ => False) (fun _ => False) s s.
Proof. by repeat split. Qed.

Lemma ledgersAgree_weaken (D D' : string -> Prop) (K K' : string * string -> Prop)
    (s s' : Stores) :
  (forall id, D id -> D' id) -> (forall k, K k -> K' k) ->
  ledgersAgree D K s s' -> ledgersAgree D' K' s s'.
Proof.
  intros HD HK (Ha & Hc & Hd & Hh). split; [exact Ha|]. split; [exact Hc|]. split.
  - intros id Hid. apply Hd. intros ?. apply Hid. by apply HD.
  - intros k Hk. apply Hh. intros ?. apply Hk. by apply HK.
Qed.

(** The same write on both sides cleans what it writes. *)
Lemma ledgersAgree_step (D : string -> Prop) (K : string * string -> Prop)
    (s s' : Stores) (c : Call) :
  ledgersAgree D K s s' ->
  ledgersAgree (fun id => D id /\ balanceIdOf c <> Some id)
    (fun k => K k /\ historyKeyOf c <> Some k) (applyWrite s c) (applyWrite s' c).
Proof.
  intros (Ha & Hc & Hd & Hh).
  destruct (applyWrite_frame s c) as (_ & _ & _ & _ & _ & Ha1 & Hc1).
  destruct (applyWrite_frame s' c) as (_ & _ & _ & _ & _ & Ha2 & Hc2).
  split; [by rewrite Ha1, Ha2|]. split; [intros id; by rewrite Hc1, Hc2|].
  destruct c;
    try (split; [intros id Hid; apply Hd; intros ?; apply Hid; by split
                |intros k Hk; apply Hh; intros ?; apply Hk; by split]).
  - (* a history write *)
    cbn [applyWrite balances history withHistory balanceIdOf historyKeyOf].
    split; [intros id Hid; apply Hd; intros ?; apply Hid; by split|].
    intros k Hk.
    match goal with |- context [<[?k0 := _]> _] =>
      destruct (decide (k = k0)) as [->|Hne] end.
    + by rewrite !lookup_insert_eq.
    + rewrite !lookup_insert_ne by done. apply Hh. intros ?. apply Hk. split; [done|].
      congruence.
  - (* a balance write *)
    cbn [applyWrite balances history withBalances balanceIdOf historyKeyOf].
    split; [|intros k Hk; apply Hh; intros ?; apply Hk; by split].
    intros id Hid.
    match goal with |- context [BalanceRepository.upsert ?a ?x ?k ?v ?vb ?b _] =>
      destruct (decide (id = balanceId a x k)) as [->|Hne];
        [rewrite !(upsert_lookup a x k v vb b)
        |rewrite !(upsert_lookup_ne a x k v vb b _ id Hne)] end.
    + unfold setEntry, BalanceRepository.isObservable. rewrite Ha.
      do 2 f_equal. apply Hc.
    + apply Hd. intros ?. apply Hid. split; [done|]. congruence.
Qed.

(** A write on one side dirties what it writes. *)
Lemma ledgersAgree_dirty (D : string -> Prop) (K : string * string -> Prop)
    (s s' : Stores) (c : Call) :
  ledgersAgree D K s s' ->
  ledgersAgree (fun id => D id \/ balanceIdOf c = Some id)
    (fun k => K k \/ historyKeyOf c = Some k) s (applyWrite s' c).
Proof.
  intros (Ha & Hc & Hd & Hh).
  destruct (applyWrite_frame s' c) as (_ & _ & _ & _ & _ & Ha2 & Hc2).
  split; [by rewrite Ha2|]. split; [intros id; by rewrite Hc2|].
  destruct c; try (split; [intros id Hid; apply Hd|intros k Hk; apply Hh]; tauto).
  - cbn [applyWrite balances history withHistory balanceIdOf historyKeyOf].
    split; [intros id Hid; apply Hd; tauto|].
    intros k Hk. rewrite lookup_insert_ne; [apply Hh; tauto|].
    intros <-. apply Hk. by right.
  - cbn [applyWrite balances history withBalances balanceIdOf historyKeyOf].
    split; [|intros k Hk; apply Hh; tauto].
    intros id Hid. rewrite upsert_lookup_ne; [apply Hd; tauto|].
    intros ->. apply Hid. by right.
Qed.

Lemma ledgersAgree_steps (calls : list Call) :
  forall (D : string -> Prop) (K : string * string -> Prop) (s s' : Stores),
    ledgersAgree D K s s' ->
    ledgersAgree (fun id => D id /\ forall c, c ∈ calls -> balanceIdOf c <> Some id)
      (fun k => K k /\ forall c, c ∈ calls -> historyKeyOf c <> Some k)
      (applyWrites calls s) (applyWrites calls s').
Proof.
  induction calls as [|c calls IH]; intros D K s s' H.
  - eapply ledgersAgree_weaken; [| |exact H]; cbn;
      (intros x Hx; split; [exact Hx|]; intros c Hc; by apply elem_of_nil in Hc).
  - change (applyWrites (c :: calls) s) with (applyWrites calls (applyWrite s c)).
    change (applyWrites (c :: calls) s') with (applyWrites calls (applyWrite s' c)).
    eapply ledgersAgree_weaken; [| |apply IH, ledgersAgree_step, H]; cbn.
    + intros id [[HD Hc] Hall]. split; [exact HD|].
      intros c' [->|Hin]%elem_of_cons; [exact Hc|by apply Hall].
    + intros k [[HK Hc] Hall]. split; [exact HK|].
      intros c' [->|Hin]%elem_of_cons; [exact Hc|by apply Hall].
Qed.

Lemma ledgersAgree_dirties (calls : list Call) :
  forall (D : string -> Prop) (K : string * string -> Prop) (s s' : Stores),
    ledgersAgree D K s s' ->
    ledgersAgree (fun id => D id \/ exists c, c ∈ calls /\ balanceIdOf c = Some id)
      (fun k => K k \/ exists c, c ∈ calls /\ historyKeyOf c = Some k)
      s (applyWrites calls s').
Proof.
  induction calls as [|c calls IH]; intros D K s s' H.
  - eapply ledgersAgree_weaken; [| |exact H]; cbn; tauto.
  - change (applyWrites (c :: calls) s') with (applyWrites calls (applyWrite s' c)).
    eapply ledgersAgree_weaken; [| |apply IH, ledgersAgree_dirty, H]; cbn.
    + intros id [[HD|Hc]|(c' & Hin & Hc')]; [by left|right..].
      * exists c. split; [by left|done].
      * exists c'. split; [by right|done].
    + intros k [[HK|Hc]|(c' & Hin & Hc')]; [by left|right..].
      * exists c. split; [by left|done].
      * exists c'. split; [by right|done].
Qed.

(** ** The order of the collection under ledger writes *)

Lemma applyWrite_stored (s : Stores) (c : Call) (id : string) :
  is_Some (balanceDocs (balances (applyWrite s c)) !! id)
  <-> balanceIdOf c = Some id \/ is_Some (balanceDocs (balances s) !! id).
Proof.
  destruct c; cbn [applyWrite balances withBalances withHistory balanceIdOf];
    try (split; [by right|by intros [[=]|?]]).
  match goal with |- context [BalanceRepository.upsert ?a ?x ?k ?v ?vb ?b ?db] =>
    destruct (decide (id = balanceId a x k)) as [->|Hne];
      [rewrite (upsert_lookup a x k v vb b db)
      |rewrite (upsert_lookup_ne a x k v vb b db id Hne)] end.
  - split; [by left|by eexists].
  - split; [by right|]. intros [[=]|?]; congruence.
Qed.

Lemma applyWrite_order (s : Stores) (c : Call) :
  balanceOrder (balances (applyWrite s c))
  = match balanceIdOf c with
    | Some id => upsertedOrder id (balanceDocs (balances s)) (balanceOrder (balances s))
    | None => balanceOrder (balances s)
    end.
Proof. by destruct c. Qed.

(** The order after a write depends on the order before and on the ids
    that are stored, and on nothing else. *)
Lemma applyWrites_order_from (calls : list Call) :
  forall s s',
    (forall id, is_Some (balanceDocs (balances s) !! id)
                <-> is_Some (balanceDocs (balances s') !! id)) ->
    balanceOrder (balances s) = balanceOrder (balances s') ->
    balanceOrder (balances (applyWrites calls s))
    = balanceOrder (balances (applyWrites calls s')).
Proof.
  induction calls as [|c calls IH]; intros s s' Hstored Horder; [exact Horder|].
  change (applyWrites (c :: calls) s) with (applyWrites calls (applyWrite s c)).
  change (applyWrites (c :: calls) s') with (applyWrites calls (applyWrite s' c)).
  apply IH.
  - intros id. rewrite !applyWrite_stored, Hstored. tauto.
  - rewrite !applyWrite_order. destruct (balanceIdOf c) as [id|]; [|exact Horder].
    unfold upsertedOrder. rewrite Horder. specialize (Hstored id).
    destruct (balanceDocs (balances s) !! id), (balanceDocs (balances s') !! id);
      try reflexivity.
    + destruct (proj1 Hstored ltac:(by eexists)) as [? [=]].
    + destruct (proj2 Hstored ltac:(by eexists)) as [? [=]].
Qed.

(** Writes to entries that are stored leave the order as it is. *)
Lemma applyWrites_order_stored (calls : list Call) :
  forall s,
    (forall c id, c ∈ calls -> balanceIdOf c = Some id ->
                  is_Some (balanceDocs (balances s) !! id)) ->
    balanceOrder (balances (applyWrites calls s)) = balanceOrder (balances s)
    /\ forall id, is_Some (balanceDocs (balances (applyWrites calls s)) !! id)
                  <-> is_Some (balanceDocs (balances s) !! id).
Proof.
  induction calls as [|c calls IH]; intros s Hstored; [done|].
  change (applyWrites (c :: calls) s) with (applyWrites calls (applyWrite s c)).
  assert (Hsame : forall id, is_Some (balanceDocs (balances (applyWrite s c)) !! id)
                             <-> is_Some (balanceDocs (balances s) !! id)).
  { intros id. rewrite applyWrite_stored. split; [|by right].
    intros [Hc|?]; [|done]. apply (Hstored c); [by left|exact Hc]. }
  destruct (IH (applyWrite s c)) as [Horder Hafter].
  { intros c' id Hin Hc'. apply Hsame. apply (Hstored c'); [by right|exact Hc']. }
  split.
  - rewrite Horder, applyWrite_order. destruct (balanceIdOf c) as [id|] eqn:Hc; [|done].
    unfold upsertedOrder.
    destruct (Hstored c id ltac:(by left) Hc) as [d ->]. reflexivity.
  - intros id. by rewrite Hafter, Hsame.
Qed.

(** After the writes, what they wrote is stored. *)
Lemma applyWrites_stored (calls : list Call) :
  forall s c id,
    c ∈ calls -> balanceIdOf c = Some id ->
    is_Some (balanceDocs (balances (applyWrites calls s)) !! id).
Proof.
  assert (Hkept : forall l s id,
            is_Some (balanceDocs (balances s) !! id) ->
            is_Some (balanceDocs (balances (applyWrites l s)) !! id)).
  { intros l. induction l as [|c l IH]; intros s id Hid; [done|].
    change (applyWrites (c :: l) s) with (applyWrites l (applyWrite s c)).
    apply IH, applyWrite_stored. by right. }
  induction calls as [|c calls IH]; intros s c' id Hin Hc'; [by apply elem_of_nil in Hin|].
  change (applyWrites (c :: calls) s) with (applyWrites calls (applyWrite s c)).
  apply elem_of_cons in Hin as [->|Hin].
  - apply Hkept, applyWrite_stored. by left.
  - by eapply IH.
Qed.

(** Writes applied over a prefix of themselves give the ledgers they give
    from the start. *)
Lemma applyWrites_over_prefix (front rest : list Call) (s : Stores) :
  balances (applyWrites (front ++ rest) (applyWrites front s))
  = balances (applyWrites (front ++ rest) s)
  /\ history (applyWrites (front ++ rest) (applyWrites front s))
     = history (applyWrites (front ++ rest) s).
Proof.
  pose proof (ledgersAgree_steps (front ++ rest) _ _ _ _
                (ledgersAgree_dirties front _ _ _ _ (ledgersAgree_refl s)))
    as (Ha & _ & Hd & Hh).
  assert (Horder : balanceOrder (balances (applyWrites (front ++ rest) (applyWrites front s)))
                   = balanceOrder (balances (applyWrites (front ++ rest) s))).
  { rewrite !applyWrites_app.
    destruct (applyWrites_order_stored front (applyWrites front s)) as [Ho Hs].
    { intros c id Hin Hc. by eapply applyWrites_stored. }
    by apply applyWrites_order_from. }
  cbn beta in *. split.
  - symmetry.
    destruct (balances (applyWrites (front ++ rest) s)) as [a d o],
             (balances (applyWrites (front ++ rest) (applyWrites front s))) as [a' d' o'].
    cbn [balanceAddresses balanceDocs balanceOrder] in *. f_equal; [exact Ha| |done].
    apply map_eq. intros id. apply Hd.
    intros [[[]|(c & Hin & Hc)] Hall]. apply (Hall c); [|exact Hc].
    apply elem_of_app. by left.
  - symmetry. apply map_eq. intros k. apply Hh.
    intros [[[]|(c & Hin & Hc)] Hall]. apply (Hall c); [|exact Hc].
    apply elem_of_app. by left.
Qed.

Lemma replayed_writes (assetId operationId txId : string) (block : Z) (blockTime : JS.Date)
    (planned : list OperationActionEntity) :
  forall s,
    foldl (replayStores assetId operationId txId block blockTime) s planned
    = applyWrites
        (concat ((fun a => List.filter isLedgerWrite
                              (replayCalls assetId operationId txId block blockTime a))
                   <$> planned)) s.
Proof.
  induction planned as [|a planned IH]; intros s; [reflexivity|].
  cbn [foldl fmap list_fmap concat]. rewrite applyWrites_app, IH. reflexivity.
Qed.

Section Recovery.

Context (ADDRESS_SEPARATOR : string).
Context (isSteemAddress : string -> bool) (isoUTC : string -> JS.Date).
Context (parseFloat : option string -> float) (clock : nat -> JS.Date).

Local Abbreviation handleAction' :=
  (handleAction ADDRESS_SEPARATOR isSteemAddress isoUTC parseFloat clock).
Local Abbreviation ledgerWritesOf' :=
  (ledgerWritesOf ADDRESS_SEPARATOR isSteemAddress isoUTC parseFloat).

(** The ledger writes among the calls of the body are those the stores it
    reads determine, and the ledgers after it are the ledgers before it
    with these writes applied, in order. *)
Lemma handleAction_writes (seq : Z) (action : Action) (w : World) :
  let r := handleAction' seq action w in
  let writes := ledgerWritesOf' (stores w) seq action in
  exists calls,
    trace (snd r) = trace w ++ calls
    /\ List.filter isLedgerWrite calls = writes
    /\ balances (stores (snd r)) = balances (applyWrites writes (stores w))
    /\ history (stores (snd r)) = history (applyWrites writes (stores w)).
Proof.
  cbv zeta. rewrite handleAction_unfold. unfold ledgerWritesOf.
  destruct (transferOf action) as [transfer|].
  - destruct (truthy (operationsByTxId (stores w) !! trx_id action))
      as [operationId|] eqn:Hop.
    + destruct (operations (stores w) !! operationId) as [operation|] eqn:Hget.
      * destruct (isCompleted operation) eqn:Hdone.
        -- erewrite applyTransfer_completed; [|exact Hop|exact Hget|exact Hdone].
           cbn [fst snd stores trace]. eexists.
           split; [rewrite <- !app_assoc; reflexivity|]. by repeat split.
        -- erewrite applyTransfer_internal; [|exact Hop|exact Hget|exact Hdone].
           cbv zeta. cbn [fst snd stores trace]. eexists.
           split; [rewrite <- !app_assoc; reflexivity|].
           split.
           { cbn [app List.filter isLedgerWrite].
             rewrite !List.filter_app, filter_concat, <- list_fmap_compose.
             cbn [List.filter isLedgerWrite]. by rewrite app_nil_r. }
           rewrite <- replayed_writes. by split.
      * destruct (applyTransfer_missing ADDRESS_SEPARATOR isSteemAddress parseFloat clock
                    (trx_id action) (JS.toString seq) (action_block action * 10)
                    (isoUTC (timestamp action))
                    (mkWorld (stores w)
                       (trace w ++ [LogWrite info (fst (op action) +:+ " action "
                                                   +:+ "detected")]))
                    transfer operationId Hop Hget) as [e ->].
        cbn [fst snd stores trace]. eexists.
        split; [rewrite <- !app_assoc; reflexivity|]. by repeat split.
    + destruct (assetOf (stores w) transfer) as [asset|] eqn:Hasset.
      * destruct (isSteemAddress (destinationOf ADDRESS_SEPARATOR transfer)) eqn:Hto.
        -- erewrite applyTransfer_external; [|exact Hop|exact Hasset|exact Hto].
           cbv zeta. cbn [fst snd stores trace]. eexists.
           split; [rewrite <- !app_assoc; reflexivity|]. by repeat split.
        -- erewrite applyTransfer_invalid; [|exact Hop|exact Hasset|exact Hto].
           cbn [fst snd stores trace]. eexists.
           split; [rewrite <- !app_assoc; reflexivity|]. by repeat split.
      * erewrite applyTransfer_untracked; [|exact Hop|exact Hasset].
        cbn [fst snd stores trace]. eexists.
        split; [rewrite <- !app_assoc; reflexivity|]. by repeat split.
  - rewrite applyTransfer_other. cbn [fst snd stores trace]. eexists.
    split; [rewrite <- !app_assoc; reflexivity|]. by repeat split.
Qed.

Lemma ledgerWritesOf_frame (calls : list Call) (s : Stores) (seq : Z) (action : Action) :
  ledgerWritesOf' (applyWrites calls s) seq action = ledgerWritesOf' s seq action.
Proof.
  destruct (applyWrites_frame calls s) as (_ & Hops & Hact & Htx & Hassets).
  unfold ledgerWritesOf, assetOf, lookupAsset. by rewrite Hops, Hact, Htx, Hassets.
Qed.

(** X12. An action whose body was cut short -- after any number of its
    ledger writes, before the operation is marked completed and before
    the checkpoint -- and that is applied again on the stores the crash
    left, makes the same ledger writes again and leaves the balance and
    the history ledgers exactly as the run that was not cut short leaves
    them, whatever the clock and the calls made in between. *)
Theorem replay_after_crash (seq : Z) (action : Action) (w : World)
    (done rest : list Call) (callsSince : list Call) :
  let r := handleAction' seq action w in
  List.filter isLedgerWrite (callsOf w (snd r)) = done ++ rest ->
  let crashed := mkWorld (applyWrites done (stores w)) callsSince in
  let r' := handleAction' seq action crashed in
  List.filter isLedgerWrite (callsOf crashed (snd r')) = done ++ rest
  /\ balances (stores (snd r')) = balances (stores (snd r))
  /\ history (stores (snd r')) = history (stores (snd r)).
Proof.
  intros r Hwrites crashed r'. subst r r'.
  destruct (handleAction_writes seq action w) as (calls & Htrace & Hcalls & Hbal & Hhist).
  destruct (handleAction_writes seq action crashed)
    as (calls' & Htrace' & Hcalls' & Hbal' & Hhist').
  cbv zeta in *. rewrite (callsOf_app _ _ _ Htrace) in Hwrites.
  rewrite (callsOf_app _ _ _ Htrace').
  subst crashed. cbn [stores] in *. rewrite ledgerWritesOf_frame in *.
  rewrite Hcalls in Hwrites. rewrite Hwrites in *.
  destruct (applyWrites_over_prefix done rest (stores w)) as [Hb Hh].
  split; [exact Hcalls'|]. split; congruence.
Qed.

End Recovery.

Lemma replay_after_crash_witness :
  let w := mkWorld (demoOperationStores demoPending) [] in
  let writes :=
    List.filter isLedgerWrite (callsOf w (snd (demoHandleAction 1 demoTransferAction w))) in
  let crashed := mkWorld (applyWrites (take 2 writes) (stores w)) [ParamsGet] in
  writes = take 2 writes ++ drop 2 writes
  /\ length writes = 6%nat
  /\ balances (stores (snd (demoHandleAction 1 demoTransferAction crashed)))
     = balances (stores (snd (demoHandleAction 1 demoTransferAction w))).
Proof.
  cbv zeta. split; [reflexivity|]. split; [reflexivity|].
  exact (proj1 (proj2
    (replay_after_crash "$" demoIsSteemAddress (fun _ => 0) demoParseFloat
       (fun n => Z.of_nat n) 1 demoTransferAction
       (mkWorld (demoOperationStores demoPending) [])
       (take 2 (List.filter isLedgerWrite
                  (callsOf (mkWorld (demoOperationStores demoPending) [])
                     (snd (demoHandleAction 1 demoTransferAction
                             (mkWorld (demoOperationStores demoPending) []))))))
       (drop 2 (List.filter isLedgerWrite
                  (callsOf (mkWorld (demoOperationStores demoPending) [])
                     (snd (demoHandleAction 1 demoTransferAction
                             (mkWorld (demoOperationStores demoPending) []))))))
       [ParamsGet] eq_refl))).
Defined.

(** * More on the scanner: what the replay of an operation leaves stored *)

Section ReplayLedger.

Context (assetId operationId txId : string) (block : Z) (blockTime : JS.Date).

Local Abbreviation replay := (replayStores assetId operationId txId block blockTime).
Local Abbreviation idOf := (fun x : string => balanceId x assetId operationId).

Lemma replay_watch (planned : list OperationActionEntity) (s : Stores) :
  balanceAddresses (balances (foldl replay s planned)) = balanceAddresses (balances s)
  /\ forall id, cancelledAt (foldl replay s planned) id = cancelledAt s id.
Proof.
  rewrite replayed_writes.
  match goal with |- context [applyWrites ?calls s] =>
    destruct (ledgersAgree_dirties calls _ _ _ _ (ledgersAgree_refl s)) as (Ha & Hc & _)
  end.
  split; [by rewrite Ha|]. intros id. by rewrite Hc.
Qed.

Lemma replay_other (planned : list OperationActionEntity) :
  forall (s : Stores) (id : string),
    (forall a, a ∈ planned -> id <> idOf (FromAddress a) /\ id <> idOf (ToAddress a)) ->
    balanceDocs (balances (foldl replay s planned)) !! id
    = balanceDocs (balances s) !! id.
Proof.
  induction planned as [|a planned IH]; intros s id Hid; [reflexivity|].
  cbn [foldl]. rewrite IH by (intros a' Ha'; apply Hid; by right).
  destruct (Hid a ltac:(by left)) as [Hfrom Hto].
  unfold replayStores, movementBalances. cbn [balances withHistory withBalances].
  by rewrite !upsert_lookup_ne.
Qed.

Lemma replay_credit (s : Stores) (a : OperationActionEntity) :
  balanceDocs (balances (replay s a)) !! idOf (ToAddress a)
  = Some (mkBalanceDoc (Some (ToAddress a)) (Some assetId) (Some operationId)
            (Some (ActionAmount a)) (Some (ActionAmountInBaseUnit a)) (Some block)
            (Some (BalanceRepository.isObservable (ToAddress a) (balances s)))
            (cancelledAt s (idOf (ToAddress a)))).
Proof.
  unfold replayStores, movementBalances. cbn [balances withHistory withBalances].
  rewrite upsert_lookup. unfold setEntry, cancelledAt. do 2 f_equal.
  destruct (decide (idOf (FromAddress a) = idOf (ToAddress a))) as [Heq|Hne].
  - cbv beta in Heq. rewrite <- Heq, upsert_lookup. reflexivity.
  - by rewrite upsert_lookup_ne.
Qed.

Lemma replay_debit (s : Stores) (a : OperationActionEntity) :
  FromAddress a <> ToAddress a ->
  balanceDocs (balances (replay s a)) !! idOf (FromAddress a)
  = Some (mkBalanceDoc (Some (FromAddress a)) (Some assetId) (Some operationId)
            (Some (PrimFloat.opp (ActionAmount a)))
            (Some (PrimFloat.opp (ActionAmountInBaseUnit a))) (Some block)
            (Some (BalanceRepository.isObservable (FromAddress a) (balances s)))
            (cancelledAt s (idOf (FromAddress a)))).
Proof.
  intros Hne. unfold replayStores, movementBalances.
  cbn [balances withHistory withBalances].
  rewrite upsert_lookup_ne by (intros Heq; by apply balanceId_inj_address in Heq).
  rewrite upsert_lookup. reflexivity.
Qed.

Lemma untouched_other (x : string) (l : list OperationActionEntity) :
  (forall a, a ∈ l -> FromAddress a <> x /\ ToAddress a <> x) ->
  forall a, a ∈ l -> idOf x <> idOf (FromAddress a) /\ idOf x <> idOf (ToAddress a).
Proof.
  intros Hl a Ha. destruct (Hl a Ha) as [Hfrom Hto].
  split; intros Heq; apply balanceId_inj_address in Heq; congruence.
Qed.

End ReplayLedger.

Section Replay.

Context (ADDRESS_SEPARATOR : string).
Context (isSteemAddress : string -> bool) (isoUTC : string -> JS.Date).
Context (parseFloat : option string -> float) (clock : nat -> JS.Date).

Local Abbreviation handleAction' :=
  (handleAction ADDRESS_SEPARATOR isSteemAddress isoUTC parseFloat clock).

(** X13. After the replay of a pending operation, the balance entry of an
    address under the operation's id is the movement of the last planned
    action that names the address, alone: the amounts of that action for
    its recipient, the negated amounts for its sender, whatever the
    planned actions before it moved for the same address -- amounts under
    one id are replaced, not added.  The entry keeps the watch state of
    the address and the cancellation recorded before; every entry of
    another id is as it was. *)
Theorem replay_keeps_last_movement (seq : Z) (action : Action) (w : World)
    (transfer : Transfer) (operationId : string) (operation : OperationEntity) :
  transferOf action = Some transfer ->
  truthy (operationsByTxId (stores w) !! trx_id action) = Some operationId ->
  operations (stores w) !! operationId = Some operation ->
  isCompleted operation = false ->
  let b := action_block action * 10 in
  let assetId := OperationAssetId operation in
  let planned := default [] (operationActions (stores w) !! operationId) in
  let db := balances (stores w) in
  let docs' := balanceDocs (balances (stores (snd (handleAction' seq action w)))) in
  let idOf (x : string) := balanceId x assetId operationId in
  let untouched (x : string) (l : list OperationActionEntity) :=
    forall a, a ∈ l -> FromAddress a <> x /\ ToAddress a <> x in
  let entry (x : string) (amount amountInBaseUnit : float) :=
    Some (mkBalanceDoc (Some x) (Some assetId) (Some operationId) (Some amount)
            (Some amountInBaseUnit) (Some b)
            (Some (BalanceRepository.isObservable x db))
            (cancelledAt (stores w) (idOf x))) in
  (forall front a back,
      planned = front ++ a :: back -> untouched (ToAddress a) back ->
      docs' !! idOf (ToAddress a)
      = entry (ToAddress a) (ActionAmount a) (ActionAmountInBaseUnit a))
  /\ (forall front a back,
        planned = front ++ a :: back -> FromAddress a <> ToAddress a ->
        untouched (FromAddress a) back ->
        docs' !! idOf (FromAddress a)
        = entry (FromAddress a) (PrimFloat.opp (ActionAmount a))
            (PrimFloat.opp (ActionAmountInBaseUnit a)))
  /\ (forall id,
        (forall a, a ∈ planned -> id <> idOf (FromAddress a) /\ id <> idOf (ToAddress a)) ->
        docs' !! id = balanceDocs db !! id).
Proof.
  intros Htransfer Hop Hget Hpending. cbv zeta.
  erewrite handleAction_internal; [|exact Htransfer|exact Hop|exact Hget|exact Hpending].
  cbv zeta. cbn [snd stores balances advanced withParams withOperations].
  split; [|split].
  - intros front a back Hplanned Hback. rewrite Hplanned, foldl_app. cbn [foldl].
    rewrite replay_other by (by apply untouched_other).
    rewrite replay_credit.
    destruct (replay_watch (OperationAssetId operation) operationId (trx_id action)
                (action_block action * 10) (isoUTC (timestamp action)) front (stores w))
      as [Ha Hc].
    unfold BalanceRepository.isObservable. by rewrite Ha, Hc.
  - intros front a back Hplanned Hne Hback. rewrite Hplanned, foldl_app. cbn [foldl].
    rewrite replay_other by (by apply untouched_other).
    rewrite replay_debit by exact Hne.
    destruct (replay_watch (OperationAssetId operation) operationId (trx_id action)
                (action_block action * 10) (isoUTC (timestamp action)) front (stores w))
      as [Ha Hc].
    unfold BalanceRepository.isObservable. by rewrite Ha, Hc.
  - intros id Hid. by apply replay_other.
Qed.

End Replay.

Lemma replay_keeps_last_movement_witness :
  isCompleted demoPending = false
  /\ demoPlanned
     = [mkOperationAction "A" "B" 10.5%float 10500%float "0"]
       ++ mkOperationAction "A" "C" 2%float 2000%float "1" :: []
  /\ balanceDocs
       (balances
          (stores (snd (demoHandleAction 1 demoTransferAction
                          (mkWorld (demoOperationStores demoPending) [])))))
       !! "A_1_op1"
     = Some (mkBalanceDoc (Some "A") (Some "1") (Some "op1") (Some (-2)%float)
               (Some (-2000)%float) (Some 80) (Some false) None).
Proof.
  split; [reflexivity|]. split; [reflexivity|].
  refine (proj1 (proj2
    (replay_keeps_last_movement "$" demoIsSteemAddress (fun _ => 0) demoParseFloat
       (fun n => Z.of_nat n) 1 demoTransferAction
       (mkWorld (demoOperationStores demoPending) []) demoTransfer "op1" demoPending
       eq_refl eq_refl eq_refl eq_refl))
    [mkOperationAction "A" "B" 10.5%float 10500%float "0"]
    (mkOperationAction "A" "C" 2%float 2000%float "1") [] eq_refl _ _).
  - discriminate.
  - intros a Ha. by apply elem_of_nil in Ha.
Defined.
